(** * A shallow embedding of [SafeEvaluator] (src/app/main.py)

    The calculator evaluates a user-typed expression by handing the text to
    Python's [ast.parse] and walking the resulting tree with
    [SafeEvaluator._eval].  This development embeds

    - the fragment of the host language the walk relies on ([Module Py]):
      Python's [int], [bool], [float] (IEEE binary64, through the
      Standard Library's [SpecFloat]), the arithmetic operators with their
      numeric-tower dispatch, the exceptions they raise, and the ten
      registry entries taken from [math] and the builtins;
    - the syntax trees of [ast] ([Module Ast]);
    - the evaluator itself ([Module SafeEvaluator]), line by line;
    - a reference parser for the arithmetic fragment of Python's expression
      grammar ([Module RefParser]), used to run [evaluate] on concrete text.

    [ast.parse] itself and the C library's transcendental functions are not
    part of the repository: [evaluate] takes the parser as an argument, and
    the host functions whose results depend on the platform's libm are the
    fields of a record [Py.Libm], as is the size of the largest [int] the
    host has memory for.  The host is CPython 3.8 to 3.13, where literals
    parse to [ast.Constant] and [ast.Num] still exists. *)

From Stdlib Require Import ZArith NArith List String Ascii Bool Lia.
From Stdlib Require Import Floats.SpecFloat.
From Stdlib Require Import DecimalPos DecimalString.
Import ListNotations.
Local Open Scope string_scope.
Local Open Scope list_scope.
Local Open Scope Z_scope.

(* ================================================================== *)
(** * The host language *)
(* ================================================================== *)

Module Py.

(** ** Text: a Python [str] is a sequence of code points *)

Definition codepoint := N.
Definition str := list codepoint.

Definition str_of_string (s : string) : str :=
  map N_of_ascii (list_ascii_of_string s).
Coercion str_of_string : string >-> str.

Fixpoint str_eqb (a b : str) : bool :=
  match a, b with
  | [], [] => true
  | x :: a', y :: b' => N.eqb x y && str_eqb a' b'
  | _, _ => false
  end.

(** [s.replace(old, new)] for one-code-point [old] and [new], which is how
    the evaluator calls it. *)
Definition replace (old new : codepoint) (s : str) : str :=
  map (fun c => if N.eqb c old then new else c) s.

(** ** Exceptions and results *)

Inductive exn : Type :=
| ValueError (msg : string)
| ZeroDivisionError
| OverflowError
| TypeError
| RecursionError
| MemoryError.

Inductive result (A : Type) : Type :=
| Ok (a : A)
| Err (e : exn).
Arguments Ok {A} a.
Arguments Err {A} e.

Definition bind {A B} (c : result A) (k : A -> result B) : result B :=
  match c with
  | Ok a => k a
  | Err e => Err e
  end.

Notation "x <- c ;; k" := (bind c (fun x => k))
  (at level 61, c at next level, right associativity).

(** Evaluate a list left to right, stopping at the first exception: the
    semantics of a list comprehension over calls that may raise. *)
Fixpoint mapM {A B} (f : A -> result B) (l : list A) : result (list B) :=
  match l with
  | [] => Ok []
  | a :: l' => b <- f a ;; bs <- mapM f l' ;; Ok (b :: bs)
  end.

(** ** Floats: IEEE 754 binary64 *)

Definition float := spec_float.
Definition prec : Z := 53.
Definition emax : Z := 1024.

Definition fadd : float -> float -> float := SFadd prec emax.
Definition fsub : float -> float -> float := SFsub prec emax.
Definition fmul : float -> float -> float := SFmul prec emax.
Definition fdiv : float -> float -> float := SFdiv prec emax.
Definition fsqrt : float -> float := SFsqrt prec emax.
Definition fneg : float -> float := SFopp.
Definition fabs : float -> float := SFabs.

(** Nearest float to an integer, ties to even; infinite past the range. *)
Definition float_of_Z (z : Z) : float := binary_normalize prec emax z 0 false.

Definition fzero : float := S754_zero false.
Definition fone : float := float_of_Z 1.
Definition fhalf : float := S754_finite false 4503599627370496 (-53).

Definition is_nan (f : float) : bool :=
  match f with S754_nan => true | _ => false end.
Definition is_inf (f : float) : bool :=
  match f with S754_infinity _ => true | _ => false end.
Definition is_finite (f : float) : bool :=
  match f with S754_zero _ | S754_finite _ _ _ => true | _ => false end.
Definition is_zero (f : float) : bool :=
  match f with S754_zero _ => true | _ => false end.
Definition sign_bit (f : float) : bool :=
  match f with
  | S754_zero s | S754_infinity s | S754_finite s _ _ => s
  | S754_nan => false
  end.

(** C's [x < 0] and truth value of a double. *)
Definition flt0 (f : float) : bool := SFltb f fzero.
Definition fnonzero (f : float) : bool := negb (SFeqb f fzero).

(** Exact comparison of a float with an integer (Python compares [int] and
    [float] without rounding the integer). *)
Definition float_compare_Z (f : float) (z : Z) : option comparison :=
  match f with
  | S754_nan => None
  | S754_infinity s => Some (if s then Lt else Gt)
  | S754_zero _ => Some (0 ?= z)
  | S754_finite s m e =>
      let v := cond_Zopp s (Zpos m) in
      if 0 <=? e then Some (v * 2 ^ e ?= z) else Some (v ?= z * 2 ^ (- e))
  end.

(** C's [fmod]: the remainder of the truncated quotient, with the sign of
    the dividend.  The remainder of two doubles is exact; it is returned on
    the smaller of the two exponents, and [fnorm] brings such a triple to
    its canonical form (the value is unchanged). *)
Definition fmod (x y : float) : float :=
  match x, y with
  | S754_nan, _ | _, S754_nan => S754_nan
  | S754_infinity _, _ => S754_nan
  | _, S754_zero _ => S754_nan
  | _, S754_infinity _ => x
  | S754_zero _, _ => x
  | S754_finite sx mx ex, S754_finite sy my ey =>
      let e := Z.min ex ey in
      let X := Zpos mx * 2 ^ (ex - e) in
      let Y := Zpos my * 2 ^ (ey - e) in
      match X mod Y with
      | Zpos r => S754_finite sx r e
      | _ => S754_zero sx
      end
  end.

Definition fnorm (f : float) : float :=
  match f with
  | S754_finite s m e => binary_round prec emax s m e
  | _ => f
  end.

(** A positive mantissa on an exponent that is not below the smallest one
    by as much as the mantissa is long: rounding cannot flush it to
    zero. *)
Definition nonvanishing (m e : Z) : Prop :=
  0 < m /\ emin prec emax - e < Zdigits2 m.

(** C's [floor]. *)
Definition ffloor (x : float) : float :=
  match x with
  | S754_finite s m e =>
      if 0 <=? e then x
      else binary_normalize prec emax (cond_Zopp s (Zpos m) / 2 ^ (- e)) 0 s
  | _ => x
  end.

(** Nearest integer to a quotient [a / b] with [b > 0], ties to the even
    integer. *)
Definition div_near (a b : Z) : Z :=
  let q := a / b in
  let r := a mod b in
  if 2 * r <? b then q
  else if b <? 2 * r then q + 1
  else if Z.even q then q else q + 1.

(** ** Values *)

(** The eight functions of the registry. *)
Inductive builtin : Type :=
| Bsqrt | Bsin | Bcos | Btan | Blog | Blog10 | Babs | Bround.

Inductive value : Type :=
| VInt (z : Z)
| VBool (b : bool)
| VFloat (f : float)
| VComplex (re im : float)
| VBuiltin (f : builtin).

(** A [bool] is an [int]: [True] is 1 and [False] is 0. *)
Definition int_value (v : value) : option Z :=
  match v with
  | VInt z => Some z
  | VBool b => Some (Z.b2z b)
  | _ => None
  end.

Definition is_number (v : value) : bool :=
  match v with
  | VBuiltin _ => false
  | _ => true
  end.

Definition is_real (v : value) : bool :=
  match v with
  | VInt _ | VBool _ | VFloat _ => true
  | _ => false
  end.

(** ** What the platform decides

    Results of the C library's transcendental functions, of float and
    complex exponentiation, of complex arithmetic and of decimal rounding of
    floats are not fixed by the language; they are taken as given.  So is
    the memory of the host: an [int] has as many digits as fit in it. *)

(** The seven binary operators the evaluator applies. *)
Inductive arith : Type :=
| AAdd | ASub | AMul | ADiv | AFloorDiv | AMod | APow.

Inductive outcome : Type :=
| HFloat (f : float)
| HComplex (re im : float)
| HZeroDivision
| HOverflow.

Record Libm : Type := {
  libm_sin : float -> float;
  libm_cos : float -> float;
  libm_tan : float -> float;
  libm_log : float -> float;
  libm_log10 : float -> float;
  (** [float.__pow__] on two doubles *)
  float_pow : float -> float -> outcome;
  (** [complex.__add__], [__sub__], [__mul__], [__truediv__] (non-zero
      divisor) and [__pow__] *)
  complex_op : arith -> float * float -> float * float -> outcome;
  (** [complex.__abs__] *)
  complex_abs : float * float -> outcome;
  (** [float.__round__(ndigits)] *)
  float_round : float -> Z -> outcome;
  (** the length in bits from which on the host has no memory for an
      [int]: building one that long ends in [MemoryError] *)
  int_max_bits : Z
}.

Definition of_outcome (o : outcome) : result value :=
  match o with
  | HFloat f => Ok (VFloat f)
  | HComplex re im => Ok (VComplex re im)
  | HZeroDivision => Err ZeroDivisionError
  | HOverflow => Err OverflowError
  end.

(** ** Operators *)

Section Operators.
Variable L : Libm.

(** The numeric tower: the common type two operands are coerced to. *)
Inductive num : Type :=
| NInt (z : Z)
| NFloat (f : float)
| NComplex (re im : float).

Definition to_num (v : value) : result num :=
  match v with
  | VInt z => Ok (NInt z)
  | VBool b => Ok (NInt (Z.b2z b))
  | VFloat f => Ok (NFloat f)
  | VComplex re im => Ok (NComplex re im)
  | VBuiltin _ => Err TypeError
  end.

(** [PyLong_AsDouble]: "int too large to convert to float". *)
Definition int_to_float (z : Z) : result float :=
  let f := float_of_Z z in
  if is_inf f then Err OverflowError else Ok f.

Definition num_to_float (n : num) : result float :=
  match n with
  | NInt z => int_to_float z
  | NFloat f => Ok f
  | NComplex _ _ => Err TypeError
  end.

Definition num_to_complex (n : num) : result (float * float) :=
  match n with
  | NInt z => f <- int_to_float z ;; Ok (f, fzero)
  | NFloat f => Ok (f, fzero)
  | NComplex re im => Ok (re, im)
  end.

(** [int / int]: the correctly rounded quotient. *)
Definition int_true_divide (x y : Z) : result value :=
  if y =? 0 then Err ZeroDivisionError
  else if x =? 0 then Ok (VFloat (S754_zero (y <? 0)))
  else
    let q := fdiv (S754_finite (x <? 0) (Z.to_pos (Z.abs x)) 0)
                  (S754_finite (y <? 0) (Z.to_pos (Z.abs y)) 0) in
    if is_inf q then Err OverflowError else Ok (VFloat q).

Definition int_op (op : arith) (x y : Z) : result value :=
  match op with
  | AAdd => Ok (VInt (x + y))
  | ASub => Ok (VInt (x - y))
  | AMul => Ok (VInt (x * y))
  | ADiv => int_true_divide x y
  | AFloorDiv => if y =? 0 then Err ZeroDivisionError else Ok (VInt (x / y))
  | AMod => if y =? 0 then Err ZeroDivisionError else Ok (VInt (x mod y))
  | APow =>
      if 0 <=? y then Ok (VInt (x ^ y))
      else a <- int_to_float x ;; b <- int_to_float y ;;
           of_outcome (float_pow L a b)
  end.

(** [float_rem] of floatobject.c. *)
Definition float_rem (vx wx : float) : result float :=
  if is_zero wx then Err ZeroDivisionError
  else
    let m := fmod vx wx in
    Ok (if fnonzero m
        then (if xorb (flt0 wx) (flt0 m) then fadd m wx else fnorm m)
        else S754_zero (sign_bit wx)).

(** The quotient of [_float_div_mod] of floatobject.c. *)
Definition float_floor_div (vx wx : float) : result float :=
  if is_zero wx then Err ZeroDivisionError
  else
    let m := fmod vx wx in
    let d := fdiv (fsub vx m) wx in
    let d := if fnonzero m && xorb (flt0 wx) (flt0 m) then fsub d fone else d in
    Ok (if fnonzero d
        then (let fl := ffloor d in
              if SFltb fhalf (fsub d fl) then fadd fl fone else fl)
        else S754_zero (sign_bit (fdiv vx wx))).

Definition float_op (op : arith) (x y : float) : result value :=
  match op with
  | AAdd => Ok (VFloat (fadd x y))
  | ASub => Ok (VFloat (fsub x y))
  | AMul => Ok (VFloat (fmul x y))
  | ADiv => if is_zero y then Err ZeroDivisionError else Ok (VFloat (fdiv x y))
  | AFloorDiv => f <- float_floor_div x y ;; Ok (VFloat f)
  | AMod => f <- float_rem x y ;; Ok (VFloat f)
  | APow => of_outcome (float_pow L x y)
  end.

Definition complex_arith (op : arith) (x y : float * float) : result value :=
  match op with
  | AFloorDiv | AMod => Err TypeError
  | ADiv =>
      if is_zero (fst y) && is_zero (snd y) then Err ZeroDivisionError
      else of_outcome (complex_op L ADiv x y)
  | _ => of_outcome (complex_op L op x y)
  end.

(** [l op r]: both operands are brought to the wider of their two types. *)
Definition binop (op : arith) (l r : value) : result value :=
  a <- to_num l ;;
  b <- to_num r ;;
  match a, b with
  | NInt x, NInt y => int_op op x y
  | NComplex _ _, _ | _, NComplex _ _ =>
      x <- num_to_complex a ;; y <- num_to_complex b ;; complex_arith op x y
  | _, _ =>
      x <- num_to_float a ;; y <- num_to_float b ;; float_op op x y
  end.

Definition add := binop AAdd.
Definition sub := binop ASub.
Definition mul := binop AMul.
Definition truediv := binop ADiv.
Definition floordiv := binop AFloorDiv.
Definition mod_ := binop AMod.
Definition pow := binop APow.

(** Unary [+x] and [-x]. *)
Definition pos (v : value) : result value :=
  match v with
  | VInt z => Ok (VInt z)
  | VBool b => Ok (VInt (Z.b2z b))
  | VFloat f => Ok (VFloat f)
  | VComplex re im => Ok (VComplex re im)
  | VBuiltin _ => Err TypeError
  end.

Definition neg (v : value) : result value :=
  match v with
  | VInt z => Ok (VInt (- z))
  | VBool b => Ok (VInt (- Z.b2z b))
  | VFloat f => Ok (VFloat (fneg f))
  | VComplex re im => Ok (VComplex (fneg re) (fneg im))
  | VBuiltin _ => Err TypeError
  end.

(** The builtin [abs]. *)
Definition abs (v : value) : result value :=
  match v with
  | VInt z => Ok (VInt (Z.abs z))
  | VBool b => Ok (VInt (Z.b2z b))
  | VFloat f => Ok (VFloat (fabs f))
  | VComplex re im => of_outcome (complex_abs L (re, im))
  | VBuiltin _ => Err TypeError
  end.

(** [a > b]; complex numbers and functions are not ordered. *)
Definition gt (a b : value) : result bool :=
  x <- to_num a ;;
  y <- to_num b ;;
  match x, y with
  | NInt m, NInt n => Ok (n <? m)
  | NFloat f, NFloat g => Ok (SFltb g f)
  | NFloat f, NInt n =>
      Ok (match float_compare_Z f n with Some Gt => true | _ => false end)
  | NInt m, NFloat g =>
      Ok (match float_compare_Z g m with Some Lt => true | _ => false end)
  | _, _ => Err TypeError
  end.

(** ** The registry's functions *)

(** [PyFloat_AsDouble]: the argument conversion of the [math] functions. *)
Definition float_arg (v : value) : result float :=
  match v with
  | VInt z => int_to_float z
  | VBool b => Ok (float_of_Z (Z.b2z b))
  | VFloat f => Ok f
  | VComplex _ _ | VBuiltin _ => Err TypeError
  end.

(** [math_1] of mathmodule.c with [can_overflow = 0]: wraps a C function
    of one double and turns an invalid result into a domain error. *)
Definition math_1 (func : float -> float) (v : value) : result value :=
  x <- float_arg v ;;
  let r := func x in
  if is_nan r && negb (is_nan x) then Err (ValueError "math domain error")
  else if is_inf r && is_finite x then Err (ValueError "math domain error")
  else Ok (VFloat r).

(** [m_log] and [m_log10] of mathmodule.c: the C function guarded on its
    domain. *)
Definition m_log (clog : float -> float) (x : float) : float :=
  match x with
  | S754_nan => x
  | S754_infinity s => if s then S754_nan else x
  | S754_zero _ => S754_infinity true
  | S754_finite s _ _ => if s then S754_nan else clog x
  end.

(** [_PyLong_Frexp] for a positive integer too large for a double: a
    mantissa in [[0.5, 1)] and an exponent. *)
Definition long_frexp (z : Z) : float * Z :=
  match binary_normalize prec (Z.log2 z + 2) z 0 false with
  | S754_finite s m e => (S754_finite s m (- prec), e + prec)
  | f => (f, 0)
  end.

(** [loghelper] of mathmodule.c: integers are handled apart so that huge
    ones do not overflow. *)
Definition loghelper (clog : float -> float) (v : value) : result value :=
  match int_value v with
  | Some z =>
      if z <=? 0 then Err (ValueError "math domain error")
      else
        let x := float_of_Z z in
        if is_inf x then
          let '(m, e) := long_frexp z in
          Ok (VFloat (fadd (m_log clog m)
                           (fmul (float_of_Z e) (m_log clog (float_of_Z 2)))))
        else Ok (VFloat (m_log clog x))
  | None => math_1 (m_log clog) v
  end.

(** [float.__round__()] without [ndigits]: the nearest integer, ties to
    even. *)
Definition float_to_int_round (f : float) : result value :=
  match f with
  | S754_nan => Err (ValueError "cannot convert float NaN to integer")
  | S754_infinity _ => Err OverflowError
  | S754_zero _ => Ok (VInt 0)
  | S754_finite s m e =>
      if 0 <=? e then Ok (VInt (cond_Zopp s (Zpos m * 2 ^ e)))
      else Ok (VInt (cond_Zopp s (div_near (Zpos m) (2 ^ (- e)))))
  end.

(** [10 ** k] as [int.__round__] builds it, for [k > 0]: the power, or
    [MemoryError] where the host cannot hold it.  (The powers of the
    operator [**] stay small, the evaluator guarding them; this one is
    not guarded.) *)
Definition int_pow10 (k : Z) : result Z :=
  let p := 10 ^ k in
  if int_max_bits L <=? Z.log2 p then Err MemoryError else Ok p.

(** [int.__round__(ndigits)] of longobject.c: the number itself for
    [ndigits >= 0]; otherwise [10 ** -ndigits] is built first and the
    number is rounded to the nearest multiple of it, ties to the even
    one. *)
Definition int_round (z n : Z) : result Z :=
  if 0 <=? n then Ok z
  else p <- int_pow10 (- n) ;; Ok (div_near z p * p).

(** The builtin [round(number[, ndigits])]. *)
Definition round1 (x : value) : result value :=
  match x with
  | VInt z => Ok (VInt z)
  | VBool b => Ok (VInt (Z.b2z b))
  | VFloat f => float_to_int_round f
  | VComplex _ _ | VBuiltin _ => Err TypeError
  end.

Definition round2 (x n : value) : result value :=
  match x, int_value n with
  | (VInt _ | VBool _), Some k =>
      match int_value x with
      | Some z => r <- int_round z k ;; Ok (VInt r)
      | None => Err TypeError
      end
  | VFloat f, Some k => of_outcome (float_round L f k)
  | _, _ => Err TypeError
  end.

(** A function of the registry applied to the evaluated arguments; a
    wrong number of arguments is a [TypeError]. *)
Definition call_builtin (b : builtin) (args : list value) : result value :=
  match b, args with
  | Bsqrt, [x] => math_1 fsqrt x
  | Bsin, [x] => math_1 (libm_sin L) x
  | Bcos, [x] => math_1 (libm_cos L) x
  | Btan, [x] => math_1 (libm_tan L) x
  | Blog, [x] => loghelper (libm_log L) x
  | Blog, [x; base] =>
      num <- loghelper (libm_log L) x ;;
      den <- loghelper (libm_log L) base ;;
      truediv num den
  | Blog10, [x] => loghelper (libm_log10 L) x
  | Babs, [x] => abs x
  | Bround, [x] => round1 x
  | Bround, [x; n] => round2 x n
  | _, _ => Err TypeError
  end.

(** Calling [func] with unpacked [args]: only function objects are
    callable. *)
Definition call (func : value) (args : list value) : result value :=
  match func with
  | VBuiltin b => call_builtin b args
  | _ => Err TypeError
  end.

End Operators.

(** [math.pi] and [math.e]. *)
Definition math_pi : float := S754_finite false 7074237752028440 (-51).
Definition math_e : float := S754_finite false 6121026514868073 (-51).

End Py.

(* ================================================================== *)
(** * Syntax trees: the [ast] module *)
(* ================================================================== *)

Module Ast.
Import Py.

(** The value carried by an [ast.Constant]. *)
Inductive constant : Type :=
| CInt (z : Z)
| CFloat (f : float)
| CComplex (im : float)
| CBool (b : bool)
| CStr (s : str)
| CBytes (s : list N)
| CNone
| CEllipsis.

Inductive unaryop : Type :=
| Invert | Not | UAdd | USub.

Inductive operator : Type :=
| Add | Sub | Mult | MatMult | Div | Mod | Pow
| LShift | RShift | BitOr | BitXor | BitAnd | FloorDiv.

(** Expression classes the evaluator never looks into; their fields are
    left out. *)
Inductive other_expr : Type :=
| BoolOp | NamedExpr | Lambda | IfExp | Dict | Set_ | ListComp | SetComp
| DictComp | GeneratorExp | Await | Yield | YieldFrom | Compare
| FormattedValue | JoinedStr | Slice.

#[local] Unset Elimination Schemes.
Inductive expr : Type :=
| Constant (value : constant)
| UnaryOp (op : unaryop) (operand : expr)
| BinOp (left : expr) (op : operator) (right : expr)
| Call (func : expr) (args : list expr) (keywords : list (option str * expr))
| Name (id : str)
| Tuple (elts : list expr)
| List (elts : list expr)
| Attribute (value : expr) (attr : str)
| Subscript (value : expr) (slice : expr)
| Starred (value : expr)
| Other (kind : other_expr).
#[local] Set Elimination Schemes.

(** Node classes, as [isinstance] sees them. *)
Inductive class : Type :=
| cExpression | cBinOp | cUnaryOp | cNum | cConstant
| cAdd | cSub | cMult | cDiv | cFloorDiv | cMod | cPow | cUSub | cUAdd
| cLoad | cCall | cName | cTuple | cList | cMatMult
| cAttribute | cSubscript | cStarred
| cOther (kind : other_expr).

Definition other_expr_eqb (a b : other_expr) : bool :=
  match a, b with
  | BoolOp, BoolOp | NamedExpr, NamedExpr | Lambda, Lambda | IfExp, IfExp
  | Dict, Dict | Set_, Set_ | ListComp, ListComp | SetComp, SetComp
  | DictComp, DictComp | GeneratorExp, GeneratorExp | Await, Await
  | Yield, Yield | YieldFrom, YieldFrom | Compare, Compare
  | FormattedValue, FormattedValue | JoinedStr, JoinedStr
  | Slice, Slice => true
  | _, _ => false
  end.

Definition class_eqb (a b : class) : bool :=
  match a, b with
  | cExpression, cExpression | cBinOp, cBinOp | cUnaryOp, cUnaryOp
  | cNum, cNum | cConstant, cConstant | cAdd, cAdd | cSub, cSub
  | cMult, cMult | cDiv, cDiv | cFloorDiv, cFloorDiv | cMod, cMod
  | cPow, cPow | cUSub, cUSub | cUAdd, cUAdd | cLoad, cLoad
  | cCall, cCall | cName, cName | cTuple, cTuple | cList, cList
  | cMatMult, cMatMult | cAttribute, cAttribute
  | cSubscript, cSubscript | cStarred, cStarred => true
  | cOther j, cOther k => other_expr_eqb j k
  | _, _ => false
  end.

Definition class_of (node : expr) : class :=
  match node with
  | Constant _ => cConstant
  | UnaryOp _ _ => cUnaryOp
  | BinOp _ _ _ => cBinOp
  | Call _ _ _ => cCall
  | Name _ => cName
  | Tuple _ => cTuple
  | List _ => cList
  | Attribute _ _ => cAttribute
  | Subscript _ _ => cSubscript
  | Starred _ => cStarred
  | Other k => cOther k
  end.

(** [isinstance(node, c)].  The deprecated class [ast.Num] has no
    instances of its own: its instance check accepts the [Constant] nodes
    that carry an [int] (not a [bool]), a [float] or a [complex]. *)
Definition isinstance1 (node : expr) (c : class) : bool :=
  class_eqb (class_of node) c
  || match c, node with
     | cNum, Constant (CInt _ | CFloat _ | CComplex _) => true
     | _, _ => false
     end.

(** [isinstance(node, (c1, ..., cn))]. *)
Definition isinstance (node : expr) (classes : list class) : bool :=
  existsb (isinstance1 node) classes.

(** What [ast.parse(text, mode='eval')] does: return an [Expression] whose
    [body] is the tree, raise [SyntaxError], or raise something else. *)
Inductive parsed : Type :=
| Parsed (body : expr)
| RaisedSyntaxError
| Raised (e : exn).

Definition parser := str -> parsed.

End Ast.

(* ================================================================== *)
(** * The evaluator: [class SafeEvaluator] *)
(* ================================================================== *)

Module SafeEvaluator.
Import Py Ast.

(** [self.allowed_nodes] (lines 31-52). *)
Definition allowed_nodes : list class :=
  [ cExpression; cBinOp; cUnaryOp; cNum; cConstant;
    cAdd; cSub; cMult; cDiv; cFloorDiv; cMod; cPow; cUSub; cUAdd;
    cLoad; cCall; cName; cTuple; cList; cMatMult ].

(** [self.allowed_names] (lines 53-66): one table for constants and
    functions. *)
Definition allowed_names : list (str * value) :=
  [ ("pi" : str, VFloat math_pi);
    ("e" : str, VFloat math_e);
    ("sqrt" : str, VBuiltin Bsqrt);
    ("sin" : str, VBuiltin Bsin);
    ("cos" : str, VBuiltin Bcos);
    ("tan" : str, VBuiltin Btan);
    ("log" : str, VBuiltin Blog);
    ("log10" : str, VBuiltin Blog10);
    ("abs" : str, VBuiltin Babs);
    ("round" : str, VBuiltin Bround) ].

(** [d[k]] / [k in d] on a dict literal. *)
Fixpoint lookup (k : str) (d : list (str * value)) : option value :=
  match d with
  | [] => None
  | (k', v) :: d' => if str_eqb k k' then Some v else lookup k d'
  end.

(** The glyphs of lines 71-73 and their replacements. *)
Definition multiplication_sign : codepoint := 215%N.  (* U+00D7 *)
Definition division_sign : codepoint := 247%N.        (* U+00F7 *)
Definition minus_sign : codepoint := 8722%N.          (* U+2212 *)
Definition asterisk : codepoint := 42%N.
Definition solidus : codepoint := 47%N.
Definition hyphen_minus : codepoint := 45%N.

(** Lines 70-74. *)
Definition sanitize (expression : str) : str :=
  replace minus_sign hyphen_minus
    (replace division_sign solidus
       (replace multiplication_sign asterisk expression)).

(** The literal [1e6] of line 118. *)
Definition float_1e6 : float := float_of_Z 1000000.

Section Eval.
Variable L : Libm.

(** [_eval] (lines 81-135).  [depth] bounds the nesting of the calls of
    [_eval]: a call that finds it at zero raises [RecursionError], and
    every recursive call of the source is one call deeper.  The
    interpreter's recursion limit counts more than these calls: the
    frames in use when [evaluate] is called, the instance checks of lines
    82 and 90 and, up to CPython 3.11, the list comprehension of line
    126.  So the nesting an interpreter allows is smaller than its limit
    and depends on its version and on the shape of the tree; [depth]
    stands for that nesting, every level being charged alike.

    The branch of line 90, [isinstance(node, ast.Num)], is not listed: an
    instance of [ast.Num] is a [Constant], for which line 85 has already
    returned or raised.  ([left_] and [right_] are the source's [left] and
    [right].) *)
Fixpoint _eval (depth : nat) (node : expr) {struct depth} : result value :=
  match depth with
  | O => Err RecursionError
  | S depth =>
      if negb (isinstance node allowed_nodes)
      then Err (ValueError "Disallowed expression")
      else
        match node with
        | Constant value =>
            match value with
            | CInt z => Ok (VInt z)
            | CBool b => Ok (VBool b)
            | CFloat f => Ok (VFloat f)
            | _ => Err (ValueError "Invalid constant")
            end
        | UnaryOp op operand =>
            operand <- _eval depth operand ;;
            match op with
            | UAdd => pos operand
            | USub => neg operand
            | _ => Err (ValueError "Unsupported unary operator")
            end
        | BinOp left_ op right_ =>
            left_ <- _eval depth left_ ;;
            right_ <- _eval depth right_ ;;
            match op with
            | Add => add L left_ right_
            | Sub => sub L left_ right_
            | Mult => mul L left_ right_
            | Div => truediv L left_ right_
            | FloorDiv => floordiv L left_ right_
            | Mod => mod_ L left_ right_
            | Pow =>
                al <- abs L left_ ;;
                big <- gt al (VFloat float_1e6) ;;
                if big then Err (ValueError "Exponent too large")
                else
                  ar <- abs L right_ ;;
                  big <- gt ar (VInt 10) ;;
                  if big then Err (ValueError "Exponent too large")
                  else pow L left_ right_
            | _ => Err (ValueError "Unsupported operator")
            end
        | Call func args keywords =>
            match func with
            | Name id =>
                match lookup id allowed_names with
                | Some func =>
                    args <- mapM (_eval depth) args ;;
                    call L func args
                | None => Err (ValueError "Function not allowed")
                end
            | _ => Err (ValueError "Function not allowed")
            end
        | Name id =>
            match lookup id allowed_names with
            | Some v => Ok v
            | None => Err (ValueError "Unknown identifier")
            end
        | _ => Err (ValueError "Invalid expression")
        end
  end.

(** [evaluate] (lines 68-79). *)
Definition evaluate (parse : parser) (depth : nat) (expression : str)
  : result value :=
  let sanitized := sanitize expression in
  match parse sanitized with
  | Parsed body => _eval depth body
  | RaisedSyntaxError => Err (ValueError "Invalid expression")
  | Raised e => Err e
  end.

End Eval.

End SafeEvaluator.

(* ================================================================== *)
(** * A reference parser for the arithmetic fragment *)
(* ================================================================== *)

(** [RefParser.parse] reads the part of Python's expression grammar that
    calculator input is written in: decimal integer and float literals,
    [True], [False], [None], names, quoted strings without escapes, the
    unary operators [+ - ~], the binary operators [+ - * / // % ** @],
    parentheses, tuples and lists, calls with positional, starred and
    keyword arguments, attribute access and subscripts, with blanks
    between the tokens but not in front of the first, and brackets nested
    at most 200 deep.  On that fragment it builds the tree
    [ast.parse(text, mode='eval').body] builds.

    It is not [ast.parse] beyond the fragment: what it cannot read it
    reports as a syntax error, also where Python reads it (digits grouped
    by underscores, literals in another base, comparisons, conditional
    expressions, line breaks, comments), and it reads every depth of
    nested operators, where [ast.parse] itself ends in [RecursionError]
    or [MemoryError] from some thousand levels on.  The general
    statements of this development hold for every parser; only the
    examples go through this one. *)

Module RefParser.
Import Py Ast.

Inductive punct : Type :=
| PPlus | PMinus | PStar | PSlash | PDSlash | PPercent | PDStar | PAt
| PTilde | PLPar | PRPar | PLSqb | PRSqb | PComma | PDot | PEq.

Inductive token : Type :=
| TConst (c : constant)
| TName (s : str)
| TString (s : str)
| TP (p : punct).

Definition punct_eqb (a b : punct) : bool :=
  match a, b with
  | PPlus, PPlus | PMinus, PMinus | PStar, PStar | PSlash, PSlash
  | PDSlash, PDSlash | PPercent, PPercent | PDStar, PDStar | PAt, PAt
  | PTilde, PTilde | PLPar, PLPar | PRPar, PRPar | PLSqb, PLSqb
  | PRSqb, PRSqb | PComma, PComma | PDot, PDot | PEq, PEq => true
  | _, _ => false
  end.

(** *** Characters *)

Definition is_digit (c : codepoint) : bool := ((48 <=? c) && (c <=? 57))%N.
Definition is_alpha (c : codepoint) : bool :=
  (((65 <=? c) && (c <=? 90)) || ((97 <=? c) && (c <=? 122)) || (c =? 95))%N.
Definition is_alnum (c : codepoint) : bool := is_alpha c || is_digit c.
Definition is_space (c : codepoint) : bool := ((c =? 32) || (c =? 9))%N.

Fixpoint span (p : codepoint -> bool) (s : str) : str * str :=
  match s with
  | c :: s' =>
      if p c then let '(a, b) := span p s' in (c :: a, b) else ([], s)
  | [] => ([], [])
  end.

Definition digits_to_Z (ds : str) : Z :=
  fold_left (fun acc d => acc * 10 + (Z.of_N d - 48)) ds 0.

(** *** Numbers *)

(** The float nearest to [m * 10^k], for [m >= 0]. *)
Definition decimal_to_float (m k : Z) : float :=
  if m =? 0 then fzero
  else if 0 <=? k then float_of_Z (m * 10 ^ k)
  else fdiv (S754_finite false (Z.to_pos m) 0)
            (S754_finite false (Z.to_pos (10 ^ (- k))) 0).

Definition starts_with (p : codepoint -> bool) (s : str) : bool :=
  match s with
  | c :: _ => p c
  | [] => false
  end.

(** An optional exponent part [e[+-]digits]. *)
Definition lex_exponent (s : str) : option (Z * str) :=
  match s with
  | c :: r =>
      if ((c =? 101) || (c =? 69))%N then
        let '(neg, r1) :=
          match r with
          | d :: r' =>
              if (d =? 45)%N then (true, r')
              else if (d =? 43)%N then (false, r')
              else (false, r)
          | [] => (false, r)
          end in
        let '(ds, r2) := span is_digit r1 in
        match ds with
        | [] => None
        | _ => Some (if neg then - digits_to_Z ds else digits_to_Z ds, r2)
        end
      else Some (0, s)
  | [] => Some (0, s)
  end.

Definition has_exponent (s : str) : bool :=
  starts_with (fun c => ((c =? 101) || (c =? 69))%N) s.

Definition lex_number (s : str) : option (constant * str) :=
  let '(ip, r1) := span is_digit s in
  let '(is_float, fp, r2) :=
    match r1 with
    | c :: r =>
        if (c =? 46)%N then let '(fp, r') := span is_digit r in (true, fp, r')
        else (false, [], r1)
    | [] => (false, [], r1)
    end in
  match lex_exponent r2 with
  | None => None
  | Some (ex, r3) =>
      if starts_with is_alnum r3 then None
      else if is_float || has_exponent r2 then
        Some (CFloat (decimal_to_float (digits_to_Z (ip ++ fp))
                                       (ex - Z.of_nat (List.length fp))), r3)
      else
        (* no leading zeros on a non-zero integer *)
        if starts_with (N.eqb 48) ip && negb (digits_to_Z ip =? 0) then None
        else Some (CInt (digits_to_Z ip), r3)
  end.

(** *** Names and keywords *)

Definition reserved : list str :=
  map str_of_string
    [ "and"; "or"; "not"; "if"; "else"; "lambda"; "in"; "is"; "for";
      "await"; "yield"; "async"; "from"; "import"; "def"; "class";
      "return"; "while"; "with"; "as"; "del"; "pass"; "break"; "continue";
      "try"; "except"; "finally"; "raise"; "global"; "nonlocal"; "assert";
      "elif" ].

Definition word_token (w : str) : option token :=
  if str_eqb w "True" then Some (TConst (CBool true))
  else if str_eqb w "False" then Some (TConst (CBool false))
  else if str_eqb w "None" then Some (TConst CNone)
  else if existsb (str_eqb w) reserved then None
  else Some (TName w).

(** *** The lexer *)

Definition lex_punct (c : codepoint) (s' : str) : option (punct * str) :=
  match c, s' with
  | 42%N, 42%N :: r => Some (PDStar, r)
  | 47%N, 47%N :: r => Some (PDSlash, r)
  | 43%N, _ => Some (PPlus, s')
  | 45%N, _ => Some (PMinus, s')
  | 42%N, _ => Some (PStar, s')
  | 47%N, _ => Some (PSlash, s')
  | 37%N, _ => Some (PPercent, s')
  | 64%N, _ => Some (PAt, s')
  | 126%N, _ => Some (PTilde, s')
  | 40%N, _ => Some (PLPar, s')
  | 41%N, _ => Some (PRPar, s')
  | 91%N, _ => Some (PLSqb, s')
  | 93%N, _ => Some (PRSqb, s')
  | 44%N, _ => Some (PComma, s')
  | 46%N, _ => Some (PDot, s')
  | 61%N, _ => Some (PEq, s')
  | _, _ => None
  end.

Fixpoint lex (fuel : nat) (s : str) : option (list token) :=
  match fuel with
  | O => None
  | S fuel =>
      match s with
      | [] => Some []
      | c :: s' =>
          if is_space c then lex fuel s'
          else if is_digit c || ((c =? 46)%N && starts_with is_digit s') then
            match lex_number s with
            | Some (k, rest) => option_map (cons (TConst k)) (lex fuel rest)
            | None => None
            end
          else if is_alpha c then
            let '(w, rest) := span is_alnum s in
            match word_token w with
            | Some t => option_map (cons t) (lex fuel rest)
            | None => None
            end
          else if ((c =? 39) || (c =? 34))%N then
            let '(body, rest) :=
              span (fun d => negb ((d =? c) || (d =? 92) || (d =? 10))%N) s' in
            match rest with
            | q :: rest' =>
                if (q =? c)%N
                then option_map (cons (TString body)) (lex fuel rest')
                else None
            | [] => None
            end
          else
            match lex_punct c s' with
            | Some (p, rest) => option_map (cons (TP p)) (lex fuel rest)
            | None => None
            end
      end
  end.

(** *** The grammar *)

Definition parse_result (A : Type) := option (A * list token).

Fixpoint p_expr (fuel : nat) (ts : list token) {struct fuel}
  : parse_result expr :=
  match fuel with
  | O => None
  | S f =>
      match p_term f ts with
      | Some (l, rest) => p_sum_rest f l rest
      | None => None
      end
  end

with p_sum_rest (fuel : nat) (l : expr) (ts : list token) {struct fuel}
  : parse_result expr :=
  match fuel with
  | O => None
  | S f =>
      match ts with
      | TP PPlus :: ts' =>
          match p_term f ts' with
          | Some (r, rest) => p_sum_rest f (BinOp l Add r) rest
          | None => None
          end
      | TP PMinus :: ts' =>
          match p_term f ts' with
          | Some (r, rest) => p_sum_rest f (BinOp l Sub r) rest
          | None => None
          end
      | _ => Some (l, ts)
      end
  end

with p_term (fuel : nat) (ts : list token) {struct fuel}
  : parse_result expr :=
  match fuel with
  | O => None
  | S f =>
      match p_factor f ts with
      | Some (l, rest) => p_term_rest f l rest
      | None => None
      end
  end

with p_term_rest (fuel : nat) (l : expr) (ts : list token) {struct fuel}
  : parse_result expr :=
  match fuel with
  | O => None
  | S f =>
      let continue op ts' :=
        match p_factor f ts' with
        | Some (r, rest) => p_term_rest f (BinOp l op r) rest
        | None => None
        end in
      match ts with
      | TP PStar :: ts' => continue Mult ts'
      | TP PSlash :: ts' => continue Div ts'
      | TP PDSlash :: ts' => continue FloorDiv ts'
      | TP PPercent :: ts' => continue Mod ts'
      | TP PAt :: ts' => continue MatMult ts'
      | _ => Some (l, ts)
      end
  end

with p_factor (fuel : nat) (ts : list token) {struct fuel}
  : parse_result expr :=
  match fuel with
  | O => None
  | S f =>
      let unary op ts' :=
        match p_factor f ts' with
        | Some (e, rest) => Some (UnaryOp op e, rest)
        | None => None
        end in
      match ts with
      | TP PPlus :: ts' => unary UAdd ts'
      | TP PMinus :: ts' => unary USub ts'
      | TP PTilde :: ts' => unary Invert ts'
      | _ => p_power f ts
      end
  end

with p_power (fuel : nat) (ts : list token) {struct fuel}
  : parse_result expr :=
  match fuel with
  | O => None
  | S f =>
      match p_primary f ts with
      | Some (b, TP PDStar :: ts') =>
          match p_factor f ts' with
          | Some (e, rest) => Some (BinOp b Pow e, rest)
          | None => None
          end
      | r => r
      end
  end

with p_primary (fuel : nat) (ts : list token) {struct fuel}
  : parse_result expr :=
  match fuel with
  | O => None
  | S f =>
      match p_atom f ts with
      | Some (a, rest) => p_trailers f a rest
      | None => None
      end
  end

with p_trailers (fuel : nat) (a : expr) (ts : list token) {struct fuel}
  : parse_result expr :=
  match fuel with
  | O => None
  | S f =>
      match ts with
      | TP PLPar :: ts' =>
          match p_args f ts' with
          | Some ((args, keywords), rest) =>
              p_trailers f (Call a args keywords) rest
          | None => None
          end
      | TP PLSqb :: ts' =>
          match p_expr f ts' with
          | Some (i, TP PRSqb :: rest) => p_trailers f (Subscript a i) rest
          | _ => None
          end
      | TP PDot :: TName n :: rest => p_trailers f (Attribute a n) rest
      | TP PDot :: _ => None
      | _ => Some (a, ts)
      end
  end

with p_atom (fuel : nat) (ts : list token) {struct fuel}
  : parse_result expr :=
  match fuel with
  | O => None
  | S f =>
      match ts with
      | TConst c :: rest => Some (Constant c, rest)
      | TString s :: rest => Some (Constant (CStr s), rest)
      | TName n :: rest => Some (Name n, rest)
      | TP PLPar :: TP PRPar :: rest => Some (Tuple [], rest)
      | TP PLPar :: ts' =>
          match p_expr f ts' with
          | Some (e, TP PRPar :: rest) => Some (e, rest)
          | Some (e, TP PComma :: rest) =>
              match p_elts f PRPar rest with
              | Some (es, rest') => Some (Tuple (e :: es), rest')
              | None => None
              end
          | _ => None
          end
      | TP PLSqb :: ts' =>
          match p_elts f PRSqb ts' with
          | Some (es, rest) => Some (List es, rest)
          | None => None
          end
      | _ => None
      end
  end

(** Comma-separated expressions up to the closing bracket. *)
with p_elts (fuel : nat) (close : punct) (ts : list token) {struct fuel}
  : parse_result (list expr) :=
  match fuel with
  | O => None
  | S f =>
      match ts with
      | TP p :: rest =>
          if punct_eqb p close then Some ([], rest)
          else
            match p_expr f ts with
            | Some (e, TP PComma :: r) =>
                match p_elts f close r with
                | Some (es, r') => Some (e :: es, r')
                | None => None
                end
            | Some (e, TP q :: r) =>
                if punct_eqb q close then Some ([e], r) else None
            | _ => None
            end
      | _ =>
          match p_expr f ts with
          | Some (e, TP PComma :: r) =>
              match p_elts f close r with
              | Some (es, r') => Some (e :: es, r')
              | None => None
              end
          | Some (e, TP q :: r) =>
              if punct_eqb q close then Some ([e], r) else None
          | _ => None
          end
      end
  end

(** The arguments of a call, after the opening parenthesis: positional
    and starred arguments, then keyword arguments. *)
with p_args (fuel : nat) (ts : list token) {struct fuel}
  : parse_result (list expr * list (option str * expr)) :=
  match fuel with
  | O => None
  | S f =>
      let more (positional : option expr) (kw : option (option str * expr))
               (rest : list token) :=
        let add '(args, keywords, r) :=
          match positional, kw with
          | Some e, _ => Some ((e :: args, keywords), r)
          | None, Some k =>
              match args with
              | [] => Some ((args, k :: keywords), r)
              | _ :: _ => None
              end
          | None, None => None
          end in
        match rest with
        | TP PRPar :: r => add ([], [], r)
        | TP PComma :: r =>
            match p_args f r with
            | Some x => add x
            | None => None
            end
        | _ => None
        end in
      match ts with
      | TP PRPar :: rest => Some (([], []), rest)
      | TName k :: TP PEq :: ts' =>
          match p_expr f ts' with
          | Some (v, rest) => more None (Some (Some k, v)) rest
          | None => None
          end
      | TP PStar :: ts' =>
          match p_expr f ts' with
          | Some (v, rest) => more (Some (Starred v)) None rest
          | None => None
          end
      | _ =>
          match p_expr f ts with
          | Some (v, rest) => more (Some v) None rest
          | None => None
          end
      end
  end.

(** The tokenizer's bound on nested brackets, [MAXLEVEL]: a bracket
    that opens at that level is 'too many nested parentheses'. *)
Definition max_level : nat := 200.

Fixpoint levels_ok (level : nat) (ts : list token) : bool :=
  match ts with
  | [] => true
  | TP (PLPar | PLSqb) :: ts' =>
      Nat.ltb level max_level && levels_ok (S level) ts'
  | TP (PRPar | PRSqb) :: ts' => levels_ok (Nat.pred level) ts'
  | _ :: ts' => levels_ok level ts'
  end.

(** A blank in front of the first token is an 'unexpected indent', an
    [IndentationError], which is a [SyntaxError]. *)
Definition parse : parser :=
  fun text =>
    if starts_with is_space text then RaisedSyntaxError
    else
      match lex (S (List.length text)) text with
      | None => RaisedSyntaxError
      | Some ts =>
          if negb (levels_ok 0 ts) then RaisedSyntaxError
          else
            match p_expr (10 * List.length ts + 10) ts with
            | Some (body, []) => Parsed body
            | _ => RaisedSyntaxError
            end
      end.

End RefParser.

(* ================================================================== *)
(** * The vocabulary of the specification *)
(* ================================================================== *)

Module Spec.
Import Py Ast SafeEvaluator.

(** The five error kinds of the specification's taxonomy. *)
Inductive error_kind : Type :=
| SyntaxError
| DisallowedNodeError
| UnknownIdentifierError
| FunctionNotAllowedError
| ArithmeticError.

(** How the exceptions of the implementation realise the taxonomy.  The
    evaluator raises [ValueError] throughout and tells its failures apart
    by message: 'Invalid expression' for text the parser rejects,
    'Disallowed expression' for a node outside the allow-list (and
    'Invalid constant', 'Unsupported operator', 'Unsupported unary
    operator' for the nodes it rejects on closer inspection), 'Unknown
    identifier', 'Function not allowed', 'Exponent too large'.  Division by
    zero and overflow arrive from the host as [ZeroDivisionError] and
    [OverflowError], which Python itself places under its class
    [ArithmeticError]; a violated domain arrives as a [ValueError] of
    [math] or of [round].  [TypeError], [RecursionError] and [MemoryError]
    answer to none of the five kinds. *)
Definition kind_of (e : exn) : option error_kind :=
  match e with
  | ValueError msg =>
      if String.eqb msg "Invalid expression" then Some SyntaxError
      else if String.eqb msg "Disallowed expression"
      then Some DisallowedNodeError
      else if String.eqb msg "Invalid constant"
      then Some DisallowedNodeError
      else if String.eqb msg "Unsupported unary operator"
      then Some DisallowedNodeError
      else if String.eqb msg "Unsupported operator"
      then Some DisallowedNodeError
      else if String.eqb msg "Unknown identifier"
      then Some UnknownIdentifierError
      else if String.eqb msg "Function not allowed"
      then Some FunctionNotAllowedError
      else if String.eqb msg "Exponent too large" then Some ArithmeticError
      else if String.eqb msg "math domain error" then Some ArithmeticError
      else if String.eqb msg "cannot convert float NaN to integer"
      then Some ArithmeticError
      else None
  | ZeroDivisionError | OverflowError => Some ArithmeticError
  | TypeError | RecursionError | MemoryError => None
  end.

(** "Either a numeric value or one of the typed error kinds". *)
Definition typed_result (r : result value) : Prop :=
  (exists v, r = Ok v /\ is_number v = true)
  \/ (exists e k, r = Err e /\ kind_of e = Some k).

(** The registry as the specification describes it: named constants and
    named functions. *)
Definition constants : list (str * float) :=
  [ ("pi" : str, math_pi); ("e" : str, math_e) ].

Definition functions : list (str * builtin) :=
  [ ("sqrt" : str, Bsqrt); ("sin" : str, Bsin); ("cos" : str, Bcos);
    ("tan" : str, Btan); ("log" : str, Blog); ("log10" : str, Blog10);
    ("abs" : str, Babs); ("round" : str, Bround) ].

(** The numbers of arguments a registry function accepts. *)
Definition accepts (b : builtin) (n : nat) : bool :=
  match b with
  | Blog | Bround => Nat.eqb n 1 || Nat.eqb n 2
  | _ => Nat.eqb n 1
  end.

(** [|v| > bound], exactly, for a real operand and an integer bound. *)
Definition exceeds (v : value) (bound : Z) : bool :=
  match v with
  | VInt z => bound <? Z.abs z
  | VBool b => bound <? Z.b2z b
  | VFloat f =>
      match float_compare_Z (fabs f) bound with
      | Some Gt => true
      | _ => false
      end
  | _ => false
  end.

(** A right operand that is "exactly zero". *)
Definition zero_value (v : value) : bool :=
  match v with
  | VInt z => z =? 0
  | VBool b => negb b
  | VFloat f => is_zero f
  | VComplex re im => is_zero re && is_zero im
  | VBuiltin _ => false
  end.

(** Floats in canonical binary64 form. *)
Definition canonical (v : value) : bool :=
  match v with
  | VFloat f => valid_binary prec emax f
  | _ => true
  end.

(** A float below zero, and a real value at or below zero. *)
Definition negative (x : float) : bool :=
  match x with
  | S754_finite true _ _ | S754_infinity true => true
  | _ => false
  end.

Definition nonpositive (v : value) : bool :=
  match v with
  | VInt z => z <=? 0
  | VBool b => negb b
  | VFloat f => is_zero f || negative f
  | _ => false
  end.

(** The integer a finite float stands for on an exponent [e] that is
    not above its own: the float is [on_exponent e x * 2^e]. *)
Definition exponent (x : float) : Z :=
  match x with
  | S754_finite _ _ e => e
  | _ => 0
  end.

Definition on_exponent (e : Z) (x : float) : Z :=
  match x with
  | S754_finite s m ex => cond_Zopp s (Zpos m * 2 ^ (ex - e))
  | _ => 0
  end.

(** A finite binary64 counted in units of [2^-1074], the smallest
    exponent of the format. *)
Definition units (x : float) : Z := on_exponent (-1074) x.

(** [q] is the floor of the exact quotient [x / w], and [m] the
    remainder that goes with [q]: [x = q * w + m]. *)
Definition is_floor_of_quotient (q x w : float) : bool :=
  units q =? (units x / units w) * 2 ^ 1074.

Definition is_remainder_of (m q x w : float) : bool :=
  units x * 2 ^ 1074 =? units q * units w + units m * 2 ^ 1074.

(** The exceptions of a failed evaluation that lie outside the
    taxonomy. *)
Definition untyped_failure (e : exn) : Prop :=
  e = TypeError \/ e = RecursionError \/ e = MemoryError.

(** The ASCII form of a text: each of the three glyphs replaced by its
    operator, every other code point kept. *)
Definition ascii_of_glyph (c : codepoint) : codepoint :=
  if N.eqb c 215 then 42%N          (* multiplication sign, asterisk *)
  else if N.eqb c 247 then 47%N     (* division sign, solidus *)
  else if N.eqb c 8722 then 45%N    (* minus sign, hyphen-minus *)
  else c.

Definition ascii_form (text : str) : str := map ascii_of_glyph text.

(** The classes outside the evaluator's allow-list. *)
Definition outside_allow_list (node : expr) : Prop :=
  match node with
  | Attribute _ _ | Subscript _ _ | Starred _ | Other _ => True
  | _ => False
  end.

(** [visits root node]: the walk of [root] comes to [node], unless it
    has failed before: operands of unary and binary operators and
    positional arguments of calls to registered names are visited;
    keyword arguments and the elements of tuples and lists are not. *)
Inductive visits : expr -> expr -> Prop :=
| visits_root (e : expr) : visits e e
| visits_operand (op : unaryop) (e n : expr) :
    visits e n -> visits (UnaryOp op e) n
| visits_left (l r : expr) (op : operator) (n : expr) :
    visits l n -> visits (BinOp l op r) n
| visits_right (l r : expr) (op : operator) (n : expr) :
    visits r n -> visits (BinOp l op r) n
| visits_arg (id : str) (args : list expr)
             (keywords : list (option str * expr)) (a n : expr) :
    In id (map fst allowed_names) -> In a args -> visits a n ->
    visits (Call (Name id) args keywords) n.

(** The constructs outside the arithmetic grammar: attribute access,
    subscripts and the other classes outside the allow-list, tuple and
    list literals, constants that are not numbers (strings among them),
    identifiers that are not in the registry, and calls whose target is
    not a name of the registry. *)
Definition outside_grammar (node : expr) : Prop :=
  match node with
  | Attribute _ _ | Subscript _ _ | Starred _ | Other _ => True
  | Tuple _ | List _ => True
  | Constant (CStr _ | CBytes _ | CNone | CEllipsis | CComplex _) => True
  | Name id => ~ In id (map fst allowed_names)
  | Call func _ _ =>
      forall id, func = Name id -> ~ In id (map fst allowed_names)
  | _ => False
  end.

(** What the host's operators and the registry's functions raise. *)
Definition host_failure (e : exn) : Prop :=
  e = ZeroDivisionError
  \/ e = OverflowError
  \/ e = TypeError
  \/ e = ValueError "math domain error"
  \/ e = ValueError "cannot convert float NaN to integer"
  \/ e = MemoryError.

(** A failed evaluation raises an exception of the taxonomy or one of the
    untyped ones. *)
Definition known_failure (e : exn) : Prop :=
  (exists k, kind_of e = Some k) \/ untyped_failure e.

(** A computation whose exceptions satisfy [P] and whose values satisfy
    [Q]. *)
Definition yields {A : Type} (P : exn -> Prop) (Q : A -> Prop)
           (r : result A) : Prop :=
  match r with
  | Ok a => Q a
  | Err e => P e
  end.

Definition any {A : Type} (a : A) : Prop := True.
Definition number (v : value) : Prop := is_number v = true.

End Spec.

(** ** Running the evaluator on text *)

(** The budget the examples are run with: the interpreter's default
    recursion limit, [sys.getrecursionlimit()].  It is more than the
    nesting a default interpreter allows to [_eval]; the examples that
    return need a handful of calls, and the one that fails by its depth
    fails under every smaller budget too. *)
Definition recursion_limit : nat := 1000.

(** A degenerate platform, every libm result being NaN, with memory for
    an [int] of up to [2^40] bits; it instantiates statements that hold
    on every platform. *)
Definition libm_nan : Py.Libm :=
  {| Py.libm_sin := fun _ => S754_nan;
     Py.libm_cos := fun _ => S754_nan;
     Py.libm_tan := fun _ => S754_nan;
     Py.libm_log := fun _ => S754_nan;
     Py.libm_log10 := fun _ => S754_nan;
     Py.float_pow := fun _ _ => Py.HFloat S754_nan;
     Py.complex_op := fun _ _ _ => Py.HComplex S754_nan S754_nan;
     Py.complex_abs := fun _ => Py.HFloat S754_nan;
     Py.float_round := fun _ _ => Py.HFloat S754_nan;
     Py.int_max_bits := 2 ^ 40 |}.

(** [n] minus signs in front of the digit 1. *)
Definition nested_negation (n : nat) : Py.str :=
  (repeat 45%N n ++ Py.str_of_string "1")%list.

(** The tree of such a text: [n] negations of an operand. *)
Fixpoint negations (n : nat) (operand : Ast.expr) : Ast.expr :=
  match n with
  | O => operand
  | S n => Ast.UnaryOp Ast.USub (negations n operand)
  end.

(** Text with one glyph between two ASCII fragments. *)
Definition glyph_text (a : string) (g : Py.codepoint) (b : string) : Py.str :=
  (Py.str_of_string a ++ g :: Py.str_of_string b)%list.

(* ================================================================== *)
(** * More of the host: text *)
(* ================================================================== *)

Module PyText.
Import Py.

(** [s.endswith(suffix)] and [s.startswith(prefix)]. *)
Fixpoint startswith (s prefix : str) : bool :=
  match prefix, s with
  | [], _ => true
  | p :: prefix', c :: s' => N.eqb c p && startswith s' prefix'
  | _ :: _, [] => false
  end.

Definition endswith (s suffix : str) : bool :=
  startswith (rev s) (rev suffix).

(** [s.endswith((a, b, ...))]. *)
Definition endswith_any (s : str) (suffixes : list str) : bool :=
  existsb (endswith s) suffixes.

(** [t in (a, b, ...)] for strings. *)
Definition str_in (t : str) (l : list str) : bool := existsb (str_eqb t) l.

(** [s[:-1]] and [s[1:]]. *)
Definition drop_last (s : str) : str := removelast s.
Definition drop_first (s : str) : str := tl s.

(** [s.replace(c, '')] for a one-code-point [c]. *)
Definition remove (c : codepoint) (s : str) : str :=
  filter (fun d => negb (N.eqb d c)) s.

(** [s.rstrip(c)] for a one-code-point [c]. *)
Fixpoint rstrip (c : codepoint) (s : str) : str :=
  match s with
  | [] => []
  | d :: s' =>
      match rstrip c s' with
      | [] => if N.eqb d c then [] else [d]
      | r => d :: r
      end
  end.

(** Decimal digits of a natural number, [str(n)]. *)
Fixpoint uint_digits (d : Decimal.uint) : str :=
  match d with
  | Decimal.Nil => []
  | Decimal.D0 d => 48%N :: uint_digits d
  | Decimal.D1 d => 49%N :: uint_digits d
  | Decimal.D2 d => 50%N :: uint_digits d
  | Decimal.D3 d => 51%N :: uint_digits d
  | Decimal.D4 d => 52%N :: uint_digits d
  | Decimal.D5 d => 53%N :: uint_digits d
  | Decimal.D6 d => 54%N :: uint_digits d
  | Decimal.D7 d => 55%N :: uint_digits d
  | Decimal.D8 d => 56%N :: uint_digits d
  | Decimal.D9 d => 57%N :: uint_digits d
  end.

Definition str_of_N (n : N) : str := uint_digits (N.to_uint n).

Definition sign_text (negative : bool) : str :=
  if negative then [45%N] else [].

(** The decimal text of an integer, without regard to the conversion
    limit. *)
Definition str_of_Z (z : Z) : str :=
  (sign_text (z <? 0) ++ str_of_N (Z.to_N (Z.abs z)))%list.

(** The message of that conversion's failure, for a limit of [limit]
    digits. *)
Definition int_str_message (limit : nat) : string :=
  "Exceeds the limit ("
  ++ DecimalString.NilEmpty.string_of_uint (Nat.to_uint limit)
  ++ " digits) for integer string conversion; "
  ++ "use sys.set_int_max_str_digits() to increase the limit".

(** [str(z)] for an [int].  From CPython 3.11 on, the conversion raises
    [ValueError] when the number has more digits than
    [sys.get_int_max_str_digits()]; [limit] is that number, 0 where
    there is no limit (the interpreter accepts no other value below
    640). *)
Definition int_str (limit : nat) (z : Z) : result str :=
  let digits := str_of_N (Z.to_N (Z.abs z)) in
  if negb (Nat.eqb limit 0) && Nat.ltb limit (List.length digits)
  then Err (ValueError (int_str_message limit))
  else Ok (str_of_Z z).

(** [x.is_integer()] and [int(x)] for a float that is an integer. *)
Definition is_integer (x : float) : bool :=
  match x with
  | S754_zero _ => true
  | S754_finite _ m e => (0 <=? e) || (Zpos m mod 2 ^ (- e) =? 0)
  | _ => false
  end.

Definition int_of_float (x : float) : Z :=
  match x with
  | S754_finite s m e =>
      cond_Zopp s (if 0 <=? e then Zpos m * 2 ^ e else Zpos m / 2 ^ (- e))
  | _ => 0
  end.

(** [n] written on exactly [width] digits, zeros in front. *)
Definition zero_padded (width : nat) (n : N) : str :=
  let d := str_of_N n in
  (repeat 48%N (width - List.length d) ++ d)%list.

(** ['{0:.10f}'.format(x)]: the decimal expansion of [x] rounded to ten
    digits after the point, ties to even. *)
Definition format_10f (x : float) : str :=
  match x with
  | S754_nan => "nan"
  | S754_infinity s => (sign_text s ++ str_of_string "inf")%list
  | S754_zero s => (sign_text s ++ str_of_string "0.0000000000")%list
  | S754_finite s m e =>
      let n :=
        if 0 <=? e then Zpos m * 2 ^ e * 10 ^ 10
        else div_near (Zpos m * 10 ^ 10) (2 ^ (- e)) in
      (sign_text s ++ str_of_N (Z.to_N (n / 10 ^ 10))
         ++ 46%N :: zero_padded 10 (Z.to_N (n mod 10 ^ 10)))%list
  end.

(** The name under which a builtin function prints. *)
Definition builtin_name (b : builtin) : string :=
  match b with
  | Bsqrt => "sqrt" | Bsin => "sin" | Bcos => "cos" | Btan => "tan"
  | Blog => "log" | Blog10 => "log10" | Babs => "abs" | Bround => "round"
  end.

End PyText.

(* ================================================================== *)
(** * The window: [class CalculatorWindow] *)
(* ================================================================== *)

(** Of the window, the texts of its two widgets are modelled: [display],
    a [QLineEdit], and [preview], a [QLabel].  Layout, theme and shortcut
    registration are Qt calls without a result the handlers read. *)

Module CalculatorWindow.
Import Py Ast SafeEvaluator PyText.

(** [class TokenMapping] (lines 22-26). *)
Record TokenMapping : Type := {
  label : str;
  value : str;
  role : string
}.

Record window : Type := {
  display : str;
  preview : str
}.

(** [QLineEdit.maxLength], at its default: [setText] truncates there. *)
Definition maxLength : nat := Z.to_nat 32767.

Definition display_setText (t : str) (w : window) : window :=
  {| display := firstn maxLength t; preview := preview w |}.

Definition preview_setText (t : str) (w : window) : window :=
  {| display := display w; preview := t |}.

(** The state [_build_ui] leaves (lines 158 and 167). *)
Definition initial : window := {| display := "0"; preview := [] |}.

(** The button table of [_build_ui] (lines 178-203). *)
Definition plus_minus_sign : codepoint := 177%N.

Definition buttons : list TokenMapping :=
  [ {| label := "AC"; value := "AC"; role := "action" |};
    {| label := [plus_minus_sign]; value := "NEG"; role := "action" |};
    {| label := "%"; value := "%"; role := "op" |};
    {| label := [division_sign]; value := [division_sign]; role := "op" |};
    {| label := "7"; value := "7"; role := "digit" |};
    {| label := "8"; value := "8"; role := "digit" |};
    {| label := "9"; value := "9"; role := "digit" |};
    {| label := [multiplication_sign]; value := [multiplication_sign];
       role := "op" |};
    {| label := "4"; value := "4"; role := "digit" |};
    {| label := "5"; value := "5"; role := "digit" |};
    {| label := "6"; value := "6"; role := "digit" |};
    {| label := [minus_sign]; value := [minus_sign]; role := "op" |};
    {| label := "1"; value := "1"; role := "digit" |};
    {| label := "2"; value := "2"; role := "digit" |};
    {| label := "3"; value := "3"; role := "digit" |};
    {| label := "+"; value := "+"; role := "op" |};
    {| label := "("; value := "("; role := "op" |};
    {| label := "0"; value := "0"; role := "digit" |};
    {| label := ")"; value := ")"; role := "op" |};
    {| label := "="; value := "="; role := "action" |} ].

(** The placement loop of [_build_ui] (lines 205-217): the calls
    [grid.addWidget(btn, row, col)] it makes, in order. *)
Fixpoint place (row col : nat) (l : list TokenMapping)
  : list (TokenMapping * nat * nat) :=
  match l with
  | [] => []
  | mapping :: rest =>
      (mapping, row, col)
        :: (if Nat.leb 4 (col + 1) then place (row + 1) 0 rest
            else place row (col + 1) rest)
  end.

(** The operator tokens of line 374. *)
Definition operator_tokens : list str :=
  [ "+" : str; [minus_sign]; [multiplication_sign]; [division_sign];
    "**" : str ].

(** The keys of [_install_shortcuts] (line 320). *)
Definition shortcut_keys : str := "0123456789+-*/().".

(** What the user can do with the window: click one of its buttons or
    press a key. *)
Inductive event : Type :=
| Clicked (mapping : TokenMapping)
| BackspaceClicked
| DotClicked
| PowClicked
| Typed (key : codepoint)
| ReturnPressed
| EnterPressed
| BackspacePressed
| EscapePressed.

(** The events that have a slot: the buttons of the table and the keys
    of the shortcut list. *)
Definition connected (ev : event) : bool :=
  match ev with
  | Clicked mapping =>
      existsb (fun m => str_eqb (label mapping) (label m)
                        && str_eqb (value mapping) (value m)
                        && String.eqb (role mapping) (role m)) buttons
  | Typed key => existsb (N.eqb key) shortcut_keys
  | _ => true
  end.

Section Handlers.
Variable L : Libm.
Variable parse : parser.
(** The calls the interpreter still allows when a handler runs. *)
Variable depth : nat.
(** [str] of a complex number, and the integer conversion limit. *)
Variable complex_str : float * float -> str.
Variable max_str_digits : nat.

(** [_format_result] (lines 426-431). *)
Definition _format_result (v : Py.value) : result str :=
  match v with
  | VFloat x =>
      if is_integer x then int_str max_str_digits (int_of_float x)
      else Ok (rstrip 46%N (rstrip 48%N (format_10f x)))
  | VInt z => int_str max_str_digits z
  | VBool b => Ok (str_of_string (if b then "True" else "False"))
  | VComplex re im => Ok (complex_str (re, im))
  | VBuiltin b =>
      Ok (str_of_string ("<built-in function " ++ builtin_name b ++ ">"))
  end.

(** [_update_preview] (lines 418-424). *)
Definition _update_preview (w : window) : window :=
  let expr := display w in
  match (r <- evaluate L parse depth expr ;; _format_result r) with
  | Ok t => preview_setText t w
  | Err _ => preview_setText [] w
  end.

(** [_append_token] (lines 369-377). *)
Definition _append_token (token : str) (w : window) : window :=
  let w :=
    if str_eqb (display w) "0"
       && negb (str_in token [ "." : str; "(" : str; ")" : str ])
    then display_setText [] w else w in
  let current := display w in
  let current :=
    if str_in token operator_tokens && endswith_any current operator_tokens
    then drop_last current else current in
  let w := display_setText (current ++ token)%list w in
  _update_preview w.

(** [_on_backspace] (lines 379-385). *)
Definition _on_backspace (w : window) : window :=
  let text := display w in
  let w :=
    if Nat.ltb 1 (List.length text) then display_setText (drop_last text) w
    else display_setText "0" w in
  _update_preview w.

(** [_on_clear] (lines 387-389). *)
Definition _on_clear (w : window) : window :=
  preview_setText [] (display_setText "0" w).

(** [_toggle_negate] (lines 391-397). *)
Definition _toggle_negate (w : window) : window :=
  let text := display w in
  let w :=
    if startswith text [minus_sign] then display_setText (drop_first text) w
    else if negb (str_eqb text "0")
         then display_setText (minus_sign :: text) w
         else w in
  _update_preview w.

(** [_apply_percent] (lines 399-407). *)
Definition _apply_percent (w : window) : window :=
  let text := display w in
  match (r <- evaluate L parse depth
                (remove 37%N text ++ str_of_string "/100")%list ;;
         _format_result r) with
  | Ok t => preview_setText [] (display_setText t w)
  | Err _ => preview_setText "Error" w
  end.

(** [_on_equals] (lines 409-416). *)
Definition _on_equals (w : window) : window :=
  let expr := display w in
  match (r <- evaluate L parse depth expr ;; _format_result r) with
  | Ok t => preview_setText [] (display_setText t w)
  | Err _ => preview_setText "Error" w
  end.

(** [_key_input] (lines 347-352). *)
Definition key_mapping : list (codepoint * codepoint) :=
  [ (asterisk, multiplication_sign); (solidus, division_sign);
    (hyphen_minus, minus_sign) ].

Fixpoint key_lookup (key : codepoint) (d : list (codepoint * codepoint))
  : option codepoint :=
  match d with
  | [] => None
  | (k, g) :: d' => if N.eqb key k then Some g else key_lookup key d'
  end.

Definition key_token (key : codepoint) : str :=
  match key_lookup key key_mapping with
  | Some g => [g]
  | None => [key]
  end.

Definition _key_input (key : codepoint) (w : window) : window :=
  _append_token (key_token key) w.

(** [_on_button] (lines 354-367). *)
Definition _on_button (mapping : TokenMapping) (w : window) : window :=
  if str_eqb (value mapping) "AC" then _on_clear w
  else if str_eqb (value mapping) "NEG" then _toggle_negate w
  else if str_eqb (value mapping) "=" then _on_equals w
  else if str_eqb (value mapping) "%" then _apply_percent w
  else _append_token (value mapping) w.

(** The signals [_build_ui] (lines 213, 227, 232, 237) and
    [_install_shortcuts] (lines 320-345) connect, each to its slot. *)
Definition handle (ev : event) (w : window) : window :=
  match ev with
  | Clicked mapping => _on_button mapping w
  | BackspaceClicked => _on_backspace w
  | DotClicked => _append_token "." w
  | PowClicked => _append_token "**" w
  | Typed key => _key_input key w
  | ReturnPressed | EnterPressed => _on_equals w
  | BackspacePressed => _on_backspace w
  | EscapePressed => _on_clear w
  end.

(** A session: the events handled one after the other. *)
Definition session (evs : list event) (w : window) : window :=
  fold_left (fun w ev => handle ev w) evs w.

(** Keys typed one after the other. *)
Definition typed (keys : str) (w : window) : window :=
  fold_left (fun w key => _key_input key w) keys w.

End Handlers.

End CalculatorWindow.

(** ** Measures used in the properties *)

(** One of the three glyphs [evaluate] replaces. *)
Definition is_glyph (c : Py.codepoint) : bool :=
  (N.eqb c SafeEvaluator.multiplication_sign
   || N.eqb c SafeEvaluator.division_sign
   || N.eqb c SafeEvaluator.minus_sign)%bool.

(** A decimal digit. *)
Definition decimal_digit (c : Py.codepoint) : bool :=
  (N.leb 48 c && N.leb c 57)%bool.

(** One of the four operator glyphs the window types. *)
Definition operator_glyph (c : Py.codepoint) : bool :=
  (N.eqb c 43 || N.eqb c 8722 || N.eqb c 215 || N.eqb c 247)%bool.

(** No two operator glyphs side by side. *)
Fixpoint no_operator_pair (s : Py.str) : bool :=
  match s with
  | c :: ((d :: _) as s') =>
      negb (operator_glyph c && operator_glyph d) && no_operator_pair s'
  | _ => true
  end.

(* ================================================================== *)
(** * Properties *)
(* ================================================================== *)

Import Py Ast SafeEvaluator.

(** ** Strings and the registry table *)

Lemma str_eqb_eq (a b : str) : str_eqb a b = true <-> a = b.
Proof.
  revert b; induction a as [|x a IH]; destruct b as [|y b]; simpl;
    try (split; [discriminate | intros H; inversion H]); try tauto.
  rewrite andb_true_iff, N.eqb_eq, IH.
  split; [intros [-> ->]; reflexivity | intros H; inversion H; auto].
Qed.

Lemma str_eqb_refl (a : str) : str_eqb a a = true.
Proof. apply str_eqb_eq; reflexivity. Qed.

Lemma lookup_not_in (k : str) (d : list (str * value)) :
  ~ In k (map fst d) -> lookup k d = None.
Proof.
  induction d as [|[k' v] d IH]; simpl; intros H; [reflexivity|].
  destruct (str_eqb k k') eqn:E.
  - apply str_eqb_eq in E. subst. exfalso; apply H; left; reflexivity.
  - apply IH. intros Hin; apply H; right; exact Hin.
Qed.

Lemma lookup_in (k : str) (d : list (str * value)) (v : value) :
  lookup k d = Some v -> In (k, v) d.
Proof.
  induction d as [|[k' v'] d IH]; simpl; [discriminate|].
  destruct (str_eqb k k') eqn:E.
  - apply str_eqb_eq in E. intros [= ->]. left; subst; reflexivity.
  - intros H; right; apply IH; exact H.
Qed.

(** An instance of [ast.Num] is a [Constant]: the branch of line 90 is
    never taken. *)
Lemma Num_is_Constant (node : expr) :
  isinstance1 node cNum = true -> exists v, node = Constant v.
Proof.
  destruct node; simpl; try discriminate.
  intros _; eexists; reflexivity.
Qed.

(** ** The equations of [_eval] *)

Section Equations.
Variable L : Libm.

Lemma _eval_O (node : expr) : _eval L O node = Err RecursionError.
Proof. reflexivity. Qed.

Lemma _eval_Constant (depth : nat) (c : constant) :
  _eval L (S depth) (Constant c)
  = match c with
    | CInt z => Ok (VInt z)
    | CBool b => Ok (VBool b)
    | CFloat f => Ok (VFloat f)
    | _ => Err (ValueError "Invalid constant")
    end.
Proof. destruct c; reflexivity. Qed.

Lemma _eval_UnaryOp (depth : nat) (op : unaryop) (operand : expr) :
  _eval L (S depth) (UnaryOp op operand)
  = (v <- _eval L depth operand ;;
     match op with
     | UAdd => pos v
     | USub => neg v
     | _ => Err (ValueError "Unsupported unary operator")
     end).
Proof. reflexivity. Qed.

Lemma _eval_BinOp (depth : nat) (l r : expr) (op : operator) :
  _eval L (S depth) (BinOp l op r)
  = (x <- _eval L depth l ;;
     y <- _eval L depth r ;;
     match op with
     | Add => add L x y
     | Sub => sub L x y
     | Mult => mul L x y
     | Div => truediv L x y
     | FloorDiv => floordiv L x y
     | Mod => mod_ L x y
     | Pow =>
         al <- abs L x ;;
         big <- gt al (VFloat float_1e6) ;;
         if big then Err (ValueError "Exponent too large")
         else
           ar <- abs L y ;;
           big <- gt ar (VInt 10) ;;
           if big then Err (ValueError "Exponent too large")
           else pow L x y
     | _ => Err (ValueError "Unsupported operator")
     end).
Proof. reflexivity. Qed.

Lemma _eval_Call (depth : nat) (func : expr) (args : list expr)
      (keywords : list (option str * expr)) :
  _eval L (S depth) (Call func args keywords)
  = match func with
    | Name id =>
        match lookup id allowed_names with
        | Some f => vs <- mapM (_eval L depth) args ;; call L f vs
        | None => Err (ValueError "Function not allowed")
        end
    | _ => Err (ValueError "Function not allowed")
    end.
Proof. reflexivity. Qed.

Lemma _eval_Name (depth : nat) (id : str) :
  _eval L (S depth) (Name id)
  = match lookup id allowed_names with
    | Some v => Ok v
    | None => Err (ValueError "Unknown identifier")
    end.
Proof. reflexivity. Qed.

Lemma _eval_disallowed (depth : nat) (node : expr) :
  isinstance node allowed_nodes = false ->
  _eval L (S depth) node = Err (ValueError "Disallowed expression").
Proof.
  intros H.
  destruct node as [c| | | | | | | | | |k];
    try destruct c; try destruct k;
    try discriminate H; reflexivity.
Qed.

End Equations.

(** ** C7: the registry and identifiers *)

(** C7, the behaviour of the code. The registry table holds exactly the
    constants [pi] and [e] (with the values of [math.pi] and [math.e]) and
    exactly the functions [sqrt], [sin], [cos], [tan], [log] (the natural
    logarithm of the C library), [log10], [abs] and [round]; evaluating an
    identifier node returns the registered constant's value when the name
    is a registered constant, and fails with 'Unknown identifier' (the
    [UnknownIdentifierError] kind) for every name that is not in the
    table.  An identifier that names a function of the registry neither
    returns a constant nor fails: it returns the function object, so that
    "sqrt" evaluates to a value that is not a number. *)
Theorem registry_contents_and_identifiers :
  allowed_names
  = (map (fun c => (fst c, VFloat (snd c))) Spec.constants
     ++ map (fun f => (fst f, VBuiltin (snd f))) Spec.functions)%list
  /\ (314159265358979 * 2 ^ 51 <= 7074237752028440 * 10 ^ 14
                                   < 314159265358980 * 2 ^ 51
      /\ math_pi = S754_finite false 7074237752028440 (-51))
  /\ (271828182845904 * 2 ^ 51 <= 6121026514868073 * 10 ^ 14
                                   < 271828182845905 * 2 ^ 51
      /\ math_e = S754_finite false 6121026514868073 (-51))
  /\ (forall (L : Libm) (x : float),
        call_builtin L Blog [VFloat x] = math_1 (m_log (libm_log L)) (VFloat x))
  /\ (forall (L : Libm) (depth : nat) (id : str) (c : float),
        In (id, c) Spec.constants ->
        _eval L (S depth) (Name id) = Ok (VFloat c))
  /\ (forall (L : Libm) (depth : nat) (id : str),
        ~ In id (map fst allowed_names) ->
        _eval L (S depth) (Name id) = Err (ValueError "Unknown identifier")
        /\ Spec.kind_of (ValueError "Unknown identifier")
           = Some Spec.UnknownIdentifierError)
  /\ (forall (L : Libm) (depth : nat) (id : str) (b : builtin),
        In (id, b) Spec.functions ->
        _eval L (S depth) (Name id) = Ok (VBuiltin b)
        /\ is_number (VBuiltin b) = false)
  /\ (forall L : Libm,
        RefParser.parse (sanitize "sqrt") = Parsed (Name "sqrt")
        /\ evaluate L RefParser.parse recursion_limit "sqrt"
           = Ok (VBuiltin Bsqrt)
        /\ evaluate L RefParser.parse recursion_limit "pi"
           = Ok (VFloat math_pi)
        /\ evaluate L RefParser.parse recursion_limit "x"
           = Err (ValueError "Unknown identifier")).
Proof.
  split; [reflexivity|].
  split; [split; [lia | reflexivity]|].
  split; [split; [lia | reflexivity]|].
  split; [intros; reflexivity|].
  split; [|split; [|split]].
  - intros L depth id c [H | [H | []]]; inversion H; subst; reflexivity.
  - intros L depth id H. split; [|reflexivity].
    rewrite _eval_Name, (lookup_not_in _ _ H). reflexivity.
  - intros L depth id b H. simpl in H.
    repeat (destruct H as [H | H];
            [injection H as <- <-; split; reflexivity|]).
    destruct H.
  - intros L. repeat split; vm_compute; reflexivity.
Qed.

Lemma registry_contents_and_identifiers_witness :
  In (str_of_string "pi", math_pi) Spec.constants
  /\ ~ In (str_of_string "x") (map fst allowed_names)
  /\ In (str_of_string "sqrt", Bsqrt) Spec.functions
  /\ _eval libm_nan recursion_limit (Name "pi") = Ok (VFloat math_pi)
  /\ _eval libm_nan recursion_limit (Name "x")
     = Err (ValueError "Unknown identifier")
  /\ _eval libm_nan recursion_limit (Name "sqrt") = Ok (VBuiltin Bsqrt).
Proof.
  assert (Hin : In (str_of_string "pi", math_pi) Spec.constants)
    by (left; reflexivity).
  assert (Hout : ~ In (str_of_string "x") (map fst allowed_names)).
  { simpl. intros H.
    repeat (destruct H as [H | H]; [discriminate H|]). exact H. }
  assert (Hfn : In (str_of_string "sqrt", Bsqrt) Spec.functions)
    by (left; reflexivity).
  destruct registry_contents_and_identifiers
    as (_ & _ & _ & _ & Hc & Hu & Hf & _).
  split; [exact Hin|]. split; [exact Hout|]. split; [exact Hfn|].
  split; [exact (Hc libm_nan 999%nat _ _ Hin)|].
  split; [exact (proj1 (Hu libm_nan 999%nat _ Hout))|].
  exact (proj1 (Hf libm_nan 999%nat _ _ Hfn)).
Defined.

(** ** C10: Boolean literals *)

(** C10. A Boolean literal is accepted as a number: whenever the parser
    returns the constant [True] or [False] for the text, [evaluate]
    succeeds and returns that Boolean, whose integer value is 1 or 0, and
    arithmetic treats it as that integer; so do the texts "True" and
    "False" (no 'Invalid expression', no 'Unknown identifier'). *)
Theorem boolean_literals_are_numbers :
  (forall (L : Libm) (parse : parser) (depth : nat) (text : str) (b : bool),
      parse (sanitize text) = Parsed (Constant (CBool b)) ->
      evaluate L parse (S depth) text = Ok (VBool b)
      /\ int_value (VBool b) = Some (if b then 1 else 0)
      /\ is_number (VBool b) = true)
  /\ (forall L : Libm,
        RefParser.parse (sanitize "True") = Parsed (Constant (CBool true))
        /\ evaluate L RefParser.parse recursion_limit "True" = Ok (VBool true)
        /\ RefParser.parse (sanitize "False") = Parsed (Constant (CBool false))
        /\ evaluate L RefParser.parse recursion_limit "False"
           = Ok (VBool false)
        /\ evaluate L RefParser.parse recursion_limit "True + True"
           = Ok (VInt 2)
        /\ evaluate L RefParser.parse recursion_limit "-True" = Ok (VInt (-1))).
Proof.
  split.
  - intros L parse depth text b H. unfold evaluate. rewrite H.
    rewrite _eval_Constant. destruct b; repeat split; reflexivity.
  - intros L. repeat split; vm_compute; reflexivity.
Qed.

Lemma boolean_literals_are_numbers_witness :
  RefParser.parse (sanitize "True") = Parsed (Constant (CBool true))
  /\ evaluate libm_nan RefParser.parse recursion_limit "True"
     = Ok (VBool true).
Proof.
  assert (H : RefParser.parse (sanitize "True")
              = Parsed (Constant (CBool true))) by (vm_compute; reflexivity).
  split; [exact H|].
  exact (proj1 (proj1 boolean_literals_are_numbers
                  libm_nan RefParser.parse 999%nat
                  (str_of_string "True") true H)).
Defined.

(** ** C6: the sanitizer *)

Lemma sanitize_ascii_form (text : str) : sanitize text = Spec.ascii_form text.
Proof.
  unfold sanitize, replace, Spec.ascii_form.
  rewrite !map_map. apply map_ext. intros c.
  unfold Spec.ascii_of_glyph, multiplication_sign, division_sign, minus_sign,
    asterisk, solidus, hyphen_minus.
  destruct (N.eqb c 215) eqn:E1; [reflexivity|].
  destruct (N.eqb c 247) eqn:E2; [reflexivity|].
  destruct (N.eqb c 8722) eqn:E3; reflexivity.
Qed.

Lemma ascii_of_glyph_idempotent (c : codepoint) :
  Spec.ascii_of_glyph (Spec.ascii_of_glyph c) = Spec.ascii_of_glyph c.
Proof.
  unfold Spec.ascii_of_glyph.
  destruct (N.eqb c 215) eqn:E1; [reflexivity|].
  destruct (N.eqb c 247) eqn:E2; [reflexivity|].
  destruct (N.eqb c 8722) eqn:E3; [reflexivity|].
  rewrite E1, E2, E3. reflexivity.
Qed.

Lemma sanitize_idempotent (text : str) :
  sanitize (sanitize text) = sanitize text.
Proof.
  rewrite !sanitize_ascii_form. unfold Spec.ascii_form.
  rewrite map_map. apply map_ext. exact ascii_of_glyph_idempotent.
Qed.

(** C6. [evaluate] sanitizes its argument before parsing: what it parses
    is the ASCII form of the text (each multiplication, division and minus
    glyph replaced by [*], [/] and [-]), so a text and its ASCII form
    evaluate to the same result with every parser; in particular "4 x 5"
    written with the multiplication glyph and "4*5" both give 20, and
    likewise for the division and minus glyphs. *)
Theorem glyph_form_and_ascii_form_agree :
  (forall (L : Libm) (parse : parser) (depth : nat) (text : str),
      sanitize text = Spec.ascii_form text
      /\ evaluate L parse depth text
         = match parse (Spec.ascii_form text) with
           | Parsed body => _eval L depth body
           | RaisedSyntaxError => Err (ValueError "Invalid expression")
           | Raised e => Err e
           end
      /\ evaluate L parse depth text
         = evaluate L parse depth (Spec.ascii_form text))
  /\ (forall L : Libm,
        evaluate L RefParser.parse recursion_limit
                 (glyph_text "4" multiplication_sign "5") = Ok (VInt 20)
        /\ evaluate L RefParser.parse recursion_limit "4*5" = Ok (VInt 20)
        /\ evaluate L RefParser.parse recursion_limit
                    (glyph_text "20" division_sign "5")
           = Ok (VFloat (float_of_Z 4))
        /\ evaluate L RefParser.parse recursion_limit "20/5"
           = Ok (VFloat (float_of_Z 4))
        /\ evaluate L RefParser.parse recursion_limit
                    (glyph_text "9" minus_sign "4") = Ok (VInt 5)
        /\ evaluate L RefParser.parse recursion_limit "9-4" = Ok (VInt 5)).
Proof.
  split.
  - intros L parse depth text.
    split; [apply sanitize_ascii_form|].
    split.
    + unfold evaluate. rewrite sanitize_ascii_form. reflexivity.
    + unfold evaluate.
      rewrite <- (sanitize_ascii_form text), sanitize_idempotent.
      reflexivity.
  - intros L. repeat split; vm_compute; reflexivity.
Qed.

(** ** C5: one error kind per failure mode *)

Lemma outside_allow_list_spec (node : expr) :
  isinstance node allowed_nodes = false <-> Spec.outside_allow_list node.
Proof.
  destruct node as [c| | | | | | | | | |k];
    try destruct c; try destruct k; simpl; split;
    try discriminate; try tauto.
Qed.

(** C5. Each failure mode has its own error: malformed input (the parser
    raises [SyntaxError]) gives 'Invalid expression', the [SyntaxError]
    kind; a node whose class is outside the allow-list gives 'Disallowed
    expression', the [DisallowedNodeError] kind; an identifier that is in
    no part of the registry table gives 'Unknown identifier', the
    [UnknownIdentifierError] kind; a call whose target is not a name of
    the table gives 'Function not allowed', the [FunctionNotAllowedError]
    kind; division by zero and the exponent guard give errors of the
    [ArithmeticError] kind; errors of different kinds are different
    exceptions; and the empty text, "(1+2" and "1++" give the
    [SyntaxError] kind.

    The code departs from the taxonomy where the two parts of the table
    meet, the table being one for constants and functions: a call whose
    target is a constant, as in "pi(1)", is not reported as
    [FunctionNotAllowedError] but ends in the host's [TypeError], which
    is none of the five kinds; and an identifier that names a function,
    as in "sqrt", is not reported as [UnknownIdentifierError] but
    evaluates to the function object. *)
Theorem failure_modes_have_their_own_kind :
  (forall (L : Libm) (parse : parser) (depth : nat) (text : str),
      parse (sanitize text) = RaisedSyntaxError ->
      evaluate L parse depth text = Err (ValueError "Invalid expression"))
  /\ Spec.kind_of (ValueError "Invalid expression") = Some Spec.SyntaxError
  /\ (forall (L : Libm) (depth : nat) (node : expr),
        Spec.outside_allow_list node ->
        _eval L (S depth) node = Err (ValueError "Disallowed expression"))
  /\ Spec.kind_of (ValueError "Disallowed expression")
     = Some Spec.DisallowedNodeError
  /\ (forall (L : Libm) (depth : nat) (id : str),
        ~ In id (map fst allowed_names) ->
        _eval L (S depth) (Name id) = Err (ValueError "Unknown identifier"))
  /\ Spec.kind_of (ValueError "Unknown identifier")
     = Some Spec.UnknownIdentifierError
  /\ (forall (L : Libm) (depth : nat) (func : expr) (args : list expr)
             (keywords : list (option str * expr)),
        (forall id, func = Name id -> ~ In id (map fst allowed_names)) ->
        _eval L (S depth) (Call func args keywords)
        = Err (ValueError "Function not allowed"))
  /\ Spec.kind_of (ValueError "Function not allowed")
     = Some Spec.FunctionNotAllowedError
  /\ (forall (L : Libm) (x : Z),
        truediv L (VInt x) (VInt 0) = Err ZeroDivisionError
        /\ floordiv L (VInt x) (VInt 0) = Err ZeroDivisionError
        /\ mod_ L (VInt x) (VInt 0) = Err ZeroDivisionError)
  /\ Spec.kind_of ZeroDivisionError = Some Spec.ArithmeticError
  /\ Spec.kind_of (ValueError "Exponent too large") = Some Spec.ArithmeticError
  /\ (forall (e1 e2 : exn) (k1 k2 : Spec.error_kind),
        Spec.kind_of e1 = Some k1 -> Spec.kind_of e2 = Some k2 ->
        k1 <> k2 -> e1 <> e2)
  /\ (forall L : Libm,
        RefParser.parse (sanitize []) = RaisedSyntaxError
        /\ RefParser.parse (sanitize "(1+2") = RaisedSyntaxError
        /\ RefParser.parse (sanitize "1++") = RaisedSyntaxError
        /\ evaluate L RefParser.parse recursion_limit []
           = Err (ValueError "Invalid expression")
        /\ evaluate L RefParser.parse recursion_limit "(1+2"
           = Err (ValueError "Invalid expression")
        /\ evaluate L RefParser.parse recursion_limit "1++"
           = Err (ValueError "Invalid expression"))
  /\ (forall (L : Libm) (depth : nat) (id : str) (c : float)
             (args : list expr) (keywords : list (option str * expr))
             (vs : list value),
        In (id, c) Spec.constants ->
        mapM (_eval L depth) args = Ok vs ->
        _eval L (S depth) (Call (Name id) args keywords) = Err TypeError)
  /\ Spec.kind_of TypeError = None
  /\ (forall (L : Libm) (depth : nat) (id : str) (b : builtin),
        In (id, b) Spec.functions ->
        _eval L (S depth) (Name id) = Ok (VBuiltin b))
  /\ (forall L : Libm,
        evaluate L RefParser.parse recursion_limit "pi(1)" = Err TypeError
        /\ evaluate L RefParser.parse recursion_limit "sqrt"
           = Ok (VBuiltin Bsqrt)).
Proof.
  split.
  { intros L parse depth text H. unfold evaluate. rewrite H. reflexivity. }
  split; [reflexivity|].
  split.
  { intros L depth node H. apply _eval_disallowed.
    apply outside_allow_list_spec. exact H. }
  split; [reflexivity|].
  split.
  { intros L depth id H. rewrite _eval_Name, (lookup_not_in _ _ H).
    reflexivity. }
  split; [reflexivity|].
  split.
  { intros L depth func args keywords H. rewrite _eval_Call.
    destruct func; try reflexivity.
    rewrite (lookup_not_in _ _ (H _ eq_refl)). reflexivity. }
  split; [reflexivity|].
  split.
  { intros L x. repeat split; reflexivity. }
  split; [reflexivity|].
  split; [reflexivity|].
  split.
  { intros e1 e2 k1 k2 H1 H2 Hk Heq. subst e2. rewrite H1 in H2.
    inversion H2. contradiction. }
  split.
  { intros L. repeat split; vm_compute; reflexivity. }
  split.
  { intros L depth id c args keywords vs Hin Hvs. rewrite _eval_Call.
    assert (Hl : lookup id allowed_names = Some (VFloat c)).
    { destruct Hin as [H | [H | []]]; injection H as <- <-; reflexivity. }
    rewrite Hl, Hvs. reflexivity. }
  split; [reflexivity|].
  split.
  { intros L depth id b Hin. rewrite _eval_Name.
    assert (Hl : lookup id allowed_names = Some (VBuiltin b)).
    { simpl in Hin.
      repeat (destruct Hin as [Hin | Hin];
              [injection Hin as <- <-; reflexivity|]).
      destruct Hin. }
    rewrite Hl. reflexivity. }
  intros L. split; vm_compute; reflexivity.
Qed.

Lemma failure_modes_have_their_own_kind_witness :
  RefParser.parse (sanitize "1++") = RaisedSyntaxError
  /\ evaluate libm_nan RefParser.parse recursion_limit "1++"
     = Err (ValueError "Invalid expression")
  /\ Spec.outside_allow_list (Attribute (Name "x") "y")
  /\ _eval libm_nan recursion_limit (Attribute (Name "x") "y")
     = Err (ValueError "Disallowed expression")
  /\ ~ In (str_of_string "x") (map fst allowed_names)
  /\ _eval libm_nan recursion_limit (Name "x")
     = Err (ValueError "Unknown identifier")
  /\ _eval libm_nan recursion_limit (Call (Name "x") [] [])
     = Err (ValueError "Function not allowed")
  /\ ValueError "Unknown identifier" <> ValueError "Function not allowed"
  /\ In (str_of_string "pi", math_pi) Spec.constants
  /\ _eval libm_nan recursion_limit (Call (Name "pi") [Constant (CInt 1)] [])
     = Err TypeError
  /\ In (str_of_string "sqrt", Bsqrt) Spec.functions
  /\ _eval libm_nan recursion_limit (Name "sqrt") = Ok (VBuiltin Bsqrt).
Proof.
  assert (Hs : RefParser.parse (sanitize "1++") = RaisedSyntaxError)
    by (vm_compute; reflexivity).
  assert (Hx : ~ In (str_of_string "x") (map fst allowed_names)).
  { simpl. intros H.
    repeat (destruct H as [H | H]; [discriminate H|]). exact H. }
  assert (Hpi : In (str_of_string "pi", math_pi) Spec.constants)
    by (left; reflexivity).
  assert (Hsq : In (str_of_string "sqrt", Bsqrt) Spec.functions)
    by (left; reflexivity).
  destruct failure_modes_have_their_own_kind
    as (T1 & _ & T2 & _ & T3 & _ & T4 & _ & _ & _ & _ & T5 & _
        & T6 & _ & T7 & _).
  split; [exact Hs|].
  split; [exact (T1 libm_nan RefParser.parse recursion_limit _ Hs)|].
  split; [exact I|].
  split; [exact (T2 libm_nan 999%nat (Attribute (Name "x") "y") I)|].
  split; [exact Hx|].
  split; [exact (T3 libm_nan 999%nat _ Hx)|].
  split.
  { apply (T4 libm_nan 999%nat (Name "x") [] []).
    intros id [= <-]. exact Hx. }
  split.
  { apply (T5 _ _ Spec.UnknownIdentifierError Spec.FunctionNotAllowedError);
      [reflexivity | reflexivity | discriminate]. }
  split; [exact Hpi|].
  split.
  { exact (T6 libm_nan 999%nat _ _ [Constant (CInt 1)] [] [VInt 1]
              Hpi eq_refl). }
  split; [exact Hsq|].
  exact (T7 libm_nan 999%nat _ _ Hsq).
Defined.

(** ** C8: division by zero *)

Lemma kind_of_ZeroDivisionError :
  Spec.kind_of ZeroDivisionError = Some Spec.ArithmeticError.
Proof. reflexivity. Qed.

Ltac by_zero :=
  simpl;
  first
    [ left; reflexivity
    | unfold int_to_float;
      match goal with
      | |- context [is_inf (float_of_Z ?x)] =>
          let E := fresh "E" in
          destruct (is_inf (float_of_Z x)) eqn:E; simpl;
          [ right; split;
            [reflexivity | exists x; split; [reflexivity | exact E]]
          | left; reflexivity ]
      end ].

Lemma truediv_by_zero (L : Libm) (l r : value) :
  is_number l = true -> Spec.zero_value r = true ->
  truediv L l r = Err ZeroDivisionError
  \/ (truediv L l r = Err OverflowError
      /\ exists z, int_value l = Some z /\ is_inf (float_of_Z z) = true).
Proof.
  intros Hl Hr. unfold truediv, binop.
  destruct r as [y|b|g|re im|]; simpl in Hr; try discriminate Hr.
  - apply Z.eqb_eq in Hr. subst y.
    destruct l as [x|a|f|lre lim|]; try discriminate Hl; try destruct a;
      by_zero.
  - destruct b; try discriminate Hr.
    destruct l as [x|a|f|lre lim|]; try discriminate Hl; try destruct a;
      by_zero.
  - destruct g; try discriminate Hr.
    destruct l as [x|a|f|lre lim|]; try discriminate Hl; try destruct a;
      by_zero.
  - apply andb_true_iff in Hr. destruct Hr as [Hre Him].
    destruct re; try discriminate Hre. destruct im; try discriminate Him.
    destruct l as [x|a|f|lre lim|]; try discriminate Hl; try destruct a;
      by_zero.
Qed.

(** C8. A division whose right operand evaluates to zero (the integer 0,
    [False], a float zero of either sign, or the complex zero) and whose
    left operand evaluates to a number never returns a value: it fails
    with an error of the [ArithmeticError] kind, namely
    [ZeroDivisionError], unless the left operand is an integer too large
    to convert to a float, the division being a float or complex one, in
    which case the conversion fails first with [OverflowError]; two
    integers always give [ZeroDivisionError]; and "10/0" gives
    [ZeroDivisionError]. *)
Theorem division_by_zero_fails :
  (forall (L : Libm) (depth : nat) (nl nr : expr) (l r : value),
      _eval L depth nl = Ok l ->
      _eval L depth nr = Ok r ->
      is_number l = true ->
      Spec.zero_value r = true ->
      exists e,
        _eval L (S depth) (BinOp nl Div nr) = Err e
        /\ Spec.kind_of e = Some Spec.ArithmeticError
        /\ (e = ZeroDivisionError
            \/ (e = OverflowError
                /\ exists z, int_value l = Some z
                             /\ is_inf (float_of_Z z) = true)))
  /\ (forall (L : Libm) (x : Z),
        truediv L (VInt x) (VInt 0) = Err ZeroDivisionError)
  /\ (forall L : Libm,
        evaluate L RefParser.parse recursion_limit "10/0"
        = Err ZeroDivisionError).
Proof.
  split; [|split].
  - intros L depth nl nr l r Hl Hr Hn Hz.
    rewrite _eval_BinOp, Hl, Hr. simpl.
    destruct (truediv_by_zero L l r Hn Hz) as [H | [H Hbig]]; rewrite H.
    + exists ZeroDivisionError. repeat split. left; reflexivity.
    + exists OverflowError. repeat split. right; split; [reflexivity|].
      exact Hbig.
  - intros L x. reflexivity.
  - intros L. vm_compute. reflexivity.
Qed.

Lemma division_by_zero_fails_witness :
  _eval libm_nan 999 (Constant (CInt 10)) = Ok (VInt 10)
  /\ _eval libm_nan 999 (Constant (CFloat (S754_zero true)))
     = Ok (VFloat (S754_zero true))
  /\ exists e,
      _eval libm_nan recursion_limit
            (BinOp (Constant (CInt 10)) Div
                   (Constant (CFloat (S754_zero true)))) = Err e
      /\ Spec.kind_of e = Some Spec.ArithmeticError.
Proof.
  split; [reflexivity|]. split; [reflexivity|].
  destruct (proj1 division_by_zero_fails libm_nan 999%nat
              (Constant (CInt 10)) (Constant (CFloat (S754_zero true)))
              (VInt 10) (VFloat (S754_zero true))
              eq_refl eq_refl eq_refl eq_refl) as (e & He & Hk & _).
  exists e. split; [exact He | exact Hk].
Defined.

(** ** C3: the exponent guard *)

Lemma digits2_pos_bounds (m : positive) :
  2 ^ (Zpos (digits2_pos m) - 1) <= Zpos m < 2 ^ Zpos (digits2_pos m).
Proof.
  induction m as [m IH | m IH |]; simpl digits2_pos.
  - rewrite Pos2Z.inj_succ.
    replace (Z.succ (Zpos (digits2_pos m)) - 1) with (Zpos (digits2_pos m))
      by lia.
    rewrite Z.pow_succ_r by lia.
    assert (2 ^ Zpos (digits2_pos m)
            = 2 * 2 ^ (Zpos (digits2_pos m) - 1)).
    { rewrite <- Z.pow_succ_r by lia. f_equal. lia. }
    lia.
  - rewrite Pos2Z.inj_succ.
    replace (Z.succ (Zpos (digits2_pos m)) - 1) with (Zpos (digits2_pos m))
      by lia.
    rewrite Z.pow_succ_r by lia.
    assert (2 ^ Zpos (digits2_pos m)
            = 2 * 2 ^ (Zpos (digits2_pos m) - 1)).
    { rewrite <- Z.pow_succ_r by lia. f_equal. lia. }
    lia.
  - simpl. lia.
Qed.

(** A canonical binary64 mantissa has at most 53 bits, and exactly 53
    above the smallest exponent. *)
Lemma canonical_mantissa_bounds (s : bool) (m : positive) (e : Z) :
  valid_binary prec emax (S754_finite s m e) = true ->
  Zpos m < 2 ^ 53 /\ (e <> -1074 -> 2 ^ 52 <= Zpos m) /\ -1074 <= e.
Proof.
  unfold valid_binary, bounded, canonical_mantissa, fexp, emin, prec, emax.
  intros H. apply andb_true_iff in H. destruct H as [H _].
  apply Z.eqb_eq in H.
  pose proof (digits2_pos_bounds m) as [Hlo Hhi].
  assert (Hd : Zpos (digits2_pos m) <= 53) by lia.
  split; [|split].
  - apply Z.lt_le_trans with (1 := Hhi).
    apply Z.pow_le_mono_r; lia.
  - intros He.
    assert (Zpos (digits2_pos m) = 53) by lia.
    replace 52 with (Zpos (digits2_pos m) - 1) by lia. exact Hlo.
  - lia.
Qed.

Lemma float_1e6_eq : float_1e6 = S754_finite false 8589934592000000 (-33).
Proof. vm_compute. reflexivity. Qed.

(** On canonical floats, the IEEE comparison [1e6 < |f|] of line 118 is
    the exact comparison of [|f|] with one million. *)
Lemma gt_1e6_float (f : float) :
  valid_binary prec emax f = true ->
  SFltb float_1e6 (fabs f) = Spec.exceeds (VFloat f) 1000000.
Proof.
  intros Hv. rewrite float_1e6_eq.
  destruct f as [s|s| |s m e]; try reflexivity.
  destruct (canonical_mantissa_bounds s m e Hv) as (Hhi & Hlo & Hmin).
  unfold Spec.exceeds, fabs, SFabs, float_compare_Z, cond_Zopp, SFltb,
    SFcompare.
  destruct (Z.compare_spec (-33) e) as [He | He | He].
  - subst e. replace (0 <=? -33) with false by reflexivity.
    rewrite Pos.compare_cont_spec.
    change (1000000 * 2 ^ (- -33)) with (Zpos 8589934592000000).
    change (Zpos m ?= Zpos 8589934592000000)
      with (m ?= 8589934592000000)%positive.
    rewrite (Pos.compare_antisym 8589934592000000 m).
    destruct (8589934592000000 ?= m)%positive; reflexivity.
  - assert (Hm : 2 ^ 52 <= Zpos m) by (apply Hlo; lia).
    destruct (0 <=? e) eqn:E0.
    + apply Z.leb_le in E0.
      assert (1 <= 2 ^ e) by (apply (Z.pow_le_mono_r 2 0 e); lia).
      assert (Hgt : 1000000 < Zpos m * 2 ^ e).
      { change (2 ^ 52) with 4503599627370496 in Hm. nia. }
      apply Z.compare_gt_iff in Hgt. rewrite Hgt. reflexivity.
    + apply Z.leb_gt in E0.
      assert (2 ^ (- e) <= 2 ^ 32) by (apply Z.pow_le_mono_r; lia).
      assert (0 < 2 ^ (- e)) by (apply Z.pow_pos_nonneg; lia).
      assert (Hgt : 1000000 * 2 ^ (- e) < Zpos m).
      { change (2 ^ 52) with 4503599627370496 in Hm.
        change (2 ^ 32) with 4294967296 in *. nia. }
      apply Z.compare_gt_iff in Hgt. rewrite Hgt. reflexivity.
  - replace (0 <=? e) with false by (symmetry; apply Z.leb_gt; lia).
    assert (2 ^ 34 <= 2 ^ (- e)) by (apply Z.pow_le_mono_r; lia).
    assert (Hlt : Zpos m < 1000000 * 2 ^ (- e)).
    { change (2 ^ 53) with 9007199254740992 in Hhi.
      change (2 ^ 34) with 17179869184 in *. nia. }
    apply Z.compare_lt_iff in Hlt. rewrite Hlt. reflexivity.
Qed.

Lemma gt_1e6_int (z : Z) :
  gt (VInt z) (VFloat float_1e6) = Ok (1000000 <? z).
Proof.
  rewrite float_1e6_eq.
  unfold gt, to_num, bind, float_compare_Z, cond_Zopp.
  change (0 <=? -33) with false. cbv iota.
  change (2 ^ (- -33)) with 8589934592.
  f_equal.
  destruct (Z.compare_spec 8589934592000000 (z * 8589934592)) as [H|H|H];
    destruct (Z.ltb_spec 1000000 z); try reflexivity; lia.
Qed.

Lemma guard_left (L : Libm) (l : value) :
  is_real l = true -> Spec.canonical l = true ->
  (al <- abs L l ;; gt al (VFloat float_1e6)) = Ok (Spec.exceeds l 1000000).
Proof.
  intros Hr Hc. destruct l as [z|b|f| |]; try discriminate Hr.
  - simpl. apply gt_1e6_int.
  - simpl bind. rewrite gt_1e6_int. reflexivity.
  - simpl in Hc. simpl bind. unfold gt. simpl bind.
    rewrite (gt_1e6_float f Hc). reflexivity.
Qed.

Lemma guard_right (L : Libm) (r : value) :
  is_real r = true ->
  (ar <- abs L r ;; gt ar (VInt 10)) = Ok (Spec.exceeds r 10).
Proof.
  intros Hr. destruct r as [z|b|f| |]; try discriminate Hr; reflexivity.
Qed.

(** C3. For real operands [l] and [r] of [**] (integers, Booleans and
    canonical floats), evaluation fails with 'Exponent too large', an
    error of the [ArithmeticError] kind, when [|l| > 1000000] or
    [|r| > 10], and otherwise is the host's [l ** r]; for integers within
    the bounds and a non-negative exponent that is the integer power; and
    "2**10" gives 1024 while "2**11" and "1000001**2" fail with that
    error. *)
Theorem exponent_guard :
  (forall (L : Libm) (depth : nat) (nl nr : expr) (l r : value),
      _eval L depth nl = Ok l ->
      _eval L depth nr = Ok r ->
      is_real l = true -> is_real r = true ->
      Spec.canonical l = true ->
      _eval L (S depth) (BinOp nl Pow nr)
      = if Spec.exceeds l 1000000 || Spec.exceeds r 10
        then Err (ValueError "Exponent too large")
        else pow L l r)
  /\ (forall (L : Libm) (x y : Z),
        0 <= y -> pow L (VInt x) (VInt y) = Ok (VInt (x ^ y)))
  /\ Spec.kind_of (ValueError "Exponent too large") = Some Spec.ArithmeticError
  /\ (forall L : Libm,
        evaluate L RefParser.parse recursion_limit "2**10" = Ok (VInt 1024)
        /\ evaluate L RefParser.parse recursion_limit "2**11"
           = Err (ValueError "Exponent too large")
        /\ evaluate L RefParser.parse recursion_limit "1000001**2"
           = Err (ValueError "Exponent too large")
        /\ evaluate L RefParser.parse recursion_limit "2**-11"
           = Err (ValueError "Exponent too large")).
Proof.
  split; [|split; [|split]].
  - intros L depth nl nr l r Hl Hr Rl Rr Cl.
    rewrite _eval_BinOp, Hl, Hr. simpl bind.
    pose proof (guard_left L l Rl Cl) as Gl.
    pose proof (guard_right L r Rr) as Gr.
    destruct (abs L l) as [al|e]; [|discriminate Gl]. simpl bind in *.
    rewrite Gl. simpl bind.
    destruct (Spec.exceeds l 1000000); [reflexivity|].
    destruct (abs L r) as [ar|e]; [|discriminate Gr]. simpl bind in *.
    rewrite Gr. simpl bind.
    destruct (Spec.exceeds r 10); reflexivity.
  - intros L x y Hy. unfold pow, binop. simpl.
    replace (0 <=? y) with true by (symmetry; apply Z.leb_le; exact Hy).
    reflexivity.
  - reflexivity.
  - intros L. repeat split; vm_compute; reflexivity.
Qed.

Lemma exponent_guard_witness :
  _eval libm_nan 999 (Constant (CInt 2)) = Ok (VInt 2)
  /\ _eval libm_nan 999 (Constant (CFloat (float_of_Z 11)))
     = Ok (VFloat (float_of_Z 11))
  /\ _eval libm_nan recursion_limit
           (BinOp (Constant (CInt 2)) Pow (Constant (CFloat (float_of_Z 11))))
     = Err (ValueError "Exponent too large")
  /\ pow libm_nan (VInt 2) (VInt 10) = Ok (VInt 1024).
Proof.
  split; [reflexivity|]. split; [reflexivity|].
  split.
  - exact (proj1 exponent_guard libm_nan 999%nat
             (Constant (CInt 2)) (Constant (CFloat (float_of_Z 11)))
             (VInt 2) (VFloat (float_of_Z 11))
             eq_refl eq_refl eq_refl eq_refl eq_refl).
  - apply (proj1 (proj2 exponent_guard) libm_nan 2 10). lia.
Defined.

(** ** C4: floor division and modulo *)

(** *** Rounding keeps the sign *)

Lemma shr_1_nonneg (mrs : shr_record) :
  0 <= shr_m mrs -> 0 <= shr_m (shr_1 mrs).
Proof.
  destruct mrs as [m r s]. simpl.
  destruct m as [|p|p]; [| destruct p | ]; simpl; lia.
Qed.

Lemma iter_shr_1_nonneg (p : positive) :
  forall mrs, 0 <= shr_m mrs -> 0 <= shr_m (iter_pos shr_1 p mrs).
Proof.
  induction p as [p IH | p IH |]; intros mrs H; simpl.
  - apply IH, IH, shr_1_nonneg, H.
  - apply IH, IH, H.
  - apply shr_1_nonneg, H.
Qed.

Lemma shr_fexp_nonneg (m e : Z) (l : location) :
  0 <= m -> 0 <= shr_m (fst (shr_fexp prec emax m e l)).
Proof.
  intros H. unfold shr_fexp, shr.
  assert (H0 : 0 <= shr_m (shr_record_of_loc m l))
    by (destruct l as [|[]]; exact H).
  destruct (fexp prec emax (Zdigits2 m + e) - e); simpl; auto.
  apply iter_shr_1_nonneg, H0.
Qed.

Lemma round_nearest_even_nonneg (m : Z) (l : location) :
  0 <= m -> 0 <= round_nearest_even m l.
Proof.
  intros H. destruct l as [|[]]; simpl; try lia.
  destruct (Z.even m); lia.
Qed.

Lemma binary_round_aux_sign (sx : bool) (mx ex : Z) (lx : location) :
  0 <= mx ->
  is_nan (binary_round_aux prec emax sx mx ex lx) = false
  /\ sign_bit (binary_round_aux prec emax sx mx ex lx) = sx.
Proof.
  intros H. unfold binary_round_aux.
  pose proof (shr_fexp_nonneg mx ex lx H) as H1.
  destruct (shr_fexp prec emax mx ex lx) as [mrs' e'].
  simpl fst in H1.
  pose proof (shr_fexp_nonneg
                (round_nearest_even (shr_m mrs') (loc_of_shr_record mrs'))
                e' loc_Exact (round_nearest_even_nonneg _ _ H1)) as H2.
  destruct (shr_fexp prec emax _ e' loc_Exact) as [mrs'' e''].
  simpl fst in H2.
  destruct (shr_m mrs'') as [|p|p]; [split; reflexivity | | lia].
  destruct (e'' <=? emax - prec); split; reflexivity.
Qed.

Lemma binary_round_sign (sx : bool) (m : positive) (e : Z) :
  is_nan (binary_round prec emax sx m e) = false
  /\ sign_bit (binary_round prec emax sx m e) = sx.
Proof.
  unfold binary_round.
  destruct (shl_align m e _) as [mz ez].
  apply binary_round_aux_sign. lia.
Qed.

Lemma iter_xO_value (m d : positive) :
  Zpos (Pos.iter xO m d) = Zpos m * 2 ^ Zpos d.
Proof.
  induction d as [|d IH] using Pos.peano_ind.
  - simpl. lia.
  - rewrite Pos.iter_succ, Pos2Z.inj_succ, Z.pow_succ_r by lia.
    rewrite Pos2Z.inj_xO, IH. lia.
Qed.

Lemma shl_align_value (m : positive) (e e' : Z) :
  e' <= e -> Zpos (fst (shl_align m e e')) = Zpos m * 2 ^ (e - e').
Proof.
  intros H. unfold shl_align.
  destruct (e' - e) as [|d|d] eqn:E.
  - replace (e - e') with 0 by lia. simpl. lia.
  - lia.
  - replace (e - e') with (Zpos d) by lia.
    simpl. apply iter_xO_value.
Qed.

(** *** Rounding a non-zero integer gives a non-zero float *)

Lemma shr_1_half (mrs : shr_record) :
  0 <= shr_m mrs -> shr_m (shr_1 mrs) = shr_m mrs / 2.
Proof.
  destruct mrs as [m r s]. simpl. intros H.
  destruct m as [|p|p]; [reflexivity | | lia].
  destruct p as [p|p|]; simpl.
  - apply Z.div_unique with 1; lia.
  - apply Z.div_unique with 0; lia.
  - reflexivity.
Qed.

Lemma iter_shr_1_div (p : positive) :
  forall mrs, 0 <= shr_m mrs ->
              shr_m (iter_pos shr_1 p mrs) = shr_m mrs / 2 ^ Zpos p.
Proof.
  induction p as [p IH | p IH |]; intros mrs H; simpl iter_pos.
  - rewrite IH by (apply iter_shr_1_nonneg, shr_1_nonneg, H).
    rewrite IH by (apply shr_1_nonneg, H).
    rewrite shr_1_half by exact H.
    rewrite !Z.div_div by (try apply Z.pow_pos_nonneg; lia).
    f_equal.
    assert (E : 2 ^ Zpos p~1 = 2 * (2 ^ Zpos p * 2 ^ Zpos p)).
    { rewrite <- Z.pow_add_r, <- Z.pow_succ_r by lia. f_equal. lia. }
    symmetry. exact E.
  - rewrite IH by (apply iter_shr_1_nonneg, H).
    rewrite IH by exact H.
    rewrite !Z.div_div by (try apply Z.pow_pos_nonneg; lia).
    f_equal.
    assert (E : 2 ^ Zpos p~0 = 2 ^ Zpos p * 2 ^ Zpos p).
    { rewrite <- Z.pow_add_r by lia. f_equal. lia. }
    symmetry. exact E.
  - rewrite shr_1_half by exact H. reflexivity.
Qed.

Lemma Zdigits2_bounds (m : Z) :
  0 < m -> 2 ^ (Zdigits2 m - 1) <= m < 2 ^ Zdigits2 m /\ 0 < Zdigits2 m.
Proof.
  destruct m as [|p|p]; try lia. intros _. simpl Zdigits2.
  split; [apply digits2_pos_bounds | lia].
Qed.

Lemma shr_fexp_nonvanishing (m e : Z) (l : location) :
  nonvanishing m e ->
  nonvanishing (shr_m (fst (shr_fexp prec emax m e l)))
        (snd (shr_fexp prec emax m e l)).
Proof.
  intros [Hm He]. unfold shr_fexp, shr.
  destruct (Zdigits2_bounds m Hm) as [[Hlo Hhi] Hd].
  assert (H0 : shr_m (shr_record_of_loc m l) = m)
    by (destruct l as [|[]]; reflexivity).
  destruct (fexp prec emax (Zdigits2 m + e) - e) as [|n|n] eqn:En;
    simpl fst; simpl snd; try (rewrite H0; split; assumption).
  rewrite iter_shr_1_div by (rewrite H0; lia). rewrite H0.
  assert (Hn : Zpos n < Zdigits2 m).
  { unfold fexp, prec in *. lia. }
  assert (Hq : 1 <= m / 2 ^ Zpos n).
  { apply Z.div_le_lower_bound; [apply Z.pow_pos_nonneg; lia|].
    rewrite Z.mul_1_r. apply Z.le_trans with (2 := Hlo).
    apply Z.pow_le_mono_r; lia. }
  split; [lia|].
  assert (Hq' : 0 < m / 2 ^ Zpos n) by lia.
  destruct (Zdigits2_bounds _ Hq') as [_ Hd'].
  unfold fexp, prec in *. lia.
Qed.

Lemma Zdigits2_mono (a b : Z) : 0 < a -> a <= b -> Zdigits2 a <= Zdigits2 b.
Proof.
  intros Ha Hab.
  destruct (Zdigits2_bounds a Ha) as [[Hlo _] Hda].
  destruct (Zdigits2_bounds b ltac:(lia)) as [[_ Hhi] Hdb].
  assert (2 ^ (Zdigits2 a - 1) < 2 ^ Zdigits2 b) by lia.
  apply Z.pow_lt_mono_r_iff in H; lia.
Qed.

Lemma round_nearest_even_nonvanishing (m e : Z) (l : location) :
  nonvanishing m e -> nonvanishing (round_nearest_even m l) e.
Proof.
  intros [Hm He].
  assert (H : m <= round_nearest_even m l).
  { destruct l as [|[]]; simpl; try lia. destruct (Z.even m); lia. }
  split; [lia|].
  pose proof (Zdigits2_mono _ _ Hm H). lia.
Qed.

Lemma binary_round_aux_nonzero (sx : bool) (mx ex : Z) (lx : location) :
  nonvanishing mx ex ->
  is_zero (binary_round_aux prec emax sx mx ex lx) = false.
Proof.
  intros H. unfold binary_round_aux.
  pose proof (shr_fexp_nonvanishing mx ex lx H) as H1.
  destruct (shr_fexp prec emax mx ex lx) as [mrs' e'].
  simpl fst in H1; simpl snd in H1.
  pose proof (round_nearest_even_nonvanishing
                _ _ (loc_of_shr_record mrs') H1) as H1'.
  pose proof (shr_fexp_nonvanishing _ _ loc_Exact H1') as H2.
  destruct (shr_fexp prec emax _ e' loc_Exact) as [mrs'' e''].
  simpl fst in H2. destruct H2 as [H2 _].
  destruct (shr_m mrs'') as [|p|p]; try lia.
  destruct (e'' <=? emax - prec); reflexivity.
Qed.

Lemma float_of_Z_sign (z : Z) :
  z <> 0 ->
  is_nan (float_of_Z z) = false /\ is_zero (float_of_Z z) = false
  /\ sign_bit (float_of_Z z) = (z <? 0).
Proof.
  intros Hz. unfold float_of_Z, binary_normalize.
  assert (R : forall s p,
             is_nan (binary_round prec emax s p 0) = false
             /\ is_zero (binary_round prec emax s p 0) = false
             /\ sign_bit (binary_round prec emax s p 0) = s).
  { intros s p. destruct (binary_round_sign s p 0) as [Hn Hs].
    split; [exact Hn|]. split; [|exact Hs].
    unfold binary_round.
    destruct (shl_align p 0 (fexp prec emax (Zpos (digits2_pos p) + 0)))
      as [mz ez] eqn:E.
    apply binary_round_aux_nonzero. split; [lia|].
    unfold shl_align in E.
    destruct (fexp prec emax (Zpos (digits2_pos p) + 0) - 0) as [|k|k] eqn:Ek;
      injection E as <- <-; simpl Zdigits2.
    - unfold emin, prec, emax. lia.
    - unfold emin, prec, emax. lia.
    - unfold fexp, emin, prec, emax in *. lia. }
  destruct z as [|p|p]; [contradiction | apply R | apply R].
Qed.

Lemma flt0_finite (s : bool) (m : positive) (e : Z) :
  flt0 (S754_finite s m e) = s.
Proof. destruct s; reflexivity. Qed.

(** *** The float remainder takes the sign of the divisor *)

Lemma float_rem_sign (x y : float) :
  is_finite x = true -> is_finite y = true -> is_zero y = false ->
  exists r, float_rem x y = Ok r
            /\ is_nan r = false /\ sign_bit r = sign_bit y.
Proof.
  intros Hx Hy Hz.
  destruct y as [sy|sy| |sy my ey]; try discriminate.
  destruct x as [sx|sx| |sx mx ex]; try discriminate.
  - exists (S754_zero sy). repeat split.
  - unfold float_rem. simpl is_zero. cbv iota.
    unfold fmod.
    set (e := Z.min ex ey).
    set (X := Zpos mx * 2 ^ (ex - e)).
    set (Y := Zpos my * 2 ^ (ey - e)).
    assert (HY : 0 < Y).
    { unfold Y. apply Z.mul_pos_pos; [lia|].
      apply Z.pow_pos_nonneg; unfold e; lia. }
    pose proof (Z.mod_pos_bound X Y HY) as HR.
    destruct (X mod Y) as [|r|r] eqn:ER; [| | lia].
    + exists (S754_zero sy). repeat split.
    + replace (fnonzero (S754_finite sx r e)) with true
        by (destruct sx; reflexivity).
      rewrite !flt0_finite.
      destruct (xorb sy sx) eqn:Exor.
      * eexists. split; [reflexivity|].
        unfold fadd, SFadd.
        replace (Z.min e ey) with e by (unfold e; lia).
        set (S := cond_Zopp sx (Zpos (fst (shl_align r e e)))
                  + cond_Zopp sy (Zpos (fst (shl_align my ey e)))).
        assert (HS : S = cond_Zopp sx (Zpos r) + cond_Zopp sy Y).
        { unfold S. rewrite !shl_align_value by (unfold e; lia).
          replace (e - e) with 0 by lia. fold Y.
          f_equal. f_equal. simpl. lia. }
        unfold binary_normalize.
        clearbody S.
        destruct sy, sx; try discriminate Exor; unfold cond_Zopp in HS;
          destruct S as [|p|p]; try lia; apply binary_round_sign.
      * eexists. split; [reflexivity|].
        replace sy with sx by (destruct sx, sy; try reflexivity; discriminate).
        apply binary_round_sign.
Qed.

(** *** The float remainder is the rounded remainder of the floor
    division *)

Lemma binary_normalize_signed (s : bool) (m : positive) (e : Z) (z : bool) :
  binary_normalize prec emax (cond_Zopp s (Zpos m)) e z
  = binary_round prec emax s m e.
Proof. destruct s; reflexivity. Qed.

Lemma float_rem_exact (x w : float) :
  is_finite x = true -> is_finite w = true -> is_zero w = false ->
  float_rem x w
  = Ok (let e := Z.min (Spec.exponent x) (Spec.exponent w) in
        let r := Spec.on_exponent e x mod Spec.on_exponent e w in
        if r =? 0 then S754_zero (sign_bit w)
        else binary_normalize prec emax r e false).
Proof.
  intros Hx Hw Hz.
  destruct w as [sw|sw| |sw mw ew]; try discriminate.
  destruct x as [sx|sx| |sx mx ex]; try discriminate.
  - cbv zeta. simpl Spec.on_exponent at 1. rewrite Zmod_0_l. reflexivity.
  - unfold float_rem. simpl is_zero. cbv iota. f_equal. cbv zeta.
    simpl Spec.exponent. simpl sign_bit. unfold Spec.on_exponent, fmod.
    set (e := Z.min ex ew).
    set (X := Zpos mx * 2 ^ (ex - e)).
    set (Y := Zpos mw * 2 ^ (ew - e)).
    assert (HY : 0 < Y).
    { unfold Y. apply Z.mul_pos_pos; [lia|].
      apply Z.pow_pos_nonneg; unfold e; lia. }
    assert (HX : 0 < X).
    { unfold X. apply Z.mul_pos_pos; [lia|].
      apply Z.pow_pos_nonneg; unfold e; lia. }
    pose proof (Z.mod_pos_bound X Y HY) as HR.
    pose proof (Z.div_mod X Y ltac:(lia)) as HD.
    assert (HM : cond_Zopp sx X mod cond_Zopp sw Y
                 = if X mod Y =? 0 then 0
                   else if xorb sw sx
                        then cond_Zopp sx (X mod Y) + cond_Zopp sw Y
                        else cond_Zopp sx (X mod Y)).
    { destruct (Z.eqb_spec (X mod Y) 0) as [E0 | E0].
      - destruct sx, sw; simpl cond_Zopp.
        + rewrite Z.mod_opp_opp by lia. lia.
        + apply Z.mod_opp_l_z; lia.
        + apply Z.mod_opp_r_z; lia.
        + exact E0.
      - destruct sx, sw; simpl cond_Zopp; simpl xorb; cbv iota.
        + apply Z.mod_opp_opp. lia.
        + rewrite Z.mod_opp_l_nz by lia. lia.
        + rewrite Z.mod_opp_r_nz by lia. lia.
        + reflexivity. }
    rewrite HM. clear HM.
    destruct (X mod Y) as [|r|r] eqn:ER; [reflexivity | | lia].
    replace (fnonzero (S754_finite sx r e)) with true
      by (destruct sx; reflexivity).
    rewrite !flt0_finite.
    change (Zpos r =? 0) with false. cbv iota.
    destruct (xorb sw sx) eqn:Exor.
    + replace (cond_Zopp sx (Zpos r) + cond_Zopp sw Y =? 0) with false
        by (symmetry; apply Z.eqb_neq;
            destruct sx, sw; try discriminate Exor; simpl cond_Zopp; lia).
      unfold fadd, SFadd.
      replace (Z.min e ew) with e by (unfold e; lia).
      rewrite !shl_align_value by (unfold e; lia).
      replace (e - e) with 0 by lia. fold Y.
      rewrite Z.pow_0_r, Z.mul_1_r. reflexivity.
    + replace (cond_Zopp sx (Zpos r) =? 0) with false
        by (destruct sx; reflexivity).
      unfold fnorm. symmetry. apply binary_normalize_signed.
Qed.

(** *** The float quotient of a smaller by a larger number *)

Lemma fdiv_sign (sx sw : bool) (mx mw : positive) (ex ew : Z) :
  sign_bit (fdiv (S754_finite sx mx ex) (S754_finite sw mw ew)) = xorb sx sw.
Proof.
  unfold fdiv, SFdiv.
  destruct (SFdiv_core_binary prec emax (Zpos mx) ex (Zpos mw) ew)
    as [[mz ez] lz] eqn:E.
  apply binary_round_aux_sign.
  unfold SFdiv_core_binary in E.
  set (s := ex - ew - _) in E.
  set (m' := match s with
             | 0 => Zpos mx
             | Zpos _ => Z.shiftl (Zpos mx) s
             | Zneg _ => 0
             end) in E.
  assert (Hm : 0 <= m').
  { unfold m'. destruct s; try lia. apply Z.shiftl_nonneg. lia. }
  pose proof (Z.div_pos m' (Zpos mw) Hm ltac:(lia)) as Hq.
  unfold Z.div in Hq.
  destruct (Z.div_eucl m' (Zpos mw)) as [q r].
  injection E as <- _ _. exact Hq.
Qed.

Lemma float_floor_div_small (x w : float) :
  is_finite x = true -> is_finite w = true -> is_zero w = false ->
  Z.abs (Spec.on_exponent (Z.min (Spec.exponent x) (Spec.exponent w)) x)
  < Z.abs (Spec.on_exponent (Z.min (Spec.exponent x) (Spec.exponent w)) w) ->
  float_floor_div x w
  = Ok (if is_zero x then S754_zero (xorb (sign_bit x) (sign_bit w))
        else if xorb (sign_bit x) (sign_bit w) then fneg fone
             else S754_zero false).
Proof.
  intros Hx Hw Hz Hlt.
  destruct w as [sw|sw| |sw mw ew]; try discriminate.
  destruct x as [sx|sx| |sx mx ex]; try discriminate.
  - destruct sx, sw; reflexivity.
  - simpl Spec.exponent in Hlt. unfold Spec.on_exponent in Hlt.
    unfold float_floor_div. simpl is_zero. cbv iota. f_equal.
    change (sign_bit (S754_finite sx mx ex)) with sx.
    change (sign_bit (S754_finite sw mw ew)) with sw.
    unfold fmod.
    set (e := Z.min ex ew) in *.
    set (X := Zpos mx * 2 ^ (ex - e)) in *.
    set (Y := Zpos mw * 2 ^ (ew - e)) in *.
    assert (HY : 0 < Y).
    { unfold Y. apply Z.mul_pos_pos; [lia|].
      apply Z.pow_pos_nonneg; unfold e; lia. }
    assert (HX : 0 < X).
    { unfold X. apply Z.mul_pos_pos; [lia|].
      apply Z.pow_pos_nonneg; unfold e; lia. }
    assert (HXY : X < Y) by (destruct sx, sw; simpl cond_Zopp in Hlt; lia).
    rewrite (Z.mod_small X Y) by lia.
    destruct X as [|r|r] eqn:ER; try lia.
    assert (Hsub : fsub (S754_finite sx mx ex) (S754_finite sx r e)
                   = S754_zero false).
    { unfold fsub, SFsub.
      replace (Z.min ex e) with e by (unfold e; lia).
      rewrite !shl_align_value by (unfold e; lia).
      replace (e - e) with 0 by lia.
      replace (Zpos mx * 2 ^ (ex - e)) with (Zpos r) by (symmetry; exact ER).
      rewrite Z.pow_0_r, Z.mul_1_r, Z.sub_diag. reflexivity. }
    rewrite Hsub.
    replace (fnonzero (S754_finite sx r e)) with true
      by (destruct sx; reflexivity).
    rewrite !flt0_finite.
    change (fdiv (S754_zero false) (S754_finite sw mw ew))
      with (S754_zero sw).
    rewrite (fdiv_sign sx sw mx mw ex ew).
    destruct sx, sw; simpl xorb; cbv iota; try reflexivity;
      vm_compute; reflexivity.
Qed.

(** C4, as amended. For integer operands (Booleans included) with a
    non-zero divisor, [//] returns the floor [q] of the quotient and [%]
    the remainder [m] that goes with it: [l = q * r + m] with [m] zero or
    of the sign of the divisor and smaller than it in magnitude, so that
    [q] is the largest integer not above [l / r], for negative operands
    too; "-7 // 2" is -4 (truncation would give -3) and "-7 % 2" is 1.

    For finite floats and a non-zero divisor, [%] is the remainder of the
    floor division of the exact operands, rounded to the nearest float:
    it is zero with the sign of the divisor or carries that sign, and
    after rounding it can be the divisor itself ("-1e-20 % 1.0" is 1.0).
    [//] is computed in floating point from that remainder.  Where the
    magnitude of the dividend is below that of the divisor it is the
    floor: zero for operands of one sign, -1.0 (not zero) for operands of
    opposite signs; so it is on the examples, with negative divisors and
    with quotients the computation has to snap to an integer.  It is not
    the floor of the quotient for all operands. *)
Theorem floor_division_and_modulo :
  (forall (L : Libm) (depth : nat) (nl nr : expr) (l r : value) (x y : Z),
      _eval L depth nl = Ok l ->
      _eval L depth nr = Ok r ->
      int_value l = Some x -> int_value r = Some y ->
      y <> 0 ->
      exists q m,
        _eval L (S depth) (BinOp nl FloorDiv nr) = Ok (VInt q)
        /\ _eval L (S depth) (BinOp nl Mod nr) = Ok (VInt m)
        /\ x = q * y + m
        /\ (0 < y -> 0 <= m < y /\ q * y <= x < (q + 1) * y)
        /\ (y < 0 -> y < m <= 0 /\ (q + 1) * y < x <= q * y))
  /\ (forall (L : Libm) (x y : float),
        is_finite x = true -> is_finite y = true -> is_zero y = false ->
        exists m,
          mod_ L (VFloat x) (VFloat y) = Ok (VFloat m)
          /\ is_nan m = false /\ sign_bit m = sign_bit y)
  /\ (forall (L : Libm) (x w : float),
        is_finite x = true -> is_finite w = true -> is_zero w = false ->
        mod_ L (VFloat x) (VFloat w)
        = Ok (VFloat
                (let e := Z.min (Spec.exponent x) (Spec.exponent w) in
                 let r := Spec.on_exponent e x mod Spec.on_exponent e w in
                 if r =? 0 then S754_zero (sign_bit w)
                 else binary_normalize prec emax r e false)))
  /\ (forall (L : Libm) (x w : float),
        is_finite x = true -> is_finite w = true -> is_zero w = false ->
        Z.abs (Spec.on_exponent
                 (Z.min (Spec.exponent x) (Spec.exponent w)) x)
        < Z.abs (Spec.on_exponent
                   (Z.min (Spec.exponent x) (Spec.exponent w)) w) ->
        floordiv L (VFloat x) (VFloat w)
        = Ok (VFloat
                (if is_zero x
                 then S754_zero (xorb (sign_bit x) (sign_bit w))
                 else if xorb (sign_bit x) (sign_bit w) then fneg fone
                      else S754_zero false)))
  /\ (forall L : Libm,
        evaluate L RefParser.parse recursion_limit "-7 // 2" = Ok (VInt (-4))
        /\ evaluate L RefParser.parse recursion_limit "-7 % 2" = Ok (VInt 1)
        /\ Z.quot (-7) 2 = -3
        /\ Z.rem (-7) 2 = -1
        /\ evaluate L RefParser.parse recursion_limit "7 // -2" = Ok (VInt (-4))
        /\ evaluate L RefParser.parse recursion_limit "7 % -2" = Ok (VInt (-1))
        /\ evaluate L RefParser.parse recursion_limit "-7.5 // 2"
           = Ok (VFloat (float_of_Z (-4)))
        /\ evaluate L RefParser.parse recursion_limit "-7.5 % 2"
           = Ok (VFloat fhalf)
        /\ evaluate L RefParser.parse recursion_limit "7.5 % -2"
           = Ok (VFloat (fneg fhalf))
        /\ evaluate L RefParser.parse recursion_limit "7.5 // -2"
           = Ok (VFloat (float_of_Z (-4)))
        /\ evaluate L RefParser.parse recursion_limit "-7.5 // -2"
           = Ok (VFloat (float_of_Z 3))
        /\ evaluate L RefParser.parse recursion_limit "1.0 // 0.1"
           = Ok (VFloat (float_of_Z 9))
        /\ evaluate L RefParser.parse recursion_limit
                    "1.0322460676966275e+18 // 6.666504236826157e+16"
           = Ok (VFloat (float_of_Z 15))
        /\ evaluate L RefParser.parse recursion_limit
                    "-9662857940955.338 // -871.723847362699"
           = Ok (VFloat (float_of_Z 11084769529))
        /\ evaluate L RefParser.parse recursion_limit "-5.0 // 7.0"
           = Ok (VFloat (float_of_Z (-1)))
        /\ evaluate L RefParser.parse recursion_limit "5.0 // 7.0"
           = Ok (VFloat (S754_zero false))
        /\ evaluate L RefParser.parse recursion_limit "0.0 // -1.0"
           = Ok (VFloat (S754_zero true))
        /\ evaluate L RefParser.parse recursion_limit "-1e-20 % 1.0"
           = Ok (VFloat (float_of_Z 1))
        /\ evaluate L RefParser.parse recursion_limit "-1e-20 // 1.0"
           = Ok (VFloat (float_of_Z (-1)))).
Proof.
  split; [|split; [|split; [|split]]].
  - intros L depth nl nr l r x y Hl Hr Hx Hy Hnz.
    exists (x / y), (x mod y).
    assert (Hfd : floordiv L l r = Ok (VInt (x / y))
                  /\ mod_ L l r = Ok (VInt (x mod y))).
    { unfold floordiv, mod_, binop.
      destruct l as [a|a| | |]; try discriminate Hx;
        destruct r as [b|b| | |]; try discriminate Hy;
        simpl in Hx, Hy; injection Hx as <-; injection Hy as <-;
        simpl; (replace (_ =? 0) with false
                 by (symmetry; apply Z.eqb_neq; exact Hnz));
        split; reflexivity. }
    rewrite !_eval_BinOp, Hl, Hr. simpl bind.
    destruct Hfd as [-> ->].
    pose proof (Z.div_mod x y Hnz) as Hdm.
    split; [reflexivity|]. split; [reflexivity|].
    split; [lia|].
    split; intros Hs.
    + pose proof (Z.mod_pos_bound x y Hs). nia.
    + pose proof (Z.mod_neg_bound x y Hs). nia.
  - intros L x y Hx Hy Hz.
    destruct (float_rem_sign x y Hx Hy Hz) as (m & Hm & Hn & Hs).
    exists m. unfold mod_, binop. simpl. rewrite Hm. simpl. auto.
  - intros L x w Hx Hw Hz.
    change (mod_ L (VFloat x) (VFloat w))
      with (f <- float_rem x w ;; Ok (VFloat f)).
    rewrite (float_rem_exact x w Hx Hw Hz). reflexivity.
  - intros L x w Hx Hw Hz Hlt.
    change (floordiv L (VFloat x) (VFloat w))
      with (f <- float_floor_div x w ;; Ok (VFloat f)).
    rewrite (float_floor_div_small x w Hx Hw Hz Hlt). reflexivity.
  - intros L. repeat split; vm_compute; reflexivity.
Qed.

Lemma floor_division_and_modulo_witness :
  _eval libm_nan 999 (UnaryOp USub (Constant (CInt 7))) = Ok (VInt (-7))
  /\ _eval libm_nan 999 (Constant (CInt 2)) = Ok (VInt 2)
  /\ (exists q m,
        _eval libm_nan recursion_limit
              (BinOp (UnaryOp USub (Constant (CInt 7))) FloorDiv
                     (Constant (CInt 2))) = Ok (VInt q)
        /\ _eval libm_nan recursion_limit
                 (BinOp (UnaryOp USub (Constant (CInt 7))) Mod
                        (Constant (CInt 2))) = Ok (VInt m)
        /\ -7 = q * 2 + m /\ 0 <= m < 2)
  /\ (exists m,
        mod_ libm_nan (VFloat (float_of_Z (-7))) (VFloat (float_of_Z 2))
        = Ok (VFloat m)
        /\ sign_bit m = false)
  /\ mod_ libm_nan (VFloat (float_of_Z (-7))) (VFloat (float_of_Z 2))
     = Ok (VFloat (float_of_Z 1))
  /\ Z.abs (Spec.on_exponent
              (Z.min (Spec.exponent (float_of_Z (-5)))
                     (Spec.exponent (float_of_Z 7))) (float_of_Z (-5)))
     < Z.abs (Spec.on_exponent
                (Z.min (Spec.exponent (float_of_Z (-5)))
                       (Spec.exponent (float_of_Z 7))) (float_of_Z 7))
  /\ floordiv libm_nan (VFloat (float_of_Z (-5))) (VFloat (float_of_Z 7))
     = Ok (VFloat (float_of_Z (-1))).
Proof.
  assert (Hlt :
            Z.abs (Spec.on_exponent
                     (Z.min (Spec.exponent (float_of_Z (-5)))
                            (Spec.exponent (float_of_Z 7))) (float_of_Z (-5)))
            < Z.abs (Spec.on_exponent
                       (Z.min (Spec.exponent (float_of_Z (-5)))
                              (Spec.exponent (float_of_Z 7)))
                       (float_of_Z 7))) by reflexivity.
  destruct floor_division_and_modulo as (T1 & T2 & T3 & T4 & _).
  split; [reflexivity|]. split; [reflexivity|].
  split.
  { destruct (T1 libm_nan 999%nat
                (UnaryOp USub (Constant (CInt 7))) (Constant (CInt 2))
                (VInt (-7)) (VInt 2) (-7) 2
                eq_refl eq_refl eq_refl eq_refl)
      as (q & m & H1 & H2 & H3 & H4 & _); [lia|].
    exists q, m. repeat split; try assumption; apply H4; lia. }
  split.
  { destruct (T2 libm_nan (float_of_Z (-7)) (float_of_Z 2)
                eq_refl eq_refl eq_refl) as (m & H1 & _ & H2).
    exists m. split; assumption. }
  split.
  { exact (T3 libm_nan (float_of_Z (-7)) (float_of_Z 2)
              eq_refl eq_refl eq_refl). }
  split; [exact Hlt|].
  exact (T4 libm_nan (float_of_Z (-5)) (float_of_Z 7)
            eq_refl eq_refl eq_refl Hlt).
Defined.

(** The claim C4 as written fails on floats.  The float quotient need
    not be the floor: "256.8343333946907 // 3.201852419075052e-14" is
    8021429465786708.0, which is above the exact quotient of the two
    operands, whose floor is 8021429465786707.  And the float remainder
    need not go with the quotient: "-1e-20 % 1.0" is 1.0, the divisor
    itself, beside the quotient -1.0. *)
Lemma float_floor_division_is_not_the_floor :
  let x := S754_finite false 4518277375672964 (-44) in
  let w := S754_finite false 5073537676103372 (-97) in
  let q := S754_finite false 8021429465786708 0 in
  let tiny := S754_finite true 6646139978924579 (-119) in
  RefParser.parse (sanitize "256.8343333946907 // 3.201852419075052e-14")
  = Parsed (BinOp (Constant (CFloat x)) FloorDiv (Constant (CFloat w)))
  /\ evaluate libm_nan RefParser.parse recursion_limit
              "256.8343333946907 // 3.201852419075052e-14"
     = Ok (VFloat q)
  /\ Spec.is_floor_of_quotient q x w = false
  /\ Spec.units x < (Spec.units q / 2 ^ 1074) * Spec.units w
  /\ Spec.units x / Spec.units w = 8021429465786707
  /\ RefParser.parse (sanitize "-1e-20 % 1.0")
     = Parsed (BinOp (UnaryOp USub (Constant (CFloat (fneg tiny)))) Mod
                     (Constant (CFloat fone)))
  /\ evaluate libm_nan RefParser.parse recursion_limit "-1e-20 % 1.0"
     = Ok (VFloat fone)
  /\ evaluate libm_nan RefParser.parse recursion_limit "-1e-20 // 1.0"
     = Ok (VFloat (fneg fone))
  /\ Spec.is_remainder_of fone (fneg fone) tiny fone = false.
Proof.
  cbv zeta. repeat split; vm_compute; reflexivity.
Qed.

(** ** C9: calls *)

Lemma mapM_length {A B} (f : A -> result B) (l : list A) (bs : list B) :
  mapM f l = Ok bs -> List.length bs = List.length l.
Proof.
  revert bs; induction l as [|a l IH]; simpl; intros bs H.
  - injection H as <-. reflexivity.
  - destruct (f a) as [b|e]; [|discriminate H]. simpl in H.
    destruct (mapM f l) as [bs'|e]; [|discriminate H]. simpl in H.
    injection H as <-. simpl. f_equal. apply IH. reflexivity.
Qed.

Lemma call_builtin_arity (L : Libm) (b : builtin) (vs : list value) :
  Spec.accepts b (List.length vs) = false ->
  call_builtin L b vs = Err TypeError.
Proof.
  destruct b; destruct vs as [|v1 [|v2 [|v3 vs]]]; simpl;
    try discriminate; reflexivity.
Qed.

Lemma sqrt_domain (L : Libm) (v : value) (x : float) :
  float_arg v = Ok x -> Spec.negative x = true ->
  call_builtin L Bsqrt [v] = Err (ValueError "math domain error").
Proof.
  intros Hv Hx. simpl. unfold math_1. rewrite Hv. simpl.
  destruct x as [s|s| |s m e]; try discriminate Hx;
    destruct s; try discriminate Hx; reflexivity.
Qed.

Lemma sqrt_negative_int (L : Libm) (z : Z) :
  z < 0 ->
  call_builtin L Bsqrt [VInt z] = Err (ValueError "math domain error")
  \/ (call_builtin L Bsqrt [VInt z] = Err OverflowError
      /\ is_inf (float_of_Z z) = true).
Proof.
  intros Hz.
  destruct (float_of_Z_sign z ltac:(lia)) as (Hn & Hzero & Hs).
  destruct (is_inf (float_of_Z z)) eqn:Hi.
  - right. split; [|reflexivity].
    simpl. unfold math_1, float_arg, int_to_float. rewrite Hi. reflexivity.
  - left. apply sqrt_domain with (x := float_of_Z z).
    + unfold float_arg, int_to_float. rewrite Hi. reflexivity.
    + replace (z <? 0) with true in Hs by (symmetry; apply Z.ltb_lt; lia).
      destruct (float_of_Z z) as [s|s| |s m e]; try discriminate;
        simpl in Hs; subst s; reflexivity.
Qed.

Lemma loghelper_domain (clog : float -> float) (v : value) :
  Spec.nonpositive v = true ->
  loghelper clog v = Err (ValueError "math domain error").
Proof.
  intros H. destruct v as [z|b|f| |]; try discriminate H; simpl in H.
  - unfold loghelper. simpl. rewrite H. reflexivity.
  - destruct b; try discriminate H. reflexivity.
  - destruct f as [s|s| |s m e]; try discriminate H;
      try (destruct s; try discriminate H); reflexivity.
Qed.

(** C9, as amended. For every Call node: a call whose target is not a
    name of the registry table fails with 'Function not allowed', the
    [FunctionNotAllowedError] kind; a domain error of a registered
    function (the square root of a negative number, the logarithm of a
    number that is zero or negative) is 'math domain error', of the
    [ArithmeticError] kind (the square root of a negative integer too
    large for a float fails in the conversion, with [OverflowError], of
    the same kind); a call of a registered function with a number
    of arguments it does not accept raises the host's [TypeError], which
    is none of the five kinds; "sqrt(16)" is 4.0 and "sqrt(-1)" is a
    domain error. *)
Theorem call_failures :
  (forall (L : Libm) (depth : nat) (func : expr) (args : list expr)
          (keywords : list (option str * expr)),
      (forall id, func = Name id -> ~ In id (map fst allowed_names)) ->
      _eval L (S depth) (Call func args keywords)
      = Err (ValueError "Function not allowed"))
  /\ Spec.kind_of (ValueError "Function not allowed")
     = Some Spec.FunctionNotAllowedError
  /\ (forall (L : Libm) (v : value) (x : float),
        float_arg v = Ok x -> Spec.negative x = true ->
        call_builtin L Bsqrt [v] = Err (ValueError "math domain error"))
  /\ (forall (L : Libm) (z : Z),
        z < 0 ->
        exists e,
          call_builtin L Bsqrt [VInt z] = Err e
          /\ Spec.kind_of e = Some Spec.ArithmeticError)
  /\ (forall (L : Libm) (v : value),
        Spec.nonpositive v = true ->
        call_builtin L Blog [v] = Err (ValueError "math domain error")
        /\ call_builtin L Blog10 [v] = Err (ValueError "math domain error"))
  /\ Spec.kind_of (ValueError "math domain error") = Some Spec.ArithmeticError
  /\ (forall (L : Libm) (depth : nat) (id : str) (b : builtin)
             (args : list expr) (keywords : list (option str * expr))
             (vs : list value),
        In (id, b) Spec.functions ->
        mapM (_eval L depth) args = Ok vs ->
        Spec.accepts b (List.length args) = false ->
        _eval L (S depth) (Call (Name id) args keywords) = Err TypeError)
  /\ Spec.kind_of TypeError = None
  /\ (forall L : Libm,
        evaluate L RefParser.parse recursion_limit "sqrt(16)"
        = Ok (VFloat (float_of_Z 4))
        /\ evaluate L RefParser.parse recursion_limit "sqrt(-1)"
           = Err (ValueError "math domain error")
        /\ evaluate L RefParser.parse recursion_limit "log(0)"
           = Err (ValueError "math domain error")
        /\ evaluate L RefParser.parse recursion_limit "foo(16)"
           = Err (ValueError "Function not allowed")
        /\ evaluate L RefParser.parse recursion_limit "sqrt(1, 2)"
           = Err TypeError
        /\ evaluate L RefParser.parse recursion_limit "sqrt()"
           = Err TypeError).
Proof.
  split.
  { intros L depth func args keywords H. rewrite _eval_Call.
    destruct func; try reflexivity.
    rewrite (lookup_not_in _ _ (H _ eq_refl)). reflexivity. }
  split; [reflexivity|].
  split; [exact sqrt_domain|].
  split.
  { intros L z Hz.
    destruct (sqrt_negative_int L z Hz) as [H | [H _]]; rewrite H;
      eexists; split; reflexivity. }
  split.
  { intros L v H. simpl. rewrite !(loghelper_domain _ v H). auto. }
  split; [reflexivity|].
  split.
  { intros L depth id b args keywords vs Hin Hvs Hn.
    rewrite _eval_Call.
    assert (Hl : lookup id allowed_names = Some (VBuiltin b)).
    { simpl in Hin.
      repeat (destruct Hin as [Hin | Hin];
              [injection Hin as <- <-; reflexivity|]).
      destruct Hin. }
    rewrite Hl, Hvs. simpl. apply call_builtin_arity.
    rewrite (mapM_length _ _ _ Hvs). exact Hn. }
  split; [reflexivity|].
  intros L. repeat split; vm_compute; reflexivity.
Qed.

Lemma call_failures_witness :
  _eval libm_nan recursion_limit (Call (Name "foo") [Constant (CInt 16)] [])
  = Err (ValueError "Function not allowed")
  /\ float_arg (VInt (-1)) = Ok (float_of_Z (-1))
  /\ call_builtin libm_nan Bsqrt [VInt (-1)]
     = Err (ValueError "math domain error")
  /\ call_builtin libm_nan Blog [VFloat (S754_zero false)]
     = Err (ValueError "math domain error")
  /\ _eval libm_nan recursion_limit
           (Call (Name "sqrt") [Constant (CInt 1); Constant (CInt 2)] [])
     = Err TypeError.
Proof.
  destruct call_failures as (T1 & _ & T2 & _ & T3 & _ & T4 & _).
  split.
  { apply (T1 libm_nan 999%nat (Name "foo")).
    intros id [= <-]. simpl. intros H.
    repeat (destruct H as [H | H]; [discriminate H|]). exact H. }
  split; [reflexivity|].
  split; [exact (T2 libm_nan (VInt (-1)) (float_of_Z (-1)) eq_refl eq_refl)|].
  split; [exact (proj1 (T3 libm_nan (VFloat (S754_zero false)) eq_refl))|].
  apply (T4 libm_nan 999%nat (str_of_string "sqrt") Bsqrt
            [Constant (CInt 1); Constant (CInt 2)] []
            [VInt 1; VInt 2]).
  - left; reflexivity.
  - reflexivity.
  - reflexivity.
Defined.

(** A registered constant passes the test of line 124 too: calling it
    evaluates the arguments and then fails in the host, a float not being
    callable. *)
Remark calling_a_constant (L : Libm) (depth : nat) (id : str) (c : float)
       (args : list expr) (keywords : list (option str * expr))
       (vs : list value) :
  In (id, c) Spec.constants ->
  mapM (_eval L depth) args = Ok vs ->
  _eval L (S depth) (Call (Name id) args keywords) = Err TypeError.
Proof.
  intros Hin Hvs. rewrite _eval_Call.
  assert (Hl : lookup id allowed_names = Some (VFloat c)).
  { destruct Hin as [H | [H | []]]; injection H as <- <-; reflexivity. }
  rewrite Hl, Hvs. reflexivity.
Qed.

(** The claim C9 as written fails on an arity mismatch: "sqrt(1, 2)"
    raises [TypeError], not an error of the [ArithmeticError] kind. *)
Lemma arity_mismatch_is_not_an_arithmetic_error :
  evaluate libm_nan RefParser.parse recursion_limit "sqrt(1, 2)"
  = Err TypeError
  /\ ~ (exists e,
         evaluate libm_nan RefParser.parse recursion_limit "sqrt(1, 2)" = Err e
         /\ Spec.kind_of e = Some Spec.ArithmeticError).
Proof.
  assert (H : evaluate libm_nan RefParser.parse recursion_limit "sqrt(1, 2)"
              = Err TypeError) by (vm_compute; reflexivity).
  split; [exact H|].
  intros (e & He & Hk). rewrite H in He. injection He as <-.
  discriminate Hk.
Qed.

(** ** C2: what an evaluation can end in *)

(** *** The memory of the host *)

Lemma log2_pow10 (k : Z) : 0 <= k -> 3 * k <= Z.log2 (10 ^ k).
Proof.
  intros Hk.
  assert (Hp : 0 < 10 ^ k) by (apply Z.pow_pos_nonneg; lia).
  apply Z.log2_le_pow2; [exact Hp|].
  rewrite Z.pow_mul_r by lia. apply Z.pow_le_mono_l. lia.
Qed.

Lemma int_round_fits (L : Libm) (z k : Z) :
  0 < k -> Z.log2 (10 ^ k) < int_max_bits L ->
  int_round L z (- k) = Ok (div_near z (10 ^ k) * 10 ^ k).
Proof.
  intros Hk Hm. unfold int_round, int_pow10.
  replace (0 <=? - k) with false by (symmetry; apply Z.leb_gt; lia).
  rewrite Z.opp_involutive.
  replace (int_max_bits L <=? Z.log2 (10 ^ k)) with false
    by (symmetry; apply Z.leb_gt; exact Hm).
  reflexivity.
Qed.

Lemma int_round_memory (L : Libm) (z k : Z) :
  0 < k -> int_max_bits L <= Z.log2 (10 ^ k) ->
  int_round L z (- k) = Err MemoryError.
Proof.
  intros Hk Hm. unfold int_round, int_pow10.
  replace (0 <=? - k) with false by (symmetry; apply Z.leb_gt; lia).
  rewrite Z.opp_involutive.
  replace (int_max_bits L <=? Z.log2 (10 ^ k)) with true
    by (symmetry; apply Z.leb_le; exact Hm).
  reflexivity.
Qed.

Lemma round_memory (L : Libm) (z k : Z) :
  0 < k -> int_max_bits L <= 3 * k ->
  call_builtin L Bround [VInt z; VInt (- k)] = Err MemoryError.
Proof.
  intros Hk Hm.
  change (call_builtin L Bround [VInt z; VInt (- k)])
    with (r <- int_round L z (- k) ;; Ok (VInt r)).
  rewrite int_round_memory; [reflexivity | exact Hk |].
  pose proof (log2_pow10 k ltac:(lia)). lia.
Qed.


Section Outcomes.
Import Spec.
Variable L : Libm.

Lemma yields_bind {A B} (P : exn -> Prop) (Q' : A -> Prop) (Q : B -> Prop)
      (c : result A) (k : A -> result B) :
  yields P Q' c -> (forall a, Q' a -> yields P Q (k a)) ->
  yields P Q (bind c k).
Proof. destruct c; simpl; auto. Qed.

Lemma yields_weaken {A} (P P' : exn -> Prop) (Q Q' : A -> Prop)
      (r : result A) :
  yields P Q r -> (forall e, P e -> P' e) -> (forall a, Q a -> Q' a) ->
  yields P' Q' r.
Proof. destruct r; simpl; auto. Qed.

Lemma yields_mapM {A B} (P : exn -> Prop) (f : A -> result B) (l : list A) :
  (forall a, yields P any (f a)) -> yields P any (mapM f l).
Proof.
  intros H. induction l as [|a l IH]; simpl; [exact I|].
  apply yields_bind with (Q' := any); [apply H|]. intros b _.
  apply yields_bind with (Q' := any); [exact IH|]. intros bs _. exact I.
Qed.

Lemma host_failure_known (e : exn) : host_failure e -> known_failure e.
Proof.
  unfold host_failure, known_failure, untyped_failure.
  intros [-> | [-> | [-> | [-> | [-> | ->]]]]];
    try (left; eexists; reflexivity); right; auto 10.
Qed.

Ltac host := unfold host_failure; auto 10.

Lemma of_outcome_host (o : outcome) :
  yields host_failure number (of_outcome o).
Proof. destruct o; simpl; try reflexivity; host. Qed.

Lemma int_to_float_host (z : Z) : yields host_failure any (int_to_float z).
Proof. unfold int_to_float. destruct (is_inf _); simpl; [host | exact I]. Qed.

Lemma to_num_host (v : value) : yields host_failure any (to_num v).
Proof. destruct v; simpl; try exact I; host. Qed.

Lemma num_to_float_host (n : num) : yields host_failure any (num_to_float n).
Proof. destruct n; simpl; try exact I; [apply int_to_float_host | host]. Qed.

Lemma num_to_complex_host (n : num) :
  yields host_failure any (num_to_complex n).
Proof.
  destruct n; simpl; try exact I.
  apply yields_bind with (Q' := any); [apply int_to_float_host|].
  intros; exact I.
Qed.

Lemma int_op_host (op : arith) (x y : Z) :
  yields host_failure number (int_op L op x y).
Proof.
  destruct op; simpl; try reflexivity.
  - unfold int_true_divide.
    destruct (y =? 0); [simpl; host|].
    destruct (x =? 0); [reflexivity|].
    destruct (is_inf _); simpl; [host | reflexivity].
  - destruct (y =? 0); simpl; [host | reflexivity].
  - destruct (y =? 0); simpl; [host | reflexivity].
  - destruct (0 <=? y); [reflexivity|].
    apply yields_bind with (Q' := any); [apply int_to_float_host|].
    intros a _.
    apply yields_bind with (Q' := any); [apply int_to_float_host|].
    intros b _. apply of_outcome_host.
Qed.

Lemma float_op_host (op : arith) (x y : float) :
  yields host_failure number (float_op L op x y).
Proof.
  destruct op; simpl; try reflexivity.
  - destruct (is_zero y); simpl; [host | reflexivity].
  - unfold float_floor_div. destruct (is_zero y); simpl; [host | reflexivity].
  - unfold float_rem. destruct (is_zero y); simpl; [host | reflexivity].
  - apply of_outcome_host.
Qed.

Lemma complex_arith_host (op : arith) (x y : float * float) :
  yields host_failure number (complex_arith L op x y).
Proof.
  destruct op; simpl; try apply of_outcome_host; try host.
  destruct (is_zero (fst y) && is_zero (snd y)); simpl;
    [host | apply of_outcome_host].
Qed.

Lemma binop_host (op : arith) (l r : value) :
  yields host_failure number (binop L op l r).
Proof.
  unfold binop.
  apply yields_bind with (Q' := any); [apply to_num_host|]. intros a _.
  apply yields_bind with (Q' := any); [apply to_num_host|]. intros b _.
  assert (Hf : yields host_failure number
                 (x <- num_to_float a ;; y <- num_to_float b ;;
                  float_op L op x y)).
  { apply yields_bind with (Q' := any); [apply num_to_float_host|].
    intros x _.
    apply yields_bind with (Q' := any); [apply num_to_float_host|].
    intros y _. apply float_op_host. }
  assert (Hc : yields host_failure number
                 (x <- num_to_complex a ;; y <- num_to_complex b ;;
                  complex_arith L op x y)).
  { apply yields_bind with (Q' := any); [apply num_to_complex_host|].
    intros x _.
    apply yields_bind with (Q' := any); [apply num_to_complex_host|].
    intros y _. apply complex_arith_host. }
  destruct a, b; try exact Hf; try exact Hc. apply int_op_host.
Qed.

Lemma pos_host (v : value) : yields host_failure number (pos v).
Proof. destruct v; simpl; try reflexivity; host. Qed.

Lemma neg_host (v : value) : yields host_failure number (neg v).
Proof. destruct v; simpl; try reflexivity; host. Qed.

Lemma abs_host (v : value) : yields host_failure number (abs L v).
Proof.
  destruct v; simpl; try reflexivity; try host. apply of_outcome_host.
Qed.

Lemma gt_host (a b : value) : yields host_failure any (gt a b).
Proof.
  unfold gt.
  apply yields_bind with (Q' := any); [apply to_num_host|]. intros x _.
  apply yields_bind with (Q' := any); [apply to_num_host|]. intros y _.
  destruct x, y; simpl; try exact I; host.
Qed.

Lemma math_1_host (func : float -> float) (v : value) :
  yields host_failure number (math_1 func v).
Proof.
  unfold math_1.
  apply yields_bind with (Q' := any).
  - destruct v; simpl; try exact I; try host. apply int_to_float_host.
  - intros x _.
    destruct (is_nan (func x) && negb (is_nan x)); [simpl; host|].
    destruct (is_inf (func x) && is_finite x); simpl; [host | reflexivity].
Qed.

Lemma loghelper_host (clog : float -> float) (v : value) :
  yields host_failure number (loghelper clog v).
Proof.
  unfold loghelper. destruct (int_value v) as [z|]; [|apply math_1_host].
  destruct (z <=? 0); [simpl; host|].
  destruct (is_inf (float_of_Z z)); [|reflexivity].
  destruct (long_frexp z). reflexivity.
Qed.

Lemma call_builtin_host (b : builtin) (vs : list value) :
  yields host_failure number (call_builtin L b vs).
Proof.
  assert (HT : yields host_failure number (Err TypeError)) by (simpl; host).
  destruct b; destruct vs as [|v1 [|v2 [|v3 vs]]]; simpl call_builtin;
    try exact HT; try apply math_1_host; try apply loghelper_host;
    try apply abs_host.
  - apply yields_bind with (Q' := any);
      [eapply yields_weaken; [apply loghelper_host | auto | intros; exact I]|].
    intros num _.
    apply yields_bind with (Q' := any);
      [eapply yields_weaken; [apply loghelper_host | auto | intros; exact I]|].
    intros den _. apply binop_host.
  - destruct v1 as [z|a|f| |]; simpl; try reflexivity; try host.
    destruct f as [s|s| |s m e]; simpl; try reflexivity; try host.
    destruct (0 <=? e); reflexivity.
  - assert (HR : forall z k,
               yields host_failure number
                      (r <- int_round L z k ;; Ok (VInt r))).
    { intros z k. unfold int_round, int_pow10.
      destruct (0 <=? k); [reflexivity|].
      destruct (int_max_bits L <=? _); simpl; [host | reflexivity]. }
    unfold round2.
    destruct v1 as [z|a|f| |]; destruct (int_value v2); simpl;
      try apply HR; try reflexivity; try host.
    apply of_outcome_host.
Qed.

Lemma call_host (f : value) (vs : list value) :
  yields host_failure number (call L f vs).
Proof.
  destruct f; simpl; try host. apply call_builtin_host.
Qed.

(** Every way an evaluation of a tree can end. *)
Lemma _eval_outcome (depth : nat) :
  forall node,
    yields known_failure
           (fun v => number v \/ exists id, node = Name id)
           (_eval L depth node).
Proof.
  assert (K : forall msg k, kind_of (ValueError msg) = Some k ->
                            known_failure (ValueError msg))
    by (intros msg k H; left; exists k; exact H).
  assert (HW : forall (r : result value) (Q : value -> Prop),
             yields host_failure number r ->
             (forall v, number v -> Q v) -> yields known_failure Q r).
  { intros r Q H HQ. eapply yields_weaken;
      [exact H | exact host_failure_known | exact HQ]. }
  induction depth as [|depth IH]; intros node.
  { simpl. right. unfold untyped_failure. auto. }
  assert (IH' : forall n, yields known_failure any (_eval L depth n)).
  { intros n. eapply yields_weaken; [apply IH | auto | intros; exact I]. }
  destruct (isinstance node allowed_nodes) eqn:Hi;
    [| rewrite (_eval_disallowed L depth node Hi);
       apply (K _ DisallowedNodeError); reflexivity].
  destruct node as [c|op operand|l op r|func args keywords|id|elts|elts| | | |];
    try discriminate Hi.
  - rewrite _eval_Constant.
    destruct c; simpl; try (left; reflexivity);
      apply (K _ DisallowedNodeError); reflexivity.
  - rewrite _eval_UnaryOp.
    apply yields_bind with (Q' := any); [apply IH'|]. intros v _.
    destruct op; try (apply HW; [apply pos_host || apply neg_host | auto]);
      apply (K _ DisallowedNodeError); reflexivity.
  - rewrite _eval_BinOp.
    apply yields_bind with (Q' := any); [apply IH'|]. intros x _.
    apply yields_bind with (Q' := any); [apply IH'|]. intros y _.
    destruct op;
      try (apply HW; [apply binop_host | auto]);
      try (apply (K _ DisallowedNodeError); reflexivity).
    apply yields_bind with (Q' := any);
      [apply HW; [apply abs_host | intros; exact I]|]. intros al _.
    apply yields_bind with (Q' := any);
      [eapply yields_weaken;
       [apply gt_host | exact host_failure_known | auto]|].
    intros [|] _; [apply (K _ ArithmeticError); reflexivity|].
    apply yields_bind with (Q' := any);
      [apply HW; [apply abs_host | intros; exact I]|]. intros ar _.
    apply yields_bind with (Q' := any);
      [eapply yields_weaken;
       [apply gt_host | exact host_failure_known | auto]|].
    intros [|] _; [apply (K _ ArithmeticError); reflexivity|].
    apply HW; [apply binop_host | auto].
  - rewrite _eval_Call.
    destruct func;
      try (apply (K _ FunctionNotAllowedError); reflexivity).
    destruct (lookup id allowed_names) as [f|];
      [| apply (K _ FunctionNotAllowedError); reflexivity].
    apply yields_bind with (Q' := any); [apply yields_mapM, IH'|].
    intros vs _. apply HW; [apply call_host | auto].
  - rewrite _eval_Name.
    destruct (lookup id allowed_names);
      [simpl; right; eexists; reflexivity
      | apply (K _ UnknownIdentifierError); reflexivity].
  - apply (K _ SyntaxError). reflexivity.
  - apply (K _ SyntaxError). reflexivity.
Qed.

End Outcomes.

Lemma negations_too_deep (L : Libm) (depth : nat) (operand : expr) :
  _eval L depth (negations depth operand) = Err RecursionError.
Proof.
  induction depth as [|depth IH]; [reflexivity|].
  change (negations (S depth) operand)
    with (UnaryOp USub (negations depth operand)).
  rewrite _eval_UnaryOp, IH. reflexivity.
Qed.

Lemma round_out_of_memory (L : Libm) (depth : nat) (z k : Z)
      (keywords : list (option str * expr)) :
  0 < k -> int_max_bits L <= 3 * k ->
  _eval L (S (S (S depth)))
        (Call (Name "round")
              [Constant (CInt z); UnaryOp USub (Constant (CInt k))]
              keywords)
  = Err MemoryError.
Proof.
  intros Hk Hm. rewrite _eval_Call.
  change (lookup (str_of_string "round") allowed_names)
    with (Some (VBuiltin Bround)).
  assert (Ha : mapM (_eval L (S (S depth)))
                    [Constant (CInt z); UnaryOp USub (Constant (CInt k))]
               = Ok [VInt z; VInt (- k)]) by reflexivity.
  rewrite Ha.
  change (call_builtin L Bround [VInt z; VInt (- k)] = Err MemoryError).
  exact (round_memory L z k Hk Hm).
Qed.

(** The text "round(1, -1000000**3)": the exponent guard lets the power
    through, and [round] then needs [10 ** 10**18]. *)
Lemma round_of_a_guarded_power (L : Libm) :
  int_max_bits L <= 3 * 1000000000000000000 ->
  evaluate L RefParser.parse recursion_limit "round(1, -1000000**3)"
  = Err MemoryError.
Proof.
  intros Hm.
  assert (Hp : RefParser.parse (sanitize "round(1, -1000000**3)")
               = Parsed
                   (Call (Name "round")
                      [Constant (CInt 1);
                       UnaryOp USub
                         (BinOp (Constant (CInt 1000000)) Pow
                                (Constant (CInt 3)))] []))
    by (vm_compute; reflexivity).
  unfold evaluate. rewrite Hp.
  change recursion_limit with (S 999). rewrite _eval_Call.
  change (lookup (str_of_string "round") allowed_names)
    with (Some (VBuiltin Bround)).
  assert (Ha : mapM (_eval L 999)
                    [Constant (CInt 1);
                     UnaryOp USub
                       (BinOp (Constant (CInt 1000000)) Pow
                              (Constant (CInt 3)))]
               = Ok [VInt 1; VInt (- 1000000000000000000)])
    by (vm_compute; reflexivity).
  rewrite Ha.
  change (call_builtin L Bround [VInt 1; VInt (- 1000000000000000000)]
          = Err MemoryError).
  assert (Hk : 0 < 1000000000000000000) by lia.
  exact (round_memory L 1 1000000000000000000 Hk Hm).
Qed.

(** C2, as amended. For every text, parser and recursion budget,
    [evaluate] terminates with a value or with an exception a caller can
    catch.  An exception is one of the taxonomy, or is raised by the
    parser, or is one of the following three, which belong to no kind of
    the taxonomy: [TypeError] (a call with a wrong number of arguments,
    among others), [RecursionError] (nesting deeper than the interpreter
    allows: whatever the budget, that many nested negations exceed it)
    and [MemoryError] ([round] to a huge negative number of digits, which
    the exponent guard does not prevent).  The value of an expression
    that is more than a bare name is a number. *)
Theorem evaluate_outcomes :
  (forall (L : Libm) (parse : parser) (depth : nat) (text : str),
      match evaluate L parse depth text with
      | Ok v =>
          (forall id, parse (sanitize text) <> Parsed (Name id)) ->
          is_number v = true
      | Err e =>
          (exists k, Spec.kind_of e = Some k)
          \/ Spec.untyped_failure e
          \/ parse (sanitize text) = Raised e
      end)
  /\ (forall (L : Libm) (parse : parser) (depth : nat) (text : str)
             (operand : expr),
        parse (sanitize text) = Parsed (negations depth operand) ->
        evaluate L parse depth text = Err RecursionError)
  /\ (forall (L : Libm) (parse : parser) (depth : nat) (text : str)
             (z k : Z) (keywords : list (option str * expr)),
        0 < k -> int_max_bits L <= 3 * k ->
        parse (sanitize text)
        = Parsed (Call (Name "round")
                       [Constant (CInt z); UnaryOp USub (Constant (CInt k))]
                       keywords) ->
        evaluate L parse (S (S (S depth))) text = Err MemoryError)
  /\ (forall L : Libm,
        evaluate L RefParser.parse recursion_limit "2+2" = Ok (VInt 4)
        /\ evaluate L RefParser.parse recursion_limit "sqrt(1, 2)"
           = Err TypeError
        /\ RefParser.parse (sanitize (nested_negation 1000))
           = Parsed (negations 1000 (Constant (CInt 1)))
        /\ evaluate L RefParser.parse recursion_limit (nested_negation 1000)
           = Err RecursionError
        /\ (int_max_bits L <= 3 * 1000000000000000000 ->
            evaluate L RefParser.parse recursion_limit
                     "round(1, -1000000**3)"
            = Err MemoryError)).
Proof.
  split; [|split; [|split]].
  - intros L parse depth text. unfold evaluate.
    destruct (parse (sanitize text)) as [body| |e] eqn:Hp.
    + pose proof (_eval_outcome L depth body) as H.
      destruct (_eval L depth body) as [v|e]; simpl in H.
      * intros Hn. destruct H as [H | [id ->]]; [exact H|].
        contradiction (Hn id). reflexivity.
      * destruct H as [H | H]; [left; exact H | right; left; exact H].
    + left. eexists. reflexivity.
    + right. right. reflexivity.
  - intros L parse depth text operand Hp. unfold evaluate. rewrite Hp.
    apply negations_too_deep.
  - intros L parse depth text z k keywords Hk Hm Hp.
    unfold evaluate. rewrite Hp.
    exact (round_out_of_memory L depth z k keywords Hk Hm).
  - intros L.
    assert (Hp : RefParser.parse (sanitize (nested_negation 1000))
                 = Parsed (negations 1000 (Constant (CInt 1))))
      by (vm_compute; reflexivity).
    split; [vm_compute; reflexivity|].
    split; [vm_compute; reflexivity|].
    split; [exact Hp|].
    split; [|exact (round_of_a_guarded_power L)].
    unfold evaluate. rewrite Hp. apply negations_too_deep.
Qed.

Lemma evaluate_outcomes_witness :
  RefParser.parse (sanitize (nested_negation 7))
  = Parsed (negations 7 (Constant (CInt 1)))
  /\ evaluate libm_nan RefParser.parse 7 (nested_negation 7)
     = Err RecursionError
  /\ 0 < 1000000000000
  /\ int_max_bits libm_nan <= 3 * 1000000000000
  /\ RefParser.parse (sanitize "round(5, -1000000000000)")
     = Parsed (Call (Name "round")
                    [Constant (CInt 5);
                     UnaryOp USub (Constant (CInt 1000000000000))] [])
  /\ evaluate libm_nan RefParser.parse 3 "round(5, -1000000000000)"
     = Err MemoryError
  /\ (forall id, RefParser.parse (sanitize "2+2") <> Parsed (Name id))
  /\ (forall v,
        evaluate libm_nan RefParser.parse 3 "2+2" = Ok v ->
        is_number v = true).
Proof.
  assert (H1 : RefParser.parse (sanitize (nested_negation 7))
               = Parsed (negations 7 (Constant (CInt 1))))
    by (vm_compute; reflexivity).
  assert (H2 : 0 < 1000000000000) by lia.
  assert (H3 : int_max_bits libm_nan <= 3 * 1000000000000)
    by (vm_compute; discriminate).
  assert (H4 : RefParser.parse (sanitize "round(5, -1000000000000)")
               = Parsed (Call (Name "round")
                              [Constant (CInt 5);
                               UnaryOp USub (Constant (CInt 1000000000000))]
                              []))
    by (vm_compute; reflexivity).
  assert (H5 : forall id,
             RefParser.parse (sanitize "2+2") <> Parsed (Name id))
    by (intros id; vm_compute; discriminate).
  destruct evaluate_outcomes as (T1 & T2 & T3 & _).
  split; [exact H1|].
  split; [exact (T2 libm_nan RefParser.parse 7%nat _ _ H1)|].
  split; [exact H2|]. split; [exact H3|]. split; [exact H4|].
  split; [exact (T3 libm_nan RefParser.parse 0%nat _ 5 1000000000000 []
                    H2 H3 H4)|].
  split; [exact H5|].
  intros v Hv.
  pose proof (T1 libm_nan RefParser.parse 3%nat (str_of_string "2+2")) as H.
  rewrite Hv in H. exact (H H5).
Defined.

(** The claim C2 as written fails: a call with a wrong number of
    arguments ends in [TypeError], a thousand nested negations end in
    [RecursionError], and rounding to [10 ** 18] digits before the point
    ends in [MemoryError]; none of them is a numeric value or an error of
    the taxonomy. *)
Lemma untyped_failures_exist :
  ~ Spec.typed_result
      (evaluate libm_nan RefParser.parse recursion_limit "sqrt(1, 2)")
  /\ ~ Spec.typed_result
         (evaluate libm_nan RefParser.parse recursion_limit
                   (nested_negation 1000))
  /\ ~ Spec.typed_result
         (evaluate libm_nan RefParser.parse recursion_limit
                   "round(1, -1000000**3)").
Proof.
  assert (H1 : evaluate libm_nan RefParser.parse recursion_limit "sqrt(1, 2)"
               = Err TypeError) by (vm_compute; reflexivity).
  assert (H2 : evaluate libm_nan RefParser.parse recursion_limit
                        (nested_negation 1000)
               = Err RecursionError) by (vm_compute; reflexivity).
  assert (H3 : evaluate libm_nan RefParser.parse recursion_limit
                        "round(1, -1000000**3)"
               = Err MemoryError).
  { apply round_of_a_guarded_power. vm_compute. discriminate. }
  rewrite H1, H2, H3. unfold Spec.typed_result.
  repeat split; intros [(v & H & _) | (e & k & H & Hk)];
    try discriminate H; injection H as <-; discriminate Hk.
Qed.

(** ** C1: constructs outside the grammar *)

Lemma lookup_registered (k : str) (d : list (str * value)) :
  In k (map fst d) -> exists v, lookup k d = Some v.
Proof.
  induction d as [|[k' v] d IH]; simpl; [intros []|].
  intros H. destruct (str_eqb k k') eqn:E; [eauto|].
  destruct H as [H | H]; [|exact (IH H)].
  subst k'. rewrite str_eqb_refl in E. discriminate E.
Qed.

Lemma mapM_fails {A B} (f : A -> result B) (l : list A) (a : A) :
  In a l -> (exists e, f a = Err e) -> exists e, mapM f l = Err e.
Proof.
  induction l as [|x l IH]; simpl; [intros []|].
  intros [-> | Hin] Ha.
  - destruct Ha as [e ->]. simpl. eexists; reflexivity.
  - destruct (f x) as [b|e]; simpl; [|eexists; reflexivity].
    destruct (IH Hin Ha) as [e ->]. simpl. eexists; reflexivity.
Qed.

Lemma outside_grammar_fails (L : Libm) (depth : nat) (node : expr) :
  Spec.outside_grammar node -> exists e, _eval L depth node = Err e.
Proof.
  intros H. destruct depth as [|depth]; [simpl; eauto|].
  destruct node as [c| | |func args keywords|id|elts|elts| | | |];
    red in H; try contradiction.
  - rewrite _eval_Constant. destruct c; try contradiction; eauto.
  - rewrite _eval_Call. destruct func; try (eexists; reflexivity).
    rewrite (lookup_not_in _ _ (H _ eq_refl)). eauto.
  - rewrite _eval_Name, (lookup_not_in _ _ H). eauto.
  - simpl. eauto.
  - simpl. eauto.
  - rewrite _eval_disallowed by reflexivity. eauto.
  - rewrite _eval_disallowed by reflexivity. eauto.
  - rewrite _eval_disallowed by reflexivity. eauto.
  - rewrite _eval_disallowed by (apply outside_allow_list_spec; exact I). eauto.
Qed.

(** No value comes out of a tree in which the walk would come to a
    construct outside the grammar. *)
Lemma visited_construct_fails (L : Libm) (root node : expr) :
  Spec.visits root node -> Spec.outside_grammar node ->
  forall depth, exists e, _eval L depth root = Err e.
Proof.
  intros Hv Ho. induction Hv as [e | op e n Hv IH | l r op n Hv IH
                                 | l r op n Hv IH
                                 | id args keywords a n Hid Ha Hv IH];
    intros depth.
  - apply outside_grammar_fails, Ho.
  - destruct depth as [|depth]; [simpl; eauto|].
    rewrite _eval_UnaryOp. destruct (IH Ho depth) as [e' ->]. simpl. eauto.
  - destruct depth as [|depth]; [simpl; eauto|].
    rewrite _eval_BinOp. destruct (IH Ho depth) as [e' ->]. simpl. eauto.
  - destruct depth as [|depth]; [simpl; eauto|].
    rewrite _eval_BinOp. destruct (_eval L depth l); simpl; [|eauto].
    destruct (IH Ho depth) as [e' ->]. simpl. eauto.
  - destruct depth as [|depth]; [simpl; eauto|].
    rewrite _eval_Call.
    destruct (lookup_registered _ _ Hid) as [f ->].
    destruct (mapM_fails (_eval L depth) args a Ha (IH Ho depth)) as [e' ->].
    simpl. eauto.
Qed.

(** C1, the behaviour of the code.  Keyword arguments of a call are never
    visited: a call evaluates as the same call without them, so
    "abs(-3, k=foo.bar)", whose keyword argument is an attribute access on
    an unregistered identifier, returns 3 instead of an error.  In every
    position the walk does visit, a construct outside the grammar makes
    the evaluation fail: no value is returned. *)
Theorem keyword_arguments_are_not_validated :
  (forall L : Libm,
      RefParser.parse (sanitize "abs(-3, k=foo.bar)")
      = Parsed (Call (Name "abs") [UnaryOp USub (Constant (CInt 3))]
                     [(Some (str_of_string "k"),
                       Attribute (Name "foo") "bar")])
      /\ Spec.outside_grammar (Attribute (Name "foo") "bar")
      /\ evaluate L RefParser.parse recursion_limit "abs(-3, k=foo.bar)"
         = Ok (VInt 3))
  /\ (forall (L : Libm) (depth : nat) (func : expr) (args : list expr)
             (keywords : list (option str * expr)),
        _eval L depth (Call func args keywords)
        = _eval L depth (Call func args []))
  /\ (forall (L : Libm) (root node : expr) (depth : nat),
        Spec.visits root node -> Spec.outside_grammar node ->
        exists e, _eval L depth root = Err e).
Proof.
  split; [|split].
  - intros L. repeat split; vm_compute; reflexivity.
  - intros L depth func args keywords. destruct depth; reflexivity.
  - intros L root node depth Hv Ho.
    exact (visited_construct_fails L root node Hv Ho depth).
Qed.

Lemma keyword_arguments_are_not_validated_witness :
  Spec.visits (BinOp (Constant (CInt 1)) Add (Attribute (Name "x") "y"))
              (Attribute (Name "x") "y")
  /\ Spec.outside_grammar (Attribute (Name "x") "y")
  /\ exists e,
      _eval libm_nan recursion_limit
            (BinOp (Constant (CInt 1)) Add (Attribute (Name "x") "y"))
      = Err e.
Proof.
  assert (Hv : Spec.visits
                 (BinOp (Constant (CInt 1)) Add (Attribute (Name "x") "y"))
                 (Attribute (Name "x") "y"))
    by (apply Spec.visits_right, Spec.visits_root).
  split; [exact Hv|]. split; [exact I|].
  exact (proj2 (proj2 keyword_arguments_are_not_validated)
           libm_nan _ _ recursion_limit Hv I).
Defined.

(* ================================================================== *)
(** * Further properties of the evaluator *)
(* ================================================================== *)

(** ** The recursion budget *)

Lemma mapM_stable {A B} (f g : A -> result B) (l : list A) :
  (forall a, In a l -> f a <> Err RecursionError -> g a = f a) ->
  mapM f l <> Err RecursionError -> mapM g l = mapM f l.
Proof.
  induction l as [|a l IH]; intros Hfg H; [reflexivity|].
  simpl in *.
  assert (Ha : f a <> Err RecursionError).
  { intros E. apply H. rewrite E. reflexivity. }
  rewrite (Hfg a (or_introl eq_refl) Ha).
  destruct (f a) as [b|e]; [|reflexivity]. simpl in *.
  rewrite IH; [reflexivity | intros x Hx; apply Hfg; right; exact Hx |].
  intros E. apply H. rewrite E. reflexivity.
Qed.

Lemma bind_stable {A B} (c c' : result A) (k k' : A -> result B) :
  (c <> Err RecursionError -> c' = c) ->
  (forall a, c = Ok a -> k a <> Err RecursionError -> k' a = k a) ->
  bind c k <> Err RecursionError -> bind c' k' = bind c k.
Proof.
  intros Hc Hk H.
  assert (Hc' : c <> Err RecursionError).
  { intros E. apply H. rewrite E. reflexivity. }
  rewrite (Hc Hc'). destruct c as [a|e]; [|reflexivity].
  simpl in *. apply Hk; [reflexivity | exact H].
Qed.

Lemma _eval_budget_step (L : Libm) (depth : nat) :
  forall node,
    _eval L depth node <> Err RecursionError ->
    _eval L (S depth) node = _eval L depth node.
Proof.
  induction depth as [|depth IH]; intros node H.
  { exfalso. apply H. reflexivity. }
  destruct (isinstance node allowed_nodes) eqn:Hi;
    [| rewrite !(_eval_disallowed L _ node Hi); reflexivity].
  destruct node as [c|op operand|l op r|func args keywords|id| | | | | |];
    try reflexivity.
  - rewrite _eval_UnaryOp in H. rewrite !_eval_UnaryOp.
    apply bind_stable; [apply IH | reflexivity | exact H].
  - rewrite _eval_BinOp in H. rewrite !_eval_BinOp.
    apply bind_stable; [apply IH | | exact H].
    intros x _ Hx.
    apply bind_stable; [apply IH | reflexivity | exact Hx].
  - rewrite _eval_Call in H. rewrite !_eval_Call.
    destruct func; try reflexivity.
    destruct (lookup id allowed_names) as [f|]; [|reflexivity].
    apply bind_stable; [| reflexivity | exact H].
    apply mapM_stable. intros a _. apply IH.
Qed.

Lemma _eval_budget_le (L : Libm) (depth depth' : nat) (node : expr) :
  (depth <= depth')%nat ->
  _eval L depth node <> Err RecursionError ->
  _eval L depth' node = _eval L depth node.
Proof.
  intros Hle H. induction Hle as [|d Hle IH]; [reflexivity|].
  rewrite _eval_budget_step; rewrite IH; auto.
Qed.

(** X1. The recursion budget only ever shows as [RecursionError]: when an
    evaluation with some budget ends in anything else, a value or another
    exception, every larger budget gives exactly the same result, for
    [_eval] and for [evaluate]. *)
Theorem larger_budget_same_result :
  forall (L : Libm) (parse : parser) (depth depth' : nat),
    (depth <= depth')%nat ->
    (forall node,
        _eval L depth node <> Err RecursionError ->
        _eval L depth' node = _eval L depth node)
    /\ (forall text,
          evaluate L parse depth text <> Err RecursionError ->
          evaluate L parse depth' text = evaluate L parse depth text).
Proof.
  intros L parse depth depth' Hle.
  split; [intros node; apply _eval_budget_le, Hle|].
  intros text. unfold evaluate.
  destruct (parse (sanitize text)); auto.
  apply _eval_budget_le, Hle.
Qed.

Lemma larger_budget_same_result_witness :
  (3 <= recursion_limit)%nat
  /\ _eval libm_nan 3
           (BinOp (Constant (CInt 1)) Div (UnaryOp USub (Constant (CInt 0))))
     <> Err RecursionError
  /\ _eval libm_nan recursion_limit
           (BinOp (Constant (CInt 1)) Div (UnaryOp USub (Constant (CInt 0))))
     = _eval libm_nan 3
             (BinOp (Constant (CInt 1)) Div
                    (UnaryOp USub (Constant (CInt 0)))).
Proof.
  assert (Hle : (3 <= recursion_limit)%nat)
    by (unfold recursion_limit; lia).
  assert (H : _eval libm_nan 3
                    (BinOp (Constant (CInt 1)) Div
                           (UnaryOp USub (Constant (CInt 0))))
              <> Err RecursionError) by (vm_compute; discriminate).
  split; [exact Hle|]. split; [exact H|].
  exact (proj1 (larger_budget_same_result libm_nan RefParser.parse 3
                  recursion_limit Hle) _ H).
Defined.

(** ** Arguments and operands *)

Lemma mapM_app_fails {A B} (f : A -> result B) (pre post : list A) (a : A)
      (bs : list B) (e : exn) :
  mapM f pre = Ok bs -> f a = Err e -> mapM f (pre ++ a :: post) = Err e.
Proof.
  revert bs; induction pre as [|x pre IH]; intros bs Hpre Ha; simpl.
  - rewrite Ha. reflexivity.
  - simpl in Hpre. destruct (f x) as [b|e']; [|discriminate Hpre].
    simpl in *. destruct (mapM f pre) as [bs'|e']; [|discriminate Hpre].
    rewrite (IH bs' eq_refl Ha). reflexivity.
Qed.

(** X3. The arguments of a call to a registered name are evaluated from
    left to right and the first failure is the result: when the arguments
    before one evaluate and that one fails with [e], the call fails with
    [e], whatever the later arguments and whatever the function. *)
Theorem first_failing_argument_decides :
  forall (L : Libm) (depth : nat) (id : str) (pre post : list expr)
         (a : expr) (keywords : list (option str * expr))
         (vs : list value) (e : exn),
    In id (map fst allowed_names) ->
    mapM (_eval L depth) pre = Ok vs ->
    _eval L depth a = Err e ->
    _eval L (S depth) (Call (Name id) (pre ++ a :: post) keywords) = Err e.
Proof.
  intros L depth id pre post a keywords vs e Hid Hpre Ha.
  rewrite _eval_Call.
  destruct (lookup_registered _ _ Hid) as [f ->].
  rewrite (mapM_app_fails _ pre post a vs e Hpre Ha). reflexivity.
Qed.

Lemma first_failing_argument_decides_witness :
  In (str_of_string "round") (map fst allowed_names)
  /\ mapM (_eval libm_nan 5) [Constant (CInt 1)] = Ok [VInt 1]
  /\ _eval libm_nan 5 (BinOp (Constant (CInt 1)) Div (Constant (CInt 0)))
     = Err ZeroDivisionError
  /\ _eval libm_nan 6
           (Call (Name "round")
                 [Constant (CInt 1);
                  BinOp (Constant (CInt 1)) Div (Constant (CInt 0));
                  Name "x"] [])
     = Err ZeroDivisionError.
Proof.
  assert (Hid : In (str_of_string "round") (map fst allowed_names))
    by (simpl; tauto).
  split; [exact Hid|]. split; [reflexivity|]. split; [reflexivity|].
  exact (first_failing_argument_decides libm_nan 5 (str_of_string "round")
           [Constant (CInt 1)] [Name "x"]
           (BinOp (Constant (CInt 1)) Div (Constant (CInt 0))) []
           [VInt 1] ZeroDivisionError Hid eq_refl eq_refl).
Defined.

Lemma fneg_involutive (f : float) : fneg (fneg f) = f.
Proof. destruct f; simpl; rewrite ?negb_involutive; reflexivity. Qed.

(** X4. Negating twice is unary plus: [--x] evaluates to what [+x]
    evaluates to (a Boolean becomes its integer, a function object is a
    [TypeError], every other number is returned unchanged), with one call
    more on the stack. *)
Theorem double_negation_is_unary_plus :
  forall (L : Libm) (depth : nat) (operand : expr),
    _eval L (S (S depth)) (UnaryOp USub (UnaryOp USub operand))
    = _eval L (S depth) (UnaryOp UAdd operand)
    /\ (forall v, _eval L depth operand = Ok v -> is_number v = true ->
                  exists v',
                    _eval L (S (S depth))
                          (UnaryOp USub (UnaryOp USub operand)) = Ok v'
                    /\ to_num v' = to_num v).
Proof.
  intros L depth operand.
  rewrite !_eval_UnaryOp.
  assert (H : forall v, (x <- neg v ;; neg x) = pos v).
  { intros [z|b|f|re im|g]; simpl; try reflexivity.
    - rewrite Z.opp_involutive. reflexivity.
    - rewrite Z.opp_involutive. reflexivity.
    - rewrite fneg_involutive. reflexivity.
    - rewrite !fneg_involutive. reflexivity. }
  split.
  - destruct (_eval L depth operand) as [v|e]; [|reflexivity].
    simpl bind at 2 3. apply H.
  - intros v Hv Hn. rewrite Hv. simpl bind at 2. rewrite H.
    destruct v as [z|b|f|re im|g]; try discriminate Hn;
      eexists; split; reflexivity.
Qed.

Lemma double_negation_is_unary_plus_witness :
  _eval libm_nan 1 (Constant (CBool true)) = Ok (VBool true)
  /\ exists v',
      _eval libm_nan 3
            (UnaryOp USub (UnaryOp USub (Constant (CBool true)))) = Ok v'
      /\ to_num v' = to_num (VBool true).
Proof.
  split; [reflexivity|].
  exact (proj2 (double_negation_is_unary_plus libm_nan 1
                  (Constant (CBool true))) (VBool true) eq_refl eq_refl).
Defined.

(** ** Rounding and absolute value *)

Lemma div_near_spec (a b : Z) :
  0 < b ->
  Z.abs (2 * a - 2 * div_near a b * b) <= b
  /\ (Z.abs (2 * a - 2 * div_near a b * b) = b ->
      Z.even (div_near a b) = true).
Proof.
  intros Hb. unfold div_near.
  pose proof (Z.div_mod a b ltac:(lia)) as Hdm.
  pose proof (Z.mod_pos_bound a b Hb) as Hr.
  set (q := a / b) in *. set (r := a mod b) in *.
  assert (E1 : 2 * a - 2 * q * b = 2 * r) by lia.
  assert (E2 : 2 * a - 2 * (q + 1) * b = 2 * r - 2 * b) by lia.
  destruct (Z.ltb_spec (2 * r) b) as [H1 | H1].
  { rewrite E1. split; [lia | intros; lia]. }
  destruct (Z.ltb_spec b (2 * r)) as [H2 | H2].
  { rewrite E2. split; [lia | intros; lia]. }
  destruct (Z.even q) eqn:Eq.
  - rewrite E1. split; [lia | intros; exact Eq].
  - rewrite E2. split; [lia|]. intros _.
    replace (q + 1) with (Z.succ q) by lia.
    rewrite Z.even_succ, <- Z.negb_even, Eq. reflexivity.
Qed.

(** X5. [round] returns the nearest integer, ties going to the even one.
    For a float [m * 2^e] with a fractional part ([e < 0]) the result [q]
    is within one half of the exact value, and exactly one half off only
    if [q] is even; a float without fractional part is returned as that
    integer.  With a negative number of digits [-k] an integer is rounded
    to the nearest multiple of [10^k] by the same rule, provided the host
    has the memory for [10^k], which the builtin builds first; where it
    has not (as soon as [3 * k] bits are too many) the call ends in
    [MemoryError].  With a non-negative number of digits the integer is
    returned unchanged. *)
Theorem round_is_nearest_ties_to_even :
  forall (L : Libm),
    (forall (s : bool) (m : positive) (e : Z),
        e < 0 ->
        exists q,
          call_builtin L Bround [VFloat (S754_finite s m e)]
          = Ok (VInt (cond_Zopp s q))
          /\ Z.abs (2 * Zpos m - 2 * q * 2 ^ (- e)) <= 2 ^ (- e)
          /\ (Z.abs (2 * Zpos m - 2 * q * 2 ^ (- e)) = 2 ^ (- e) ->
              Z.even q = true))
    /\ (forall (s : bool) (m : positive) (e : Z),
          0 <= e ->
          call_builtin L Bround [VFloat (S754_finite s m e)]
          = Ok (VInt (cond_Zopp s (Zpos m * 2 ^ e))))
    /\ (forall (z k : Z),
          0 < k ->
          Z.log2 (10 ^ k) < int_max_bits L ->
          exists q,
            call_builtin L Bround [VInt z; VInt (- k)]
            = Ok (VInt (q * 10 ^ k))
            /\ Z.abs (2 * z - 2 * q * 10 ^ k) <= 10 ^ k
            /\ (Z.abs (2 * z - 2 * q * 10 ^ k) = 10 ^ k ->
                Z.even q = true))
    /\ (forall (z k : Z),
          0 < k ->
          int_max_bits L <= Z.log2 (10 ^ k) \/ int_max_bits L <= 3 * k ->
          call_builtin L Bround [VInt z; VInt (- k)] = Err MemoryError)
    /\ (forall (z n : Z),
          0 <= n -> call_builtin L Bround [VInt z; VInt n] = Ok (VInt z)).
Proof.
  intros L. split; [|split; [|split; [|split]]].
  - intros s m e He.
    exists (div_near (Zpos m) (2 ^ (- e))).
    assert (Hp : 0 < 2 ^ (- e)) by (apply Z.pow_pos_nonneg; lia).
    split; [|exact (div_near_spec (Zpos m) _ Hp)].
    simpl. replace (0 <=? e) with false
      by (symmetry; apply Z.leb_gt; exact He).
    reflexivity.
  - intros s m e He. simpl.
    replace (0 <=? e) with true by (symmetry; apply Z.leb_le; exact He).
    reflexivity.
  - intros z k Hk Hm.
    exists (div_near z (10 ^ k)).
    assert (Hp : 0 < 10 ^ k) by (apply Z.pow_pos_nonneg; lia).
    split; [|exact (div_near_spec z _ Hp)].
    change (call_builtin L Bround [VInt z; VInt (- k)])
      with (r <- int_round L z (- k) ;; Ok (VInt r)).
    rewrite (int_round_fits L z k Hk Hm). reflexivity.
  - intros z k Hk [Hm | Hm]; [|exact (round_memory L z k Hk Hm)].
    change (call_builtin L Bround [VInt z; VInt (- k)])
      with (r <- int_round L z (- k) ;; Ok (VInt r)).
    rewrite (int_round_memory L z k Hk Hm). reflexivity.
  - intros z n Hn.
    change (call_builtin L Bround [VInt z; VInt n])
      with (r <- int_round L z n ;; Ok (VInt r)).
    unfold int_round.
    replace (0 <=? n) with true by (symmetry; apply Z.leb_le; exact Hn).
    reflexivity.
Qed.

Lemma round_is_nearest_ties_to_even_witness :
  -1 < 0 /\ 0 < 1 /\ 0 <= 3
  /\ Z.log2 (10 ^ 1) < int_max_bits libm_nan
  /\ int_max_bits libm_nan <= 3 * 1000000000000000000
  /\ (exists q,
        call_builtin libm_nan Bround [VFloat (S754_finite false 5 (-1))]
        = Ok (VInt q)
        /\ Z.abs (2 * 5 - 2 * q * 2 ^ 1) <= 2 ^ 1)
  /\ (exists q,
        call_builtin libm_nan Bround [VInt 25; VInt (-1)]
        = Ok (VInt (q * 10 ^ 1))
        /\ Z.abs (2 * 25 - 2 * q * 10 ^ 1) <= 10 ^ 1)
  /\ call_builtin libm_nan Bround [VInt 1; VInt (- 1000000000000000000)]
     = Err MemoryError
  /\ call_builtin libm_nan Bround [VInt 25; VInt 3] = Ok (VInt 25).
Proof.
  assert (H1 : -1 < 0) by lia. assert (H2 : 0 < 1) by lia.
  assert (H3 : 0 <= 3) by lia.
  assert (H4 : Z.log2 (10 ^ 1) < int_max_bits libm_nan) by reflexivity.
  assert (H5 : int_max_bits libm_nan <= 3 * 1000000000000000000)
    by (vm_compute; discriminate).
  assert (H6 : 0 < 1000000000000000000) by lia.
  destruct (round_is_nearest_ties_to_even libm_nan)
    as (T1 & _ & T3 & T4 & T5).
  split; [exact H1|]. split; [exact H2|]. split; [exact H3|].
  split; [exact H4|]. split; [exact H5|].
  split; [|split; [|split]].
  - destruct (T1 false 5%positive (-1) H1) as (q & Hq & Hb & _).
    exists q. split; [exact Hq | exact Hb].
  - destruct (T3 25 1 H2 H4) as (q & Hq & Hb & _).
    exists q. split; [exact Hq | exact Hb].
  - exact (T4 1 1000000000000000000 H6 (or_intror H5)).
  - exact (T5 25 3 H3).
Defined.

(** X6. [abs] of a real number (integer, Boolean or float) is a real
    number that is not negative; it is unchanged by a second [abs], and
    the sign of the argument does not matter: [abs(-x)] is [abs(x)]. *)
Theorem abs_is_nonnegative_and_idempotent :
  forall (L : Libm) (v : value),
    is_real v = true ->
    exists a,
      call_builtin L Babs [v] = Ok a
      /\ is_real a = true
      /\ Spec.nonpositive a = Spec.zero_value a
      /\ call_builtin L Babs [a] = Ok a
      /\ (x <- neg v ;; call_builtin L Babs [x]) = Ok a.
Proof.
  intros L v Hv. destruct v as [z|b|f| |]; try discriminate Hv.
  - exists (VInt (Z.abs z)).
    split; [reflexivity|]. split; [reflexivity|]. split; [|split].
    + unfold Spec.nonpositive, Spec.zero_value.
      destruct (Z.leb_spec (Z.abs z) 0), (Z.eqb_spec (Z.abs z) 0);
        try reflexivity; lia.
    + change (Ok (VInt (Z.abs (Z.abs z))) = Ok (VInt (Z.abs z))).
      do 2 f_equal. lia.
    + change (Ok (VInt (Z.abs (- z))) = Ok (VInt (Z.abs z))).
      do 2 f_equal. lia.
  - exists (VInt (Z.b2z b)). destruct b; repeat split.
  - exists (VFloat (fabs f)). destruct f as [s|s| |s m e]; repeat split.
Qed.

Lemma abs_is_nonnegative_and_idempotent_witness :
  is_real (VInt (-3)) = true
  /\ exists a, call_builtin libm_nan Babs [VInt (-3)] = Ok a
               /\ call_builtin libm_nan Babs [a] = Ok a.
Proof.
  split; [reflexivity|].
  destruct (abs_is_nonnegative_and_idempotent libm_nan (VInt (-3)) eq_refl)
    as (a & H1 & _ & _ & H2 & _).
  exists a. split; assumption.
Defined.

(** ** The sanitizer *)

Lemma sanitize_no_glyph (text : str) :
  existsb is_glyph (sanitize text) = false.
Proof.
  rewrite sanitize_ascii_form. unfold Spec.ascii_form.
  induction text as [|c text IH]; [reflexivity|].
  simpl. rewrite IH, orb_false_r.
  unfold is_glyph, Spec.ascii_of_glyph, multiplication_sign, division_sign,
    minus_sign.
  destruct (N.eqb c 215) eqn:E1; [reflexivity|].
  destruct (N.eqb c 247) eqn:E2; [reflexivity|].
  destruct (N.eqb c 8722) eqn:E3; [reflexivity|].
  rewrite E1, E2, E3. reflexivity.
Qed.

Lemma sanitize_glyph_free (text : str) :
  existsb is_glyph text = false -> sanitize text = text.
Proof.
  rewrite sanitize_ascii_form. unfold Spec.ascii_form.
  induction text as [|c text IH]; [reflexivity|].
  simpl. intros H. apply orb_false_iff in H as [Hc Ht].
  rewrite (IH Ht). f_equal.
  unfold is_glyph, multiplication_sign, division_sign, minus_sign in Hc.
  unfold Spec.ascii_of_glyph.
  destruct (N.eqb c 215); [discriminate|].
  destruct (N.eqb c 247); [discriminate|].
  destruct (N.eqb c 8722); [discriminate|]. reflexivity.
Qed.

(** X7. What [evaluate] hands to the parser has the length of the text
    and holds none of the three glyphs; a text without glyphs is handed
    over unchanged.  So two parsers that agree on glyph-free texts give
    the same evaluations. *)
Theorem parser_never_sees_a_glyph :
  forall (L : Libm) (parse parse' : parser) (depth : nat) (text : str),
    (forall t, existsb is_glyph t = false -> parse' t = parse t) ->
    existsb is_glyph (sanitize text) = false
    /\ List.length (sanitize text) = List.length text
    /\ (existsb is_glyph text = false -> sanitize text = text)
    /\ evaluate L parse' depth text = evaluate L parse depth text.
Proof.
  intros L parse parse' depth text H.
  split; [apply sanitize_no_glyph|].
  split; [unfold sanitize, replace; rewrite !length_map; reflexivity|].
  split; [apply sanitize_glyph_free|].
  unfold evaluate. rewrite (H _ (sanitize_no_glyph text)). reflexivity.
Qed.

Lemma parser_never_sees_a_glyph_witness :
  let parse' : parser :=
    fun t => if existsb is_glyph t then RaisedSyntaxError
             else RefParser.parse t in
  evaluate libm_nan parse' 1000 (glyph_text "6" division_sign "3")
  = evaluate libm_nan RefParser.parse 1000 (glyph_text "6" division_sign "3").
Proof.
  intros parse'.
  refine (proj2 (proj2 (proj2
    (parser_never_sees_a_glyph libm_nan RefParser.parse parse' 1000
       (glyph_text "6" division_sign "3") _)))).
  intros t Ht. unfold parse'. rewrite Ht. reflexivity.
Defined.

(** ** The window *)

Import PyText CalculatorWindow.

(** X8. A key types one code point, and the ASCII form of what it types
    is the ASCII form of the key; for every key but the three glyphs
    this is the key itself. *)
Theorem key_types_its_ascii_form :
  forall (key : codepoint),
    List.length (key_token key) = 1%nat
    /\ sanitize (key_token key) = sanitize [key]
    /\ (is_glyph key = false -> sanitize (key_token key) = [key]).
Proof.
  intros key.
  assert (Hs : sanitize (key_token key) = sanitize [key]).
  { unfold key_token, key_lookup, key_mapping, asterisk, solidus,
      hyphen_minus.
    destruct (N.eqb_spec key 42) as [->|]; [reflexivity|].
    destruct (N.eqb_spec key 47) as [->|]; [reflexivity|].
    destruct (N.eqb_spec key 45) as [->|]; reflexivity. }
  split; [|split; [exact Hs|]].
  - unfold key_token. destruct (key_lookup key key_mapping); reflexivity.
  - intros Hg. rewrite Hs. apply sanitize_glyph_free.
    simpl. rewrite Hg. reflexivity.
Qed.

Lemma key_types_its_ascii_form_witness :
  is_glyph 42%N = false /\ sanitize (key_token 42%N) = [42%N].
Proof.
  split; [reflexivity|].
  exact (proj2 (proj2 (key_types_its_ascii_form 42%N)) eq_refl).
Defined.

(** *** Texts *)

Lemma startswith_app (p r : str) : startswith (p ++ r) p = true.
Proof.
  induction p as [|c p IH]; [destruct r; reflexivity|].
  simpl. rewrite N.eqb_refl. exact IH.
Qed.

Lemma startswith_inv (s p : str) :
  startswith s p = true -> exists r, s = p ++ r.
Proof.
  revert s. induction p as [|c p IH]; intros s H.
  - exists s. reflexivity.
  - destruct s as [|d s]; [discriminate|]. simpl in H.
    apply andb_true_iff in H as [Hc Hs]. apply N.eqb_eq in Hc. subst d.
    destruct (IH _ Hs) as [r ->]. exists r. reflexivity.
Qed.

Lemma endswith_app (d s : str) : endswith (d ++ s) s = true.
Proof. unfold endswith. rewrite rev_app_distr. apply startswith_app. Qed.

Lemma endswith_inv (d s : str) :
  endswith d s = true -> exists d', d = d' ++ s.
Proof.
  unfold endswith. intros H. apply startswith_inv in H as [r Hr].
  exists (rev r). rewrite <- (rev_involutive d), Hr, rev_app_distr,
    rev_involutive. reflexivity.
Qed.

Lemma operator_glyph_cases (c : codepoint) :
  operator_glyph c = true ->
  c = 43%N \/ c = minus_sign \/ c = multiplication_sign
  \/ c = division_sign.
Proof.
  unfold operator_glyph, minus_sign, multiplication_sign, division_sign.
  destruct (N.eqb_spec c 43); [auto|].
  destruct (N.eqb_spec c 8722); [auto|].
  destruct (N.eqb_spec c 215); [auto|].
  destruct (N.eqb_spec c 247); [auto|]. discriminate.
Qed.

Lemma str_in_operator_tokens (c : codepoint) :
  str_in [c] operator_tokens = operator_glyph c.
Proof.
  unfold str_in, operator_tokens, operator_glyph, minus_sign,
    multiplication_sign, division_sign. simpl.
  destruct (N.eqb c 43), (N.eqb c 8722), (N.eqb c 215), (N.eqb c 247),
    (N.eqb c 42); reflexivity.
Qed.

Lemma ends_with_glyph (d : str) (g : codepoint) :
  operator_glyph g = true ->
  endswith_any (d ++ [g]) operator_tokens = true.
Proof.
  intros H. unfold endswith_any, operator_tokens. simpl existsb.
  destruct (operator_glyph_cases g H) as [-> | [-> | [-> | ->]]].
  - change [43%N] with (str_of_string "+").
    rewrite (endswith_app d (str_of_string "+")). reflexivity.
  - rewrite (endswith_app d [minus_sign]), !orb_true_r. reflexivity.
  - rewrite (endswith_app d [multiplication_sign]), !orb_true_r.
    reflexivity.
  - rewrite (endswith_app d [division_sign]), !orb_true_r. reflexivity.
Qed.

Lemma ends_with_power (d : str) :
  endswith_any (d ++ str_of_string "**") operator_tokens = true.
Proof.
  unfold endswith_any, operator_tokens. simpl existsb.
  rewrite (endswith_app d (str_of_string "**")), !orb_true_r. reflexivity.
Qed.

Lemma ends_with_operator_inv (d : str) :
  endswith_any d operator_tokens = true ->
  exists d' g,
    d = d' ++ [g]
    /\ (operator_glyph g = true
        \/ (g = asterisk /\ exists d'', d' = d'' ++ [asterisk])).
Proof.
  unfold endswith_any, operator_tokens. simpl existsb. intros H.
  repeat (apply orb_true_iff in H as [H|H]); try discriminate H;
    apply endswith_inv in H as [d' ->].
  - exists d', 43%N. split; [reflexivity | left; reflexivity].
  - exists d', minus_sign. split; [reflexivity | left; reflexivity].
  - exists d', multiplication_sign.
    split; [reflexivity | left; reflexivity].
  - exists d', division_sign. split; [reflexivity | left; reflexivity].
  - exists (d' ++ [asterisk]), asterisk. split.
    + rewrite <- app_assoc. reflexivity.
    + right. split; [reflexivity|]. exists d'. reflexivity.
Qed.

Lemma maxLength_pos : (0 < maxLength)%nat.
Proof. unfold maxLength. lia. Qed.

Lemma firstn_nonempty {A} (n : nat) (l : list A) :
  (0 < n)%nat -> l <> [] -> firstn n l <> [].
Proof.
  intros Hn Hl. destruct n; [lia|]. destruct l; [congruence|]. discriminate.
Qed.

Lemma str_eqb_false (a b : str) : a <> b -> str_eqb a b = false.
Proof.
  intros H. destruct (str_eqb a b) eqn:E; [|reflexivity].
  apply str_eqb_eq in E. contradiction.
Qed.

(** *** Adjacent operators *)

Lemma operator_pair_app (d t : str) :
  no_operator_pair (d ++ t)
  = no_operator_pair d && no_operator_pair t
    && negb (operator_glyph (last d 0%N) && operator_glyph (hd 0%N t)).
Proof.
  induction d as [|c d IH].
  - simpl. rewrite andb_true_r. reflexivity.
  - destruct d as [|c' d].
    + destruct t as [|x t].
      * simpl. rewrite andb_false_r. reflexivity.
      * change (no_operator_pair ([c] ++ x :: t))
          with (negb (operator_glyph c && operator_glyph x)
                && no_operator_pair (x :: t)).
        simpl last. simpl hd. simpl (no_operator_pair [c]).
        rewrite andb_true_l. apply andb_comm.
    + change (no_operator_pair ((c :: c' :: d) ++ t))
        with (negb (operator_glyph c && operator_glyph c')
              && no_operator_pair ((c' :: d) ++ t)).
      rewrite IH.
      change (no_operator_pair (c :: c' :: d))
        with (negb (operator_glyph c && operator_glyph c')
              && no_operator_pair (c' :: d)).
      change (last (c :: c' :: d) 0%N) with (last (c' :: d) 0%N).
      rewrite !andb_assoc. reflexivity.
Qed.

Lemma operator_pair_prefix (d t : str) :
  no_operator_pair (d ++ t) = true -> no_operator_pair d = true.
Proof.
  rewrite operator_pair_app. intros H.
  apply andb_true_iff in H as [H _]. apply andb_true_iff in H as [H _].
  exact H.
Qed.

Lemma operator_pair_firstn (n : nat) (d : str) :
  no_operator_pair d = true -> no_operator_pair (firstn n d) = true.
Proof.
  intros H. rewrite <- (firstn_skipn n d) in H.
  exact (operator_pair_prefix _ _ H).
Qed.

Lemma operator_pair_removelast (d : str) :
  no_operator_pair d = true -> no_operator_pair (removelast d) = true.
Proof.
  intros H. destruct d as [|c d]; [reflexivity|].
  rewrite (app_removelast_last 0%N (l := c :: d)) in H by discriminate.
  exact (operator_pair_prefix _ _ H).
Qed.

(** *** The handlers and the display *)

Section Window.
Variable L : Libm.
Variable parse : parser.
Variable depth : nat.
Variable complex_str : float * float -> str.
Variable max_str_digits : nat.

Lemma display_update_preview (w : window) :
  display (_update_preview L parse depth complex_str max_str_digits w)
  = display w.
Proof.
  unfold _update_preview.
  destruct (bind _ _); reflexivity.
Qed.

Lemma display_append_token (token : str) (w : window) :
  display (_append_token L parse depth complex_str max_str_digits token w)
  = let current :=
      if str_eqb (display w) "0"
         && negb (str_in token [ "." : str; "(" : str; ")" : str ])
      then [] else display w in
    let current :=
      if str_in token operator_tokens
         && endswith_any current operator_tokens
      then drop_last current else current in
    firstn maxLength (current ++ token).
Proof.
  unfold _append_token. rewrite display_update_preview.
  destruct (str_eqb (display w) "0" && negb (str_in token _));
    reflexivity.
Qed.

Lemma display_on_backspace (w : window) :
  display (_on_backspace L parse depth complex_str max_str_digits w)
  = firstn maxLength
      (if Nat.ltb 1 (List.length (display w)) then drop_last (display w)
       else str_of_string "0").
Proof.
  unfold _on_backspace. rewrite display_update_preview.
  destruct (Nat.ltb 1 _); reflexivity.
Qed.

Lemma display_toggle_negate (w : window) :
  display (_toggle_negate L parse depth complex_str max_str_digits w)
  = if startswith (display w) [minus_sign]
    then firstn maxLength (drop_first (display w))
    else if negb (str_eqb (display w) "0")
         then firstn maxLength (minus_sign :: display w)
         else display w.
Proof.
  unfold _toggle_negate. rewrite display_update_preview.
  destruct (startswith _ _); [reflexivity|].
  destruct (negb _); reflexivity.
Qed.

End Window.

Lemma firstn_short {A} (n : nat) (l : list A) :
  (List.length l <= n)%nat -> firstn n l = l.
Proof. apply firstn_all2. Qed.

(** X9. After a backspace the display is never empty.  A backspace takes
    back a one-character token: when the display is neither empty nor
    [0], has room for one more character, and the token does not replace
    an operator, appending it and pressing backspace restores the
    display. *)
Theorem backspace_takes_back_a_token :
  forall (L : Libm) (parse : parser) (depth : nat)
         (complex_str : float * float -> str) (max_str_digits : nat)
         (w : window) (c : codepoint),
    display (_on_backspace L parse depth complex_str max_str_digits w) <> []
    /\ (display w <> [] ->
        display w <> str_of_string "0" ->
        operator_glyph c && endswith_any (display w) operator_tokens
        = false ->
        (List.length (display w) < maxLength)%nat ->
        display
          (_on_backspace L parse depth complex_str max_str_digits
             (_append_token L parse depth complex_str max_str_digits
                [c] w))
        = display w).
Proof.
  intros L parse depth complex_str max_str_digits w c. split.
  - rewrite display_on_backspace.
    apply firstn_nonempty; [apply maxLength_pos|].
    destruct (display w) as [|a [|b d]]; discriminate.
  - intros Hne H0 Hop Hlen.
    rewrite display_on_backspace, display_append_token.
    rewrite (str_eqb_false _ _ H0), andb_false_l.
    cbv zeta. rewrite str_in_operator_tokens, Hop.
    rewrite (firstn_short maxLength (display w ++ [c]))
      by (rewrite length_app; simpl; lia).
    replace (Nat.ltb 1 (List.length (display w ++ [c]))) with true.
    + unfold drop_last. rewrite removelast_last.
      apply firstn_short. lia.
    + symmetry. apply Nat.ltb_lt. rewrite length_app. simpl.
      destruct (display w); [congruence | simpl; lia].
Qed.

Lemma backspace_takes_back_a_token_witness :
  display
    (_on_backspace libm_nan RefParser.parse 1000 (fun _ => []) 0
       (_append_token libm_nan RefParser.parse 1000 (fun _ => []) 0
          [55%N] {| display := "12+"; preview := [] |}))
  = "12+".
Proof.
  refine (proj2 (backspace_takes_back_a_token libm_nan RefParser.parse 1000
                   (fun _ => []) 0 {| display := "12+"; preview := [] |}
                   55%N) _ _ _ _).
  - discriminate.
  - discriminate.
  - reflexivity.
  - unfold maxLength. simpl. lia.
Defined.

(** X10. The display never gets two operator glyphs side by side from
    the keys and buttons that append or delete: when it has none, it has
    none after a token of one character or [**] is appended, after a
    key is typed, after a backspace and after a clear. *)
Theorem no_adjacent_operators :
  forall (L : Libm) (parse : parser) (depth : nat)
         (complex_str : float * float -> str) (max_str_digits : nat)
         (w : window) (token : str) (key : codepoint),
    no_operator_pair (display w) = true ->
    (List.length token = 1%nat \/ token = str_of_string "**") ->
    no_operator_pair
      (display (_append_token L parse depth complex_str max_str_digits
                  token w)) = true
    /\ no_operator_pair
         (display (_key_input L parse depth complex_str max_str_digits
                     key w)) = true
    /\ no_operator_pair
         (display (_on_backspace L parse depth complex_str max_str_digits
                     w)) = true
    /\ no_operator_pair (display (_on_clear w)) = true.
Proof.
  intros L parse depth complex_str max_str_digits w token key Hw Htok.
  assert (Happ : forall t,
             (List.length t = 1%nat \/ t = str_of_string "**") ->
             no_operator_pair
               (display (_append_token L parse depth complex_str
                           max_str_digits t w)) = true).
  { clear token Htok. intros token Htok.
    rewrite display_append_token. cbv zeta.
    set (cur0 := if str_eqb (display w) "0" && negb (str_in token _)
                 then [] else display w).
    assert (H0 : no_operator_pair cur0 = true)
      by (unfold cur0; destruct (_ && _); [reflexivity | exact Hw]).
    clearbody cur0.
    apply operator_pair_firstn. rewrite operator_pair_app.
    assert (Ht : no_operator_pair token = true
                 /\ (operator_glyph (hd 0%N token) = true ->
                     token = [hd 0%N token])).
    { destruct Htok as [Hl | ->].
      - destruct token as [|c [|c' t]]; try discriminate Hl.
        split; [reflexivity | intros _; reflexivity].
      - split; [reflexivity | intros H; discriminate H]. }
    destruct Ht as [Ht Hhd]. rewrite Ht, andb_true_r.
    destruct (operator_glyph (hd 0%N token)) eqn:Eg.
    - rewrite (Hhd eq_refl), str_in_operator_tokens, Eg, andb_true_l.
      rewrite andb_true_r.
      destruct (endswith_any cur0 operator_tokens) eqn:Ee.
      + destruct (ends_with_operator_inv _ Ee) as (d' & g & -> & Hg).
        unfold drop_last. rewrite removelast_last.
        rewrite operator_pair_app in H0.
        apply andb_true_iff in H0 as [H0 Hb].
        apply andb_true_iff in H0 as [H0 _]. rewrite H0.
        destruct Hg as [Hg | (-> & d'' & ->)].
        * simpl hd in Hb. rewrite Hg, andb_true_r in Hb.
          apply negb_true_iff in Hb. rewrite Hb. reflexivity.
        * rewrite last_last. reflexivity.
      + rewrite H0.
        destruct (operator_glyph (last cur0 0%N)) eqn:El; [|reflexivity].
        destruct cur0 as [|a cur0]; [discriminate El|].
        rewrite (app_removelast_last 0%N (l := a :: cur0)) in Ee
          by discriminate.
        rewrite (ends_with_glyph _ _ El) in Ee. discriminate Ee.
    - rewrite andb_false_r, andb_true_r.
      destruct (_ && _); [apply operator_pair_removelast|]; exact H0. }
  split; [exact (Happ token Htok)|]. split; [|split].
  - unfold _key_input. apply Happ. left.
    unfold key_token. destruct (key_lookup key key_mapping); reflexivity.
  - rewrite display_on_backspace. apply operator_pair_firstn.
    destruct (Nat.ltb 1 _); [|reflexivity].
    apply operator_pair_removelast, Hw.
  - reflexivity.
Qed.

Lemma no_adjacent_operators_witness :
  no_operator_pair
    (display (_append_token libm_nan RefParser.parse 1000 (fun _ => []) 0
                [multiplication_sign]
                {| display := "12+"; preview := [] |})) = true.
Proof.
  refine (proj1 (no_adjacent_operators libm_nan RefParser.parse 1000
                   (fun _ => []) 0 {| display := "12+"; preview := [] |}
                   [multiplication_sign] 48%N _ _)).
  - reflexivity.
  - left. reflexivity.
Defined.

(** X11. An operator appended after an operator glyph replaces it.
    After [**] it replaces the second asterisk only, the first one
    stays. *)
Theorem operator_replaces_operator :
  forall (L : Libm) (parse : parser) (depth : nat)
         (complex_str : float * float -> str) (max_str_digits : nat)
         (w : window) (d op : str) (g : codepoint),
    str_in op operator_tokens = true ->
    (display w = d ++ [g] ->
     operator_glyph g = true ->
     display (_append_token L parse depth complex_str max_str_digits op w)
     = firstn maxLength (d ++ op))
    /\ (display w = d ++ str_of_string "**" ->
        display
          (_append_token L parse depth complex_str max_str_digits op w)
        = firstn maxLength (d ++ asterisk :: op)).
Proof.
  intros L parse depth complex_str max_str_digits w d op g Hop. split.
  - intros Hd Hg. rewrite display_append_token, Hd.
    assert (H0 : d ++ [g] <> str_of_string "0").
    { intros E. destruct d as [|a [|b d]]; try discriminate E.
      injection E as ->. discriminate Hg. }
    rewrite (str_eqb_false _ _ H0), andb_false_l. cbv zeta.
    rewrite Hop, (ends_with_glyph d g Hg), andb_true_l.
    unfold drop_last. rewrite removelast_last. reflexivity.
  - intros Hd. rewrite display_append_token, Hd.
    assert (H0 : d ++ str_of_string "**" <> str_of_string "0").
    { intros E. apply (f_equal (@List.length _)) in E.
      rewrite length_app in E. simpl in E. lia. }
    rewrite (str_eqb_false _ _ H0), andb_false_l. cbv zeta.
    rewrite Hop, (ends_with_power d), andb_true_l.
    unfold drop_last.
    change (str_of_string "**") with ([asterisk] ++ [asterisk]).
    rewrite app_assoc, removelast_last, <- app_assoc. reflexivity.
Qed.

Lemma operator_replaces_operator_witness :
  display (_append_token libm_nan RefParser.parse 1000 (fun _ => []) 0
             [multiplication_sign] {| display := "2**"; preview := [] |})
  = (str_of_string "2*" ++ [multiplication_sign]).
Proof.
  refine (proj2 (operator_replaces_operator libm_nan RefParser.parse 1000
                   (fun _ => []) 0 {| display := "2**"; preview := [] |}
                   "2" [multiplication_sign] 43%N _) _);
    reflexivity.
Defined.

(** X12. Negating twice restores the display: a leading minus sign is
    put in front and taken away again, or taken away and put back, as
    long as the text fits the display and what follows the sign is
    neither [0] nor a second minus sign.  The display [0] is left as it
    is. *)
Theorem negate_twice :
  forall (L : Libm) (parse : parser) (depth : nat)
         (complex_str : float * float -> str) (max_str_digits : nat)
         (w : window),
    (startswith (display w) [minus_sign] = false ->
     display w <> str_of_string "0" ->
     (List.length (display w) < maxLength)%nat ->
     display
       (_toggle_negate L parse depth complex_str max_str_digits
          (_toggle_negate L parse depth complex_str max_str_digits w))
     = display w)
    /\ (forall rest,
          display w = minus_sign :: rest ->
          startswith rest [minus_sign] = false ->
          rest <> str_of_string "0" ->
          (List.length rest < maxLength)%nat ->
          display
            (_toggle_negate L parse depth complex_str max_str_digits
               (_toggle_negate L parse depth complex_str max_str_digits w))
          = display w)
    /\ (display w = str_of_string "0" ->
        display (_toggle_negate L parse depth complex_str max_str_digits w)
        = str_of_string "0").
Proof.
  intros L parse depth complex_str max_str_digits w.
  assert (Hs : forall t, startswith (minus_sign :: t) [minus_sign] = true)
    by (intros [|a t]; reflexivity).
  split; [|split].
  - intros Hsw H0 Hlen.
    rewrite display_toggle_negate.
    rewrite (display_toggle_negate _ _ _ _ _ w), Hsw.
    rewrite (str_eqb_false _ _ H0). cbv [negb].
    rewrite (firstn_short maxLength (minus_sign :: display w))
      by (simpl; lia).
    rewrite Hs. unfold drop_first, tl. apply firstn_short. lia.
  - intros rest Hd Hsw H0 Hlen.
    rewrite display_toggle_negate.
    rewrite (display_toggle_negate _ _ _ _ _ w), Hd, Hs.
    unfold drop_first, tl.
    rewrite (firstn_short maxLength rest) by lia.
    rewrite Hsw, (str_eqb_false _ _ H0). cbv [negb].
    apply firstn_short. simpl. lia.
  - intros Hd. rewrite display_toggle_negate, Hd. reflexivity.
Qed.

Lemma negate_twice_witness :
  display
    (_toggle_negate libm_nan RefParser.parse 1000 (fun _ => []) 0
       (_toggle_negate libm_nan RefParser.parse 1000 (fun _ => []) 0
          {| display := "12"; preview := [] |}))
  = "12".
Proof.
  refine (proj1 (negate_twice libm_nan RefParser.parse 1000
                   (fun _ => []) 0 {| display := "12"; preview := [] |})
            _ _ _).
  - reflexivity.
  - discriminate.
  - unfold maxLength. simpl. lia.
Defined.

Lemma key_token_plain (k : codepoint) :
  decimal_digit k || N.eqb k 46 = true ->
  key_token k = [k] /\ operator_glyph k = false.
Proof.
  intros H. unfold key_token, key_lookup, key_mapping, asterisk, solidus,
    hyphen_minus, operator_glyph.
  destruct (N.eqb_spec k 42) as [->|]; [discriminate H|].
  destruct (N.eqb_spec k 47) as [->|]; [discriminate H|].
  destruct (N.eqb_spec k 45) as [->|]; [discriminate H|].
  destruct (N.eqb_spec k 43) as [->|]; [discriminate H|].
  destruct (N.eqb_spec k 8722) as [->|]; [discriminate H|].
  destruct (N.eqb_spec k 215) as [->|]; [discriminate H|].
  destruct (N.eqb_spec k 247) as [->|]; [discriminate H|].
  split; reflexivity.
Qed.

Lemma typed_plain (L : Libm) (parse : parser) (depth : nat)
      (complex_str : float * float -> str) (max_str_digits : nat)
      (ks : str) :
  forall (w : window) (c : codepoint) (rest : str),
    display w = c :: rest ->
    c <> 48%N ->
    forallb (fun k => decimal_digit k || N.eqb k 46) ks = true ->
    (List.length (c :: rest ++ ks) <= maxLength)%nat ->
    display (typed L parse depth complex_str max_str_digits ks w)
    = c :: rest ++ ks.
Proof.
  induction ks as [|k ks IH]; intros w c rest Hd Hc Hks Hlen.
  - rewrite app_nil_r. exact Hd.
  - simpl in Hks. apply andb_true_iff in Hks as [Hk Hks].
    destruct (key_token_plain k Hk) as [Hkt Hg].
    change (typed L parse depth complex_str max_str_digits (k :: ks) w)
      with (typed L parse depth complex_str max_str_digits ks
              (_key_input L parse depth complex_str max_str_digits k w)).
    rewrite (IH _ c (rest ++ [k])).
    + rewrite <- app_assoc. reflexivity.
    + unfold _key_input. rewrite Hkt, display_append_token, Hd.
      assert (H0 : c :: rest <> str_of_string "0")
        by (intros E; injection E as E _; contradiction).
      rewrite (str_eqb_false _ _ H0), andb_false_l. cbv zeta.
      rewrite str_in_operator_tokens, Hg, andb_false_l.
      apply firstn_short. simpl in *. rewrite !length_app in *.
      simpl in *. lia.
    + exact Hc.
    + exact Hks.
    + rewrite <- app_assoc. exact Hlen.
Qed.

(** X13. Typing a number into the cleared display shows that number:
    the first digit, when it is not [0], takes the place of the [0] of
    the display and the digits and decimal points typed after it are
    appended, up to the capacity of the display.  Typing [0] leaves the
    display at [0]. *)
Theorem typing_a_number :
  forall (L : Libm) (parse : parser) (depth : nat)
         (complex_str : float * float -> str) (max_str_digits : nat)
         (w : window) (c : codepoint) (ks : str),
    display w = str_of_string "0" ->
    (decimal_digit c = true ->
     c <> 48%N ->
     forallb (fun k => decimal_digit k || N.eqb k 46) ks = true ->
     (List.length (c :: ks) <= maxLength)%nat ->
     display (typed L parse depth complex_str max_str_digits (c :: ks) w)
     = c :: ks)
    /\ display (typed L parse depth complex_str max_str_digits [48%N] w)
       = str_of_string "0".
Proof.
  intros L parse depth complex_str max_str_digits w c ks Hd. split.
  - intros Hc Hc0 Hks Hlen.
    change (typed L parse depth complex_str max_str_digits (c :: ks) w)
      with (typed L parse depth complex_str max_str_digits ks
              (_key_input L parse depth complex_str max_str_digits c w)).
    apply (typed_plain L parse depth complex_str max_str_digits ks _ c []);
      auto.
    unfold _key_input.
    destruct (key_token_plain c) as [Hkt Hg];
      [rewrite Hc; reflexivity|].
    rewrite Hkt, display_append_token, Hd.
    assert (Hin : str_in [c] [ "." : str; "(" : str; ")" : str ] = false).
    { unfold str_in. simpl.
      destruct (N.eqb_spec c 46) as [->|]; [discriminate Hc|].
      destruct (N.eqb_spec c 40) as [->|]; [discriminate Hc|].
      destruct (N.eqb_spec c 41) as [->|]; [discriminate Hc|].
      reflexivity. }
    rewrite Hin, str_eqb_refl. cbv zeta. cbv [negb andb].
    rewrite str_in_operator_tokens, Hg. cbv [andb app].
    apply firstn_short. unfold maxLength. simpl. lia.
  - unfold typed, fold_left, _key_input.
    change (key_token 48%N) with [48%N].
    rewrite display_append_token, Hd. reflexivity.
Qed.

Lemma typing_a_number_witness :
  display (typed libm_nan RefParser.parse 1000 (fun _ => []) 0 "3.14"
             initial)
  = "3.14".
Proof.
  refine (proj1 (typing_a_number libm_nan RefParser.parse 1000
                   (fun _ => []) 0 initial 51%N ".14" _) _ _ _ _).
  - reflexivity.
  - reflexivity.
  - discriminate.
  - reflexivity.
  - unfold maxLength. simpl. lia.
Defined.

(** *** Printed numbers *)

Lemma uint_digits_digit (d : Decimal.uint) (c : codepoint) :
  In c (uint_digits d) -> decimal_digit c = true.
Proof.
  induction d; simpl; intros H; try contradiction;
    (destruct H as [<- | H]; [reflexivity | auto]).
Qed.

Lemma str_of_N_digit (n : N) (c : codepoint) :
  In c (str_of_N n) -> decimal_digit c = true.
Proof. apply uint_digits_digit. Qed.

Lemma str_of_N_nonempty (n : N) : str_of_N n <> [].
Proof.
  unfold str_of_N. destruct n as [|p]; [discriminate|].
  simpl. pose proof (Unsigned.to_uint_nonnil p) as H.
  destruct (Pos.to_uint p); try discriminate. congruence.
Qed.

Lemma zero_padded_digit (width : nat) (n : N) (c : codepoint) :
  In c (zero_padded width n) -> decimal_digit c = true.
Proof.
  unfold zero_padded. intros H. apply in_app_or in H as [H | H].
  - apply repeat_spec in H. subst c. reflexivity.
  - exact (str_of_N_digit _ _ H).
Qed.

Lemma sign_text_chars (s : bool) (c : codepoint) :
  In c (sign_text s) -> c = 45%N.
Proof.
  destruct s; simpl; intros H; [|contradiction].
  destruct H as [H | H]; [auto | contradiction].
Qed.

(** *** [rstrip] *)

Lemma rstrip_cons_nonempty (c d : codepoint) (s : str) :
  d <> c -> rstrip c (d :: s) <> [].
Proof.
  intros H. simpl. destruct (rstrip c s); [|discriminate].
  destruct (N.eqb_spec d c); [contradiction | discriminate].
Qed.

Lemma rstrip_app (c : codepoint) (a b : str) :
  rstrip c b <> [] -> rstrip c (a ++ b) = a ++ rstrip c b.
Proof.
  intros H. induction a as [|x a IH]; [reflexivity|].
  simpl. rewrite IH. destruct (a ++ rstrip c b) eqn:E; [|reflexivity].
  apply app_eq_nil in E as [_ E]. contradiction.
Qed.

Lemma rstrip_app_stripped (c : codepoint) (a b : str) :
  rstrip c b = [] -> rstrip c (a ++ b) = rstrip c a.
Proof.
  intros H. induction a as [|x a IH]; [exact H|].
  simpl. rewrite IH. reflexivity.
Qed.

Lemma rstrip_absent (c : codepoint) (s : str) :
  ~ In c s -> rstrip c s = s.
Proof.
  induction s as [|d s IH]; [reflexivity|].
  intros H. simpl. rewrite IH by (intros H'; apply H; right; exact H').
  destruct s; [|reflexivity].
  destruct (N.eqb_spec d c) as [->|]; [|reflexivity].
  exfalso. apply H. left. reflexivity.
Qed.

Lemma rstrip_last (c : codepoint) (s : str) :
  rstrip c s <> [] -> last (rstrip c s) 0%N <> c.
Proof.
  induction s as [|d s IH]; [intros H; contradiction H; reflexivity|].
  simpl. destruct (rstrip c s) as [|y r] eqn:E.
  - destruct (N.eqb_spec d c); [intros H; contradiction H; reflexivity|].
    intros _. exact n.
  - intros _. change (last (d :: y :: r) 0%N) with (last (y :: r) 0%N).
    apply IH. discriminate.
Qed.

Lemma rstrip_subset (c : codepoint) (s : str) (x : codepoint) :
  In x (rstrip c s) -> In x s.
Proof.
  induction s as [|d s IH]; [auto|].
  simpl. destruct (rstrip c s) as [|y r].
  - destruct (N.eqb d c); simpl; intros H; [contradiction|].
    destruct H as [H | H]; [auto | contradiction].
  - intros [H | H]; [left; exact H | right; apply IH; exact H].
Qed.

Lemma last_in {A} (l : list A) (d : A) : l <> [] -> In (last l d) l.
Proof.
  induction l as [|a l IH]; [congruence|].
  intros _. destruct l as [|b l]; [left; reflexivity|].
  right. apply IH. discriminate.
Qed.

Lemma last_app_nonempty {A} (a b : list A) (d : A) :
  b <> [] -> last (a ++ b) d = last b d.
Proof.
  intros H. induction a as [|x a IH]; [reflexivity|].
  simpl. rewrite IH. destruct (a ++ b) eqn:E; [|reflexivity].
  apply app_eq_nil in E as [_ E]. contradiction.
Qed.

Lemma digit_not_point (c : codepoint) :
  decimal_digit c = true -> c <> 46%N /\ c <> 45%N /\ c <> 37%N.
Proof.
  intros H. repeat split; intros ->; discriminate H.
Qed.

(** The text of a signed decimal fraction, stripped as
    [_format_result] strips it. *)
Lemma stripped_fraction (pre fp : str) :
  pre <> [] ->
  decimal_digit (last pre 0%N) = true ->
  ~ In 46%N pre ->
  (forall c, In c fp -> decimal_digit c = true) ->
  let t := rstrip 46%N (rstrip 48%N (pre ++ 46%N :: fp)) in
  t <> [] /\ last t 0%N <> 46%N /\ (In 46%N t -> last t 0%N <> 48%N)
  /\ (forall c, In c t -> In c pre \/ c = 46%N \/ In c fp).
Proof.
  intros Hpre Hlast Hnp Hfp t.
  assert (H1 : rstrip 48%N (pre ++ 46%N :: fp)
               = pre ++ rstrip 48%N (46%N :: fp)).
  { apply rstrip_app, rstrip_cons_nonempty. discriminate. }
  destruct (rstrip 48%N fp) as [|y r] eqn:E.
  - assert (Ht : t = pre).
    { assert (H2 : rstrip 48%N (46%N :: fp) = [46%N])
        by (simpl; rewrite E; reflexivity).
      unfold t. rewrite H1, H2.
      rewrite (rstrip_app_stripped 46%N pre [46%N]) by reflexivity.
      apply rstrip_absent, Hnp. }
    rewrite Ht. split; [exact Hpre|]. split; [|split].
    + apply (digit_not_point _ Hlast).
    + intros H. contradiction.
    + intros c H. left. exact H.
  - assert (Hyr : forall c, In c (y :: r) -> decimal_digit c = true).
    { intros c H. apply Hfp. apply (rstrip_subset 48%N). rewrite E.
      exact H. }
    assert (Ht : t = pre ++ 46%N :: y :: r).
    { assert (H2 : rstrip 48%N (46%N :: fp) = 46%N :: y :: r)
        by (simpl; rewrite E; reflexivity).
      unfold t. rewrite H1, H2.
      change (pre ++ 46%N :: y :: r) with (pre ++ [46%N] ++ y :: r).
      rewrite app_assoc.
      assert (Hr : rstrip 46%N (y :: r) = y :: r).
      { apply rstrip_absent. intros H.
        apply (proj1 (digit_not_point _ (Hyr _ H))). reflexivity. }
      rewrite rstrip_app; rewrite Hr; [reflexivity | discriminate]. }
    assert (Hl : last t 0%N = last (y :: r) 0%N)
      by (rewrite Ht; apply (last_app_nonempty pre (46%N :: y :: r));
          discriminate).
    rewrite Hl. split; [rewrite Ht; destruct pre; discriminate|].
    split; [|split].
    + apply (digit_not_point (last (y :: r) 0%N)).
      apply Hyr, last_in. discriminate.
    + intros _. rewrite <- E. apply rstrip_last. rewrite E. discriminate.
    + intros c. rewrite Ht. intros H. apply in_app_or in H as [H | H];
        [left; exact H|].
      destruct H as [<- | H]; [right; left; reflexivity|].
      right; right. apply (rstrip_subset 48%N). rewrite E. exact H.
Qed.

Lemma signed_digits (s : bool) (n : N) :
  let pre := sign_text s ++ str_of_N n in
  pre <> [] /\ decimal_digit (last pre 0%N) = true
  /\ (forall c, In c pre -> c = 45%N \/ decimal_digit c = true).
Proof.
  intros pre. pose proof (str_of_N_nonempty n) as Hn.
  split; [|split].
  - unfold pre. destruct (sign_text s); simpl; [exact Hn | discriminate].
  - unfold pre. rewrite (last_app_nonempty _ _ _ Hn).
    apply (str_of_N_digit n), last_in, Hn.
  - intros c H. apply in_app_or in H as [H | H].
    + left. exact (sign_text_chars _ _ H).
    + right. exact (str_of_N_digit _ _ H).
Qed.

Lemma str_of_Z_signed (z : Z) :
  str_of_Z z = sign_text (z <? 0) ++ str_of_N (Z.to_N (Z.abs z)).
Proof. reflexivity. Qed.

(** The characters of a printed float, and its shape. *)
Lemma format_float (max_str_digits : nat) (x : float) (t : str) :
  (if is_integer x then int_str max_str_digits (int_of_float x)
   else Ok (rstrip 46%N (rstrip 48%N (format_10f x)))) = Ok t ->
  t <> [] /\ last t 0%N <> 46%N /\ (In 46%N t -> last t 0%N <> 48%N)
  /\ ~ In 37%N t.
Proof.
  destruct (is_integer x) eqn:Ei.
  - unfold int_str. destruct (_ && _); [discriminate|].
    intros H. injection H as <-. rewrite str_of_Z_signed.
    destruct (signed_digits (int_of_float x <? 0)
                (Z.to_N (Z.abs (int_of_float x)))) as (H1 & H2 & H3).
    split; [exact H1|]. split; [apply (digit_not_point _ H2)|].
    assert (Hc : forall c, c = 46%N \/ c = 37%N ->
                 ~ In c (sign_text (int_of_float x <? 0)
                         ++ str_of_N (Z.to_N (Z.abs (int_of_float x))))).
    { intros c Hc H. destruct (H3 _ H) as [-> | Hd].
      - destruct Hc; discriminate.
      - destruct (digit_not_point _ Hd) as (? & ? & ?).
        destruct Hc; contradiction. }
    split; [intros H; exfalso; revert H; apply Hc; auto|].
    apply Hc. auto.
  - intros H. injection H as <-.
    destruct x as [s|s| |s m e]; try discriminate Ei.
    + destruct s; repeat split; try discriminate;
        simpl; intuition discriminate.
    + repeat split; try discriminate; simpl; intuition discriminate.
    + unfold format_10f.
      set (n := if 0 <=? e then Z.pos m * 2 ^ e * 10 ^ 10
                else div_near (Z.pos m * 10 ^ 10) (2 ^ (- e))).
      rewrite app_assoc.
      destruct (signed_digits s (Z.to_N (n / 10 ^ 10))) as (H1 & H2 & H3).
      assert (Hnp : ~ In 46%N (sign_text s ++ str_of_N (Z.to_N (n / 10 ^ 10)))).
      { intros H. destruct (H3 _ H) as [E | Hd]; [discriminate E|].
        apply (proj1 (digit_not_point _ Hd)). reflexivity. }
      destruct (stripped_fraction _ _ H1 H2 Hnp
                  (zero_padded_digit 10 (Z.to_N (n mod 10 ^ 10))))
        as (T1 & T2 & T3 & T4).
      split; [exact T1|]. split; [exact T2|]. split; [exact T3|].
      intros H. destruct (T4 _ H) as [Hp | [E | Hf]]; [|discriminate E|].
      * destruct (H3 _ Hp) as [E | Hd]; [discriminate E|].
        apply (proj2 (proj2 (digit_not_point _ Hd))). reflexivity.
      * apply zero_padded_digit in Hf. discriminate Hf.
Qed.

(** X14. The text [_format_result] gives for a float is never empty and
    never ends with the decimal point; when it has a decimal point it
    does not end with the digit [0].  So a float is printed without
    trailing zeros, and an integral one without a point. *)
Theorem formatted_float_has_no_trailing_zeros :
  forall (complex_str : float * float -> str) (max_str_digits : nat)
         (x : float) (t : str),
    _format_result complex_str max_str_digits (VFloat x) = Ok t ->
    t <> []
    /\ last t 0%N <> 46%N
    /\ (In 46%N t -> last t 0%N <> 48%N).
Proof.
  intros complex_str max_str_digits x t H.
  destruct (format_float max_str_digits x t H) as (H1 & H2 & H3 & _).
  auto.
Qed.

Lemma formatted_float_has_no_trailing_zeros_witness :
  _format_result (fun _ => []) 0 (VFloat fhalf) = Ok (str_of_string "0.5")
  /\ last (str_of_string "0.5") 0%N <> 46%N.
Proof.
  assert (H : _format_result (fun _ => []) 0 (VFloat fhalf)
              = Ok (str_of_string "0.5")) by (vm_compute; reflexivity).
  split; [exact H|].
  exact (proj1 (proj2 (formatted_float_has_no_trailing_zeros
                         (fun _ => []) 0 fhalf _ H))).
Defined.

(** *** The grid *)

Lemma place_invariant (l : list TokenMapping) :
  forall (row col i : nat) (m : TokenMapping) (r c : nat),
    (col < 4)%nat ->
    nth_error (place row col l) i = Some (m, r, c) ->
    nth_error l i = Some m
    /\ (c < 4)%nat /\ (4 * r + c = 4 * row + col + i)%nat.
Proof.
  induction l as [|m0 l IH]; intros row col i m r c Hcol H.
  - destruct i; discriminate H.
  - destruct i as [|i].
    + simpl in H. injection H as -> -> ->. repeat split; [exact Hcol | lia].
    + change (nth_error
                (if Nat.leb 4 (col + 1) then place (row + 1) 0 l
                 else place row (col + 1) l) i = Some (m, r, c)) in H.
      change (nth_error (m0 :: l) (S i)) with (nth_error l i).
      destruct (Nat.leb_spec 4 (col + 1)) as [Hc | Hc].
      * assert (H0 : (0 < 4)%nat) by lia.
        destruct (IH (row + 1)%nat 0%nat i m r c H0 H) as (H1 & H2 & H3).
        repeat split; [exact H1 | exact H2 | lia].
      * assert (H0 : (col + 1 < 4)%nat) by lia.
        destruct (IH row (col + 1)%nat i m r c H0 H) as (H1 & H2 & H3).
        repeat split; [exact H1 | exact H2 | lia].
Qed.

Lemma place_length (l : list TokenMapping) :
  forall row col, List.length (place row col l) = List.length l.
Proof.
  induction l as [|m l IH]; intros row col; [reflexivity|].
  change (S (List.length
               (if Nat.leb 4 (col + 1) then place (row + 1) 0 l
                else place row (col + 1) l)) = S (List.length l)).
  destruct (Nat.leb 4 (col + 1)); rewrite IH; reflexivity.
Qed.

(** X15. The placement loop fills the grid row by row, four to a row:
    started in a column below four, it places every button once, in the
    order of the table, and the button of index [i] at row
    [row + (col + i) / 4] and column [(col + i) mod 4]. *)
Theorem buttons_fill_the_grid_row_by_row :
  forall (l : list TokenMapping) (row col : nat),
    (col < 4)%nat ->
    List.length (place row col l) = List.length l
    /\ forall (i : nat) (m : TokenMapping) (r c : nat),
        nth_error (place row col l) i = Some (m, r, c) ->
        nth_error l i = Some m
        /\ r = (row + (col + i) / 4)%nat
        /\ c = ((col + i) mod 4)%nat.
Proof.
  intros l row col Hcol. split; [apply place_length|].
  intros i m r c H.
  destruct (place_invariant l row col i m r c Hcol H) as (H1 & H2 & H3).
  split; [exact H1|].
  pose proof (Nat.div_mod_eq (col + i) 4) as E.
  pose proof (Nat.mod_upper_bound (col + i) 4 ltac:(lia)) as B.
  split; lia.
Qed.

Lemma buttons_fill_the_grid_row_by_row_witness :
  (0 < 4)%nat
  /\ nth_error buttons 7
     = Some {| label := [multiplication_sign];
               value := [multiplication_sign]; role := "op" |}
  /\ (1 = 0 + (0 + 7) / 4)%nat /\ (3 = (0 + 7) mod 4)%nat.
Proof.
  assert (H : (0 < 4)%nat) by lia.
  split; [exact H|].
  exact (proj2 (buttons_fill_the_grid_row_by_row buttons 0 0 H) 7%nat
           {| label := [multiplication_sign];
              value := [multiplication_sign]; role := "op" |}
           1%nat 3%nat eq_refl).
Defined.

(** X16. The equals key commits what the preview announced: when the
    preview of the display is not empty, [=] puts that text into the
    display and clears the preview.  When the evaluation of the display
    fails, [=] and [%] leave the display as it is and show [Error] in
    the preview, and the preview of the display is empty. *)
Theorem equals_commits_the_preview :
  forall (L : Libm) (parse : parser) (depth : nat)
         (complex_str : float * float -> str) (max_str_digits : nat)
         (w : window),
    (preview (_update_preview L parse depth complex_str max_str_digits w)
     <> [] ->
     _on_equals L parse depth complex_str max_str_digits w
     = {| display :=
            firstn maxLength
              (preview (_update_preview L parse depth complex_str
                          max_str_digits w));
          preview := [] |})
    /\ (forall e,
          evaluate L parse depth (display w) = Err e ->
          _on_equals L parse depth complex_str max_str_digits w
          = {| display := display w; preview := "Error" |}
          /\ preview (_update_preview L parse depth complex_str
                        max_str_digits w) = [])
    /\ (forall e,
          evaluate L parse depth
            (remove 37%N (display w) ++ str_of_string "/100") = Err e ->
          _apply_percent L parse depth complex_str max_str_digits w
          = {| display := display w; preview := "Error" |}).
Proof.
  intros L parse depth complex_str max_str_digits w. split; [|split].
  - unfold _update_preview, _on_equals.
    destruct (bind _ _) as [t | e]; [intros _; reflexivity|].
    intros H. contradiction H. reflexivity.
  - intros e He. unfold _update_preview, _on_equals. rewrite He.
    split; reflexivity.
  - intros e He. unfold _apply_percent. rewrite He. reflexivity.
Qed.

Lemma equals_commits_the_preview_witness :
  _on_equals libm_nan RefParser.parse 1000 (fun _ => []) 0
    {| display := "1/0"; preview := [] |}
  = {| display := "1/0"; preview := "Error" |}.
Proof.
  refine (proj1 (proj1 (proj2
    (equals_commits_the_preview libm_nan RefParser.parse 1000
       (fun _ => []) 0 {| display := "1/0"; preview := [] |}))
    ZeroDivisionError _)).
  vm_compute. reflexivity.
Defined.

(** *** The percent sign *)

Lemma in_firstn {A} (n : nat) (l : list A) (x : A) :
  In x (firstn n l) -> In x l.
Proof.
  intros H. rewrite <- (firstn_skipn n l). apply in_or_app. left. exact H.
Qed.

Lemma in_removelast {A} (l : list A) (x : A) :
  In x (removelast l) -> In x l.
Proof.
  destruct l as [|a l]; [auto|]. intros H.
  rewrite (app_removelast_last a (l := a :: l)) by discriminate.
  apply in_or_app. left. exact H.
Qed.

Lemma absent_by_test (x : codepoint) (t : str) :
  forallb (fun c => negb (N.eqb c x)) t = true -> ~ In x t.
Proof.
  intros H Hin. rewrite forallb_forall in H. specialize (H _ Hin).
  rewrite N.eqb_refl in H. discriminate H.
Qed.

Lemma remove_absent (x : codepoint) (t : str) :
  ~ In x t -> remove x t = t.
Proof.
  induction t as [|c t IH]; [reflexivity|].
  intros H. unfold remove in *. simpl.
  destruct (N.eqb_spec c x) as [-> | Hc].
  - exfalso. apply H. left. reflexivity.
  - simpl. rewrite IH; [reflexivity|].
    intros H'. apply H. right. exact H'.
Qed.

Section Percent.
Variable L : Libm.
Variable parse : parser.
Variable depth : nat.
Variable complex_str : float * float -> str.
Variable max_str_digits : nat.
Hypothesis complex_str_plain : forall z, ~ In 37%N (complex_str z).

Lemma format_result_no_percent (v : Py.value) (t : str) :
  _format_result complex_str max_str_digits v = Ok t -> ~ In 37%N t.
Proof.
  destruct v as [z | b | x | re im | b].
  - simpl. unfold int_str. destruct (_ && _); [discriminate|].
    intros H. injection H as <-. rewrite str_of_Z_signed.
    destruct (signed_digits (z <? 0) (Z.to_N (Z.abs z))) as (_ & _ & H3).
    intros H. destruct (H3 _ H) as [E | Hd]; [discriminate E|].
    discriminate Hd.
  - intros H. injection H as <-. apply absent_by_test.
    destruct b; reflexivity.
  - intros H. exact (proj2 (proj2 (proj2 (format_float _ _ _ H)))).
  - intros H. injection H as <-. apply complex_str_plain.
  - intros H. injection H as <-. apply absent_by_test.
    destruct b; reflexivity.
Qed.

Lemma evaluated_no_percent (text : str) (t : str) :
  (r <- evaluate L parse depth text ;;
   _format_result complex_str max_str_digits r) = Ok t ->
  ~ In 37%N t.
Proof.
  destruct (evaluate L parse depth text) as [v | e]; [|discriminate].
  apply format_result_no_percent.
Qed.

Lemma append_no_percent (token : str) (w : window) :
  ~ In 37%N token -> ~ In 37%N (display w) ->
  ~ In 37%N
    (display (_append_token L parse depth complex_str max_str_digits
                token w)).
Proof.
  intros Ht Hw H. rewrite display_append_token in H. cbv zeta in H.
  apply in_firstn, in_app_or in H as [H | H]; [|contradiction].
  set (cur0 := if str_eqb (display w) "0" && negb (str_in token _)
               then [] else display w) in H.
  assert (H' : In 37%N cur0).
  { destruct (str_in token operator_tokens && _); [|exact H].
    exact (in_removelast _ _ H). }
  unfold cur0 in H'.
  destruct (str_eqb (display w) "0" && negb (str_in token _));
    [contradiction H' | contradiction].
Qed.

Lemma backspace_no_percent (w : window) :
  ~ In 37%N (display w) ->
  ~ In 37%N
    (display (_on_backspace L parse depth complex_str max_str_digits w)).
Proof.
  intros Hw H. rewrite display_on_backspace in H. apply in_firstn in H.
  destruct (Nat.ltb 1 _).
  - apply Hw, in_removelast, H.
  - revert H. apply absent_by_test. reflexivity.
Qed.

Lemma negate_no_percent (w : window) :
  ~ In 37%N (display w) ->
  ~ In 37%N
    (display (_toggle_negate L parse depth complex_str max_str_digits w)).
Proof.
  intros Hw H. rewrite display_toggle_negate in H.
  destruct (startswith _ _).
  - apply in_firstn in H. destruct (display w); [exact H|].
    apply Hw. right. exact H.
  - destruct (negb _); [|contradiction].
    apply in_firstn in H. destruct H as [H | H]; [discriminate H|].
    contradiction.
Qed.

Lemma equals_no_percent (w : window) :
  ~ In 37%N (display w) ->
  ~ In 37%N
    (display (_on_equals L parse depth complex_str max_str_digits w)).
Proof.
  intros Hw. unfold _on_equals.
  destruct (bind _ _) as [t | e] eqn:E; [|exact Hw].
  intros H. apply in_firstn in H. exact (evaluated_no_percent _ _ E H).
Qed.

Lemma percent_no_percent (w : window) :
  ~ In 37%N (display w) ->
  ~ In 37%N
    (display (_apply_percent L parse depth complex_str max_str_digits w)).
Proof.
  intros Hw. unfold _apply_percent.
  destruct (bind _ _) as [t | e] eqn:E; [|exact Hw].
  intros H. apply in_firstn in H. exact (evaluated_no_percent _ _ E H).
Qed.

Lemma button_no_percent (mapping : TokenMapping) (w : window) :
  connected (Clicked mapping) = true ->
  ~ In 37%N (display w) ->
  ~ In 37%N
    (display (_on_button L parse depth complex_str max_str_digits
                mapping w)).
Proof.
  intros Hc Hw. unfold _on_button.
  destruct (str_eqb (value mapping) "AC");
    [apply absent_by_test; reflexivity|].
  destruct (str_eqb (value mapping) "NEG");
    [apply negate_no_percent, Hw|].
  destruct (str_eqb (value mapping) "=");
    [apply equals_no_percent, Hw|].
  destruct (str_eqb (value mapping) "%") eqn:Ep;
    [apply percent_no_percent, Hw|].
  apply append_no_percent; [|exact Hw].
  unfold connected in Hc. apply existsb_exists in Hc as (m & Hm & Hc).
  apply andb_true_iff in Hc as [Hc _].
  apply andb_true_iff in Hc as [_ Hv]. apply str_eqb_eq in Hv.
  rewrite Hv in *. clear Hv.
  unfold buttons in Hm. simpl in Hm.
  repeat (destruct Hm as [<- | Hm];
          [first [discriminate Ep | apply absent_by_test; reflexivity]|]).
  contradiction.
Qed.

Lemma key_no_percent (key : codepoint) (w : window) :
  connected (Typed key) = true ->
  ~ In 37%N (display w) ->
  ~ In 37%N
    (display (_key_input L parse depth complex_str max_str_digits key w)).
Proof.
  intros Hc Hw. unfold _key_input. apply append_no_percent; [|exact Hw].
  unfold connected in Hc. apply existsb_exists in Hc as (k & Hk & Hc).
  apply N.eqb_eq in Hc. subst k.
  unfold shortcut_keys in Hk. simpl in Hk.
  repeat (destruct Hk as [<- | Hk]; [apply absent_by_test; reflexivity|]).
  contradiction.
Qed.

Lemma handle_no_percent (ev : event) (w : window) :
  connected ev = true ->
  ~ In 37%N (display w) ->
  ~ In 37%N
    (display (handle L parse depth complex_str max_str_digits ev w)).
Proof.
  intros Hc Hw. destruct ev; simpl handle.
  - apply button_no_percent; assumption.
  - apply backspace_no_percent, Hw.
  - apply append_no_percent; [apply absent_by_test; reflexivity | exact Hw].
  - apply append_no_percent; [apply absent_by_test; reflexivity | exact Hw].
  - apply key_no_percent; assumption.
  - apply equals_no_percent, Hw.
  - apply equals_no_percent, Hw.
  - apply backspace_no_percent, Hw.
  - apply absent_by_test. reflexivity.
Qed.

Lemma session_no_percent (evs : list event) :
  forall w,
    forallb connected evs = true ->
    ~ In 37%N (display w) ->
    ~ In 37%N
      (display (session L parse depth complex_str max_str_digits evs w)).
Proof.
  induction evs as [|ev evs IH]; intros w Hc Hw; [exact Hw|].
  simpl in Hc. apply andb_true_iff in Hc as [Hev Hc].
  change (session L parse depth complex_str max_str_digits (ev :: evs) w)
    with (session L parse depth complex_str max_str_digits evs
            (handle L parse depth complex_str max_str_digits ev w)).
  apply IH; [exact Hc|]. apply handle_no_percent; assumption.
Qed.

End Percent.

(** X17. No click on a button of the table and no shortcut key puts a
    percent sign into the display, as long as the text of a complex
    number has none: after any session of such events on a display
    without percent sign the display has none, so the removal of percent
    signs in [_apply_percent] changes nothing. *)
Theorem percent_sign_never_reaches_the_display :
  forall (L : Libm) (parse : parser) (depth : nat)
         (complex_str : float * float -> str) (max_str_digits : nat)
         (evs : list event) (w : window),
    (forall z, ~ In 37%N (complex_str z)) ->
    forallb connected evs = true ->
    ~ In 37%N (display w) ->
    ~ In 37%N
      (display (session L parse depth complex_str max_str_digits evs w))
    /\ remove 37%N
         (display (session L parse depth complex_str max_str_digits evs w))
       = display (session L parse depth complex_str max_str_digits evs w).
Proof.
  intros L parse depth complex_str max_str_digits evs w Hz Hc Hw.
  pose proof (session_no_percent L parse depth complex_str max_str_digits
                Hz evs w Hc Hw) as H.
  split; [exact H | apply remove_absent, H].
Qed.

Lemma percent_sign_never_reaches_the_display_witness :
  ~ In 37%N
    (display
       (session libm_nan RefParser.parse 1000 (fun _ => []) 0
          [ Typed 57%N;
            Clicked {| label := "%"; value := "%"; role := "op" |} ]
          initial)).
Proof.
  refine (proj1 (percent_sign_never_reaches_the_display libm_nan
                   RefParser.parse 1000 (fun _ => []) 0
                   [ Typed 57%N;
                     Clicked {| label := "%"; value := "%";
                                role := "op" |} ]
                   initial _ _ _)).
  - intros z H. exact H.
  - reflexivity.
  - apply absent_by_test. reflexivity.
Defined.
